(** * A shallow embedding of the Minitel serial driver (minitel.js)

    The development follows the class [Minitel]: the videotex control
    codes, the character codec, the command encoder, the transport and the
    connect-time negotiation, and the timer-driven input framer with the
    two definitions of [_waitForResponse] found in the class body.

    Bytes and numbers are integers ([Z]); a [Buffer] is a list of bytes;
    a character is a Unicode code point; JS objects used as dictionaries
    are finite maps.

    Two programs that use the driver, typing.js and snake.js, follow the
    driver: their state, the calls they make to the driver, and for the
    game the stretches of its [async] methods between two [await]. *)

From Stdlib Require Import ZArith List String Ascii Bool Lia.
From stdpp Require Import base option list gmap strings pretty.

Local Open Scope string_scope.
Local Open Scope list_scope.
Local Open Scope Z_scope.

(** ** Control codes: [static get CODES()] *)

Module CODES.
Definition BEL : Z := 0x07.
Definition BS : Z := 0x08.
Definition HT : Z := 0x09.
Definition LF : Z := 0x0A.
Definition VT : Z := 0x0B.
Definition FF : Z := 0x0C.
Definition CR : Z := 0x0D.
Definition SO : Z := 0x0E.
Definition SI : Z := 0x0F.
Definition CON : Z := 0x11.
Definition COFF : Z := 0x14.
Definition FUNCTION_KEY_PREFIX : Z := 0x13.
Definition KEY_CONNEXION_FIN : Z := 0x59.
Definition KEY_SOMMAIRE : Z := 0x46.
Definition KEY_ANNULATION : Z := 0x45.
Definition KEY_RETOUR : Z := 0x42.
Definition KEY_REPETITION : Z := 0x43.
Definition KEY_GUIDE : Z := 0x44.
Definition KEY_CORRECTION : Z := 0x47.
Definition KEY_SUITE : Z := 0x48.
Definition KEY_ENVOI : Z := 0x41.
Definition ESC : Z := 0x1B.
Definition HOME : Z := 0x1E.
Definition US : Z := 0x1F.
Definition WHITE : Z := 0x47.
Definition GRAY_VERY_LIGHT : Z := 0x43.
Definition GRAY_LIGHT : Z := 0x46.
Definition GRAY_MEDIUM_LIGHT : Z := 0x42.
Definition GRAY_MEDIUM : Z := 0x45.
Definition GRAY_MEDIUM_DARK : Z := 0x41.
Definition GRAY_DARK : Z := 0x44.
Definition BLACK : Z := 0x40.
Definition WHITE_BACKGROUND : Z := 0x57.
Definition BLACK_BACKGROUND : Z := 0x50.
Definition SIZE_NORMAL : Z := 0x4C.
Definition SIZE_DOUBLE_HEIGHT : Z := 0x4D.
Definition SIZE_DOUBLE_WIDTH : Z := 0x4E.
Definition SIZE_DOUBLE : Z := 0x4F.
Definition BLINK : Z := 0x48.
Definition STEADY : Z := 0x49.
Definition PRO1 : Z := 0x39.
Definition PRO2 : Z := 0x3A.
Definition PRO3 : Z := 0x3B.
Definition PROG_VITESSE : Z := 0x6B.
Definition STATUS_VITESSE : Z := 0x75.
Definition AIGUILLAGE_OFF : Z := 0x60.
Definition AIGUILLAGE_ON : Z := 0x61.
Definition AIGUILLAGE_FROM : Z := 0x63.
Definition ECRAN_RECEPTEUR : Z := 0x58.
Definition MODEM_EMETTEUR : Z := 0x52.
Definition SOH : Z := 0x01.
Definition EOT : Z := 0x04.
Definition REP : Z := 0x12.
Definition ACCENT_PREFIX : Z := 0x19.
Definition ENQROM : Z := 0x7B.
Definition CURSOR_OFFSET : Z := 0x40.
End CODES.

(** ** Buffers and characters *)

(** [Buffer.from(array)] keeps the low eight bits of every entry. *)
Definition toUint8 (v : Z) : Z := v mod 256.

Definition Buffer_from (entries : list Z) : list Z := map toUint8 entries.

(** A character is the string that [for (const char of text)] yields: one
    code point.  [char.charCodeAt(0)] is its first UTF-16 code unit, the
    code point itself in the basic plane and the high surrogate above. *)
Definition charCodeAt0 (char : Z) : Z :=
  if char <? 0x10000 then char else 0xD800 + (char - 0x10000) / 0x400.

Definition isCodePoint (char : Z) : Prop := 0 <= char <= 0x10FFFF.

(** ** Character codec: [static charToMinitel(char)] *)

(** The entries of [accentMap], in the order of the source, keyed by the
    code point of the one-character key. *)
Definition accentEntries : list (Z * list Z) :=
  [ (0xE0, [0x19; 0x41; 0x61]); (0xE8, [0x19; 0x41; 0x65]);
    (0xF9, [0x19; 0x41; 0x75]); (0xC0, [0x19; 0x41; 0x41]);
    (0xC8, [0x19; 0x41; 0x45]); (0xD9, [0x19; 0x41; 0x55]);
    (0xE9, [0x19; 0x42; 0x65]); (0xC9, [0x19; 0x42; 0x45]);
    (0xE2, [0x19; 0x43; 0x61]); (0xEA, [0x19; 0x43; 0x65]);
    (0xEE, [0x19; 0x43; 0x69]); (0xF4, [0x19; 0x43; 0x6F]);
    (0xFB, [0x19; 0x43; 0x75]); (0xC2, [0x19; 0x43; 0x41]);
    (0xCA, [0x19; 0x43; 0x45]); (0xCE, [0x19; 0x43; 0x49]);
    (0xD4, [0x19; 0x43; 0x4F]); (0xDB, [0x19; 0x43; 0x55]);
    (0xEB, [0x19; 0x48; 0x65]); (0xEF, [0x19; 0x48; 0x69]);
    (0xFC, [0x19; 0x48; 0x75]); (0xCB, [0x19; 0x48; 0x45]);
    (0xCF, [0x19; 0x48; 0x49]); (0xDC, [0x19; 0x48; 0x55]);
    (0xE7, [0x19; 0x4B; 0x63]); (0xC7, [0x19; 0x4B; 0x43]);
    (0x153, [0x19; 0x7A]); (0x152, [0x19; 0x6A]);
    (0xA3, [0x19; 0x23]); (0xA7, [0x19; 0x27]);
    (0x2190, [0x19; 0x2C]); (0x2191, [0x19; 0x2D]);
    (0x2192, [0x19; 0x2E]); (0x2193, [0x19; 0x2F]);
    (0xB0, [0x19; 0x30]); (0xB1, [0x19; 0x31]);
    (0xBC, [0x19; 0x3C]); (0xBD, [0x19; 0x3D]);
    (0xBE, [0x19; 0x3E]); (0x3B2, [0x19; 0x7B]);
    (0x2019, [0x27]); (0x2018, [0x27]);
    (0x201D, [0x22]); (0x201C, [0x22]);
    (0xAB, [0x22]); (0xBB, [0x22]);
    (0x2039, [0x27]); (0x203A, [0x27]) ].

Definition accentMap : gmap Z (list Z) := list_to_map accentEntries.

(** Every key of [accentMap] is a one-character string, and no property
    inherited from [Object.prototype] has a one-character name, so
    [accentMap[char]] is the lookup among the entries above; an array is
    truthy whatever it holds. *)
Definition charToMinitel (char : Z) : list Z :=
  match accentMap !! char with
  | Some bytes => bytes
  | None =>
      let code := charCodeAt0 char in
      if code <=? 127 then [code] else [0x3F]
  end.

(** ** [static parseFunctionKey(data)]: [None] is [null] *)

Definition parseFunctionKey (data : list Z) : option Z :=
  if (Z.of_nat (length data) =? 2) && bool_decide (data !! 0%nat = Some CODES.FUNCTION_KEY_PREFIX)
  then data !! 1%nat
  else None.

(** ** Transport

    A [SerialPort] is an external collaborator.  Its behaviour is an
    oracle: for the n-th port the driver constructs, at a given speed, a
    [Session] tells whether the open callback receives an error, which of
    the writes fail, and which input events the framer flushes while the
    driver awaits the identification reply on that port. *)

Record Session := {
  openError : option string;
  writeError : nat -> option string;
  heard : list (list Z)
}.

Record SerialPort := {
  baudRate : Z;
  isOpen : bool;
  session : nat;
  written : nat
}.

(** ** Device descriptor: [static parseDeviceIdentification(data)]

    The one-character strings [constructeur], [type] and [version] are
    kept as their character codes, and [rawResponse] as the bytes that
    the source prints in hexadecimal. *)

Record DeviceInfo := {
  name : string;
  maxSpeed : Z;
  constructeur : Z;
  type : Z;
  version : Z;
  rawResponse : list Z
}.

(** [typeLookup], keyed by the two characters [constructeur + type]. *)
Definition typeEntries : list (Z * Z * (string * Z)) :=
  [ (0x43, 0x62, ("Minitel 1 (Télic)", 1200));
    (0x43, 0x63, ("Minitel 1 (Télic AZERTY)", 1200));
    (0x43, 0x72, ("Minitel 1 (Télic/Matra)", 1200));
    (0x42, 0x63, ("Minitel 1 (Radiotechnique)", 1200));
    (0x42, 0x72, ("Minitel 1 (RTIC)", 1200));
    (0x42, 0x73, ("Minitel 1 Couleur (RTIC)", 1200));
    (0x43, 0x75, ("Minitel 1B (Télic/Matra)", 4800));
    (0x42, 0x75, ("Minitel 1B (RTIC)", 4800));
    (0x43, 0x64, ("Minitel 10 (Télic)", 4800));
    (0x43, 0x66, ("Minitel 10 (Télix)", 4800));
    (0x43, 0x77, ("Minitel 10B (Télix)", 4800));
    (0x43, 0x76, ("Minitel 2 (Télic)", 9600));
    (0x42, 0x76, ("Minitel 2 (Philips)", 9600));
    (0x43, 0x7A, ("Minitel 12 (Télic)", 4800));
    (0x42, 0x7A, ("Minitel 12 (Philips)", 9600));
    (0x41, 0x79, ("Minitel 5 (Matra)", 4800));
    (0x43, 0x70, ("Magis Club", 9600)) ].

Definition typeLookup : gmap (Z * Z) (string * Z) := list_to_map typeEntries.

Definition fromCharCode (code : Z) : string :=
  String (ascii_of_nat (Z.to_nat code)) EmptyString.

Definition parseDeviceIdentification (data : list Z) : option DeviceInfo :=
  if Z.of_nat (length data) <? 5 then None
  else if negb (bool_decide (data !! 0%nat = Some CODES.SOH)) then None
  else
    let constructeur := default 0 (data !! 1%nat) in
    let type := default 0 (data !! 2%nat) in
    let version := default 0 (data !! 3%nat) in
    match typeLookup !! (constructeur, type) with
    | Some (name, maxSpeed) =>
        Some {| name := name; maxSpeed := maxSpeed;
                constructeur := constructeur; type := type;
                version := version; rawResponse := data |}
    | None =>
        let isBistandard := (type =? 0x75) || (type =? 0x77) in
        Some {| name := "Minitel " +:+ fromCharCode constructeur +:+
                        fromCharCode type +:+ fromCharCode version;
                maxSpeed := if isBistandard then 4800 else 1200;
                constructeur := constructeur; type := type;
                version := version; rawResponse := data |}
    end.

(** ** The driver object, link side

    The fields of the object are split in two records: the ones the
    connection and the commands use are here, the ones the input path
    uses are in [Inbox] below.  [options.baudRate] is ['auto'] or a
    number.  [opened] counts the ports constructed so far and [journal]
    records, oldest first, what the driver did to the outside world. *)

Inductive BaudSetting := auto | fixed (rate : Z).

Inductive action :=
| Opened (baud : Z)
| OpenFailed (baud : Z)
| Closed
| Sent (data : list Z)
| Slept (ms : Z)
| Awaited (timeoutMs : Z)
| LogConnected (info : DeviceInfo) (baud : Z)
| LogSpeedRaised (initialSpeed newSpeed : Z)
| LogUpgradeFailed (message : string)
| LogPortError (message : string).

Record Minitel := {
  options_baudRate : BaudSetting;
  options_autoUpgradeSpeed : bool;
  port : option SerialPort;
  isConnected : bool;
  deviceInfo : option DeviceInfo;
  currentBaudRate : option Z;
  opened : nat;
  journal : list action
}.

(** [new Minitel(portPath, options)] *)
Definition new_Minitel (baud : BaudSetting) (autoUpgradeSpeed : bool) : Minitel :=
  {| options_baudRate := baud; options_autoUpgradeSpeed := autoUpgradeSpeed;
     port := None; isConnected := false; deviceInfo := None;
     currentBaudRate := None; opened := 0; journal := [] |}.

Definition set_port (p : option SerialPort) (m : Minitel) : Minitel :=
  {| options_baudRate := options_baudRate m;
     options_autoUpgradeSpeed := options_autoUpgradeSpeed m;
     port := p; isConnected := isConnected m; deviceInfo := deviceInfo m;
     currentBaudRate := currentBaudRate m; opened := opened m;
     journal := journal m |}.

Definition set_isConnected (b : bool) (m : Minitel) : Minitel :=
  {| options_baudRate := options_baudRate m;
     options_autoUpgradeSpeed := options_autoUpgradeSpeed m;
     port := port m; isConnected := b; deviceInfo := deviceInfo m;
     currentBaudRate := currentBaudRate m; opened := opened m;
     journal := journal m |}.

Definition set_deviceInfo (i : option DeviceInfo) (m : Minitel) : Minitel :=
  {| options_baudRate := options_baudRate m;
     options_autoUpgradeSpeed := options_autoUpgradeSpeed m;
     port := port m; isConnected := isConnected m; deviceInfo := i;
     currentBaudRate := currentBaudRate m; opened := opened m;
     journal := journal m |}.

Definition set_currentBaudRate (r : option Z) (m : Minitel) : Minitel :=
  {| options_baudRate := options_baudRate m;
     options_autoUpgradeSpeed := options_autoUpgradeSpeed m;
     port := port m; isConnected := isConnected m; deviceInfo := deviceInfo m;
     currentBaudRate := r; opened := opened m; journal := journal m |}.

Definition set_opened (n : nat) (m : Minitel) : Minitel :=
  {| options_baudRate := options_baudRate m;
     options_autoUpgradeSpeed := options_autoUpgradeSpeed m;
     port := port m; isConnected := isConnected m; deviceInfo := deviceInfo m;
     currentBaudRate := currentBaudRate m; opened := n; journal := journal m |}.

Definition record (a : action) (m : Minitel) : Minitel :=
  {| options_baudRate := options_baudRate m;
     options_autoUpgradeSpeed := options_autoUpgradeSpeed m;
     port := port m; isConnected := isConnected m; deviceInfo := deviceInfo m;
     currentBaudRate := currentBaudRate m; opened := opened m;
     journal := journal m ++ [a] |}.

(** ** Async methods: a state and exception monad

    An [async] method either returns or throws (rejects); what it did to
    the object before throwing stays done.  A method that awaits a
    promise nobody settles stays [Pending]: it neither returns nor
    throws, and nothing after the [await] runs, no [catch] either. *)

Inductive result (A : Type) :=
| Return (a : A)
| Throw (message : string)
| Pending.
Arguments Return {A} a.
Arguments Throw {A} message.
Arguments Pending {A}.

Definition M (A : Type) : Type := Minitel -> result A * Minitel.

Definition ret {A} (a : A) : M A := fun m => (Return a, m).

Definition throw {A} (message : string) : M A := fun m => (Throw message, m).

Definition bind {A B} (c : M A) (k : A -> M B) : M B :=
  fun m =>
    match c m with
    | (Return a, m') => k a m'
    | (Throw e, m') => (Throw e, m')
    | (Pending, m') => (Pending, m')
    end.

Definition try_catch {A} (c : M A) (handler : string -> M A) : M A :=
  fun m =>
    match c m with
    | (Return a, m') => (Return a, m')
    | (Throw e, m') => handler e m'
    | (Pending, m') => (Pending, m')
    end.

Definition act (f : Minitel -> Minitel) : M unit := fun m => (Return tt, f m).

Notation "x <- c ;; k" := (bind c (fun x => k))
  (at level 100, c at next level, right associativity).
Notation "c ;;; k" := (bind c (fun _ => k))
  (at level 100, right associativity).

(** ** The driver object, input side, and the event loop it runs on

    [onData] holds either the application's callback or the closure that
    the second [_waitForResponse] installs; [collector w] is the closure
    of the w-th call, whose captured variables live in [waits].
    [delivered] lists the buffers the application's callback was called
    with.  Timers, promises and the clock belong to the JS runtime. *)

Inductive handler := application | collector (w : nat).

Inductive outcome := resolved (data : list Z) | rejected (message : string).

(** One element of [expectedReplies]: [{ id, predicate, resolve, timeout }]. *)
Record Expected := {
  reply_id : nat;
  reply_predicate : list Z -> bool;
  reply_resolve : nat;
  reply_timeout : nat
}.

(** The variables captured by one call of the second [_waitForResponse]. *)
Record Wait := {
  wait_predicate : list Z -> bool;
  responseData : list Z;
  timer : nat;
  originalOnData : handler;
  wait_promise : nat
}.

Inductive task :=
| flushBuffer
| expectedTimeout (id : nat) (promise : nat)
| collectorTimeout (w : nat).

Record Timer := { handle : nat; due : Z; job : task }.

Record Inbox := {
  inputBuffer : list Z;
  bufferTimeout : option nat;
  expectedReplies : list Expected;
  nextReplyId : nat;
  onData : handler;
  now : Z;
  timers : list Timer;
  nextHandle : nat;
  waits : list Wait;
  promises : list (option outcome);
  delivered : list (list Z)
}.

Definition new_Inbox : Inbox :=
  {| inputBuffer := []; bufferTimeout := None; expectedReplies := [];
     nextReplyId := 0; onData := application; now := 0; timers := [];
     nextHandle := 0; waits := []; promises := []; delivered := [] |}.

Definition set_inputBuffer (b : list Z) (s : Inbox) : Inbox :=
  {| inputBuffer := b; bufferTimeout := bufferTimeout s;
     expectedReplies := expectedReplies s; nextReplyId := nextReplyId s;
     onData := onData s; now := now s; timers := timers s;
     nextHandle := nextHandle s; waits := waits s; promises := promises s;
     delivered := delivered s |}.

Definition set_bufferTimeout (h : option nat) (s : Inbox) : Inbox :=
  {| inputBuffer := inputBuffer s; bufferTimeout := h;
     expectedReplies := expectedReplies s; nextReplyId := nextReplyId s;
     onData := onData s; now := now s; timers := timers s;
     nextHandle := nextHandle s; waits := waits s; promises := promises s;
     delivered := delivered s |}.

Definition set_expectedReplies (l : list Expected) (s : Inbox) : Inbox :=
  {| inputBuffer := inputBuffer s; bufferTimeout := bufferTimeout s;
     expectedReplies := l; nextReplyId := nextReplyId s;
     onData := onData s; now := now s; timers := timers s;
     nextHandle := nextHandle s; waits := waits s; promises := promises s;
     delivered := delivered s |}.

Definition set_nextReplyId (n : nat) (s : Inbox) : Inbox :=
  {| inputBuffer := inputBuffer s; bufferTimeout := bufferTimeout s;
     expectedReplies := expectedReplies s; nextReplyId := n;
     onData := onData s; now := now s; timers := timers s;
     nextHandle := nextHandle s; waits := waits s; promises := promises s;
     delivered := delivered s |}.

Definition set_onData (h : handler) (s : Inbox) : Inbox :=
  {| inputBuffer := inputBuffer s; bufferTimeout := bufferTimeout s;
     expectedReplies := expectedReplies s; nextReplyId := nextReplyId s;
     onData := h; now := now s; timers := timers s;
     nextHandle := nextHandle s; waits := waits s; promises := promises s;
     delivered := delivered s |}.

Definition set_now (t : Z) (s : Inbox) : Inbox :=
  {| inputBuffer := inputBuffer s; bufferTimeout := bufferTimeout s;
     expectedReplies := expectedReplies s; nextReplyId := nextReplyId s;
     onData := onData s; now := t; timers := timers s;
     nextHandle := nextHandle s; waits := waits s; promises := promises s;
     delivered := delivered s |}.

Definition set_timers (l : list Timer) (s : Inbox) : Inbox :=
  {| inputBuffer := inputBuffer s; bufferTimeout := bufferTimeout s;
     expectedReplies := expectedReplies s; nextReplyId := nextReplyId s;
     onData := onData s; now := now s; timers := l;
     nextHandle := nextHandle s; waits := waits s; promises := promises s;
     delivered := delivered s |}.

Definition set_nextHandle (n : nat) (s : Inbox) : Inbox :=
  {| inputBuffer := inputBuffer s; bufferTimeout := bufferTimeout s;
     expectedReplies := expectedReplies s; nextReplyId := nextReplyId s;
     onData := onData s; now := now s; timers := timers s;
     nextHandle := n; waits := waits s; promises := promises s;
     delivered := delivered s |}.

Definition set_waits (l : list Wait) (s : Inbox) : Inbox :=
  {| inputBuffer := inputBuffer s; bufferTimeout := bufferTimeout s;
     expectedReplies := expectedReplies s; nextReplyId := nextReplyId s;
     onData := onData s; now := now s; timers := timers s;
     nextHandle := nextHandle s; waits := l; promises := promises s;
     delivered := delivered s |}.

Definition set_promises (l : list (option outcome)) (s : Inbox) : Inbox :=
  {| inputBuffer := inputBuffer s; bufferTimeout := bufferTimeout s;
     expectedReplies := expectedReplies s; nextReplyId := nextReplyId s;
     onData := onData s; now := now s; timers := timers s;
     nextHandle := nextHandle s; waits := waits s; promises := l;
     delivered := delivered s |}.

Definition set_delivered (l : list (list Z)) (s : Inbox) : Inbox :=
  {| inputBuffer := inputBuffer s; bufferTimeout := bufferTimeout s;
     expectedReplies := expectedReplies s; nextReplyId := nextReplyId s;
     onData := onData s; now := now s; timers := timers s;
     nextHandle := nextHandle s; waits := waits s; promises := promises s;
     delivered := l |}.

(** *** Runtime primitives *)

(** [setTimeout(job, delay)]: returns the handle. *)
Definition setTimeout (j : task) (delay : Z) (s : Inbox) : nat * Inbox :=
  let h := nextHandle s in
  (h, set_nextHandle (S h)
        (set_timers (timers s ++ [{| handle := h; due := now s + delay; job := j |}]) s)).

(** [clearTimeout(h)]: a timer that fired or was cleared is not there. *)
Definition clearTimeout (h : nat) (s : Inbox) : Inbox :=
  set_timers (List.filter (fun x => negb (Nat.eqb (handle x) h)) (timers s)) s.

(** [new Promise(...)]: a fresh pending promise. *)
Definition newPromise (s : Inbox) : nat * Inbox :=
  (length (promises s), set_promises (promises s ++ [None]) s).

(** [resolve(v)] and [reject(e)]: only the first call settles. *)
Definition settle (p : nat) (o : outcome) (s : Inbox) : Inbox :=
  match promises s !! p with
  | Some None => set_promises (<[p := Some o]> (promises s)) s
  | _ => s
  end.

(** *** [_waitForResponse], first definition in the class body
    (lines 601-614; shadowed by the second one below) *)

Definition _waitForResponse_first (predicate : list Z -> bool) (timeoutMs : Z)
    (s : Inbox) : nat * Inbox :=
  let '(p, s) := newPromise s in
  let id := nextReplyId s in
  let '(timeout, s) := setTimeout (expectedTimeout id p) timeoutMs s in
  let s := set_nextReplyId (S id) s in
  (p, set_expectedReplies
        (expectedReplies s ++
           [{| reply_id := id; reply_predicate := predicate;
               reply_resolve := p; reply_timeout := timeout |}]) s).

(** Its timeout callback: [findIndex] by id, [splice], [reject]. *)
Fixpoint findIndex (id : nat) (l : list Expected) : option nat :=
  match l with
  | [] => None
  | r :: l' => if Nat.eqb (reply_id r) id then Some O else S <$> findIndex id l'
  end.

Definition on_expectedTimeout (id p : nat) (s : Inbox) : Inbox :=
  let s := match findIndex id (expectedReplies s) with
           | Some index => set_expectedReplies (delete index (expectedReplies s)) s
           | None => s
           end in
  settle p (rejected "Timeout waiting for Minitel response") s.

(** *** [_waitForResponse], second definition in the class body
    (lines 846-872): the one a call reaches *)

Definition _waitForResponse (predicate : list Z -> bool) (timeout : Z)
    (s : Inbox) : nat * Inbox :=
  let '(p, s) := newPromise s in
  let w := length (waits s) in
  let originalOnData := onData s in
  let s := set_onData (collector w) s in
  let '(timer, s) := setTimeout (collectorTimeout w) timeout s in
  (p, set_waits
        (waits s ++
           [{| wait_predicate := predicate; responseData := [];
               timer := timer; originalOnData := originalOnData;
               wait_promise := p |}]) s).

(** [cleanup()] of the w-th call. *)
Definition cleanup (c : Wait) (s : Inbox) : Inbox :=
  set_onData (originalOnData c) (clearTimeout (timer c) s).

(** The closure installed as [this.onData] by the w-th call. *)
Definition on_collector (w : nat) (data : list Z) (s : Inbox) : Inbox :=
  match waits s !! w with
  | Some c =>
      let buffer := responseData c ++ data in
      let c' := {| wait_predicate := wait_predicate c; responseData := buffer;
                   timer := timer c; originalOnData := originalOnData c;
                   wait_promise := wait_promise c |} in
      let s := set_waits (<[w := c']> (waits s)) s in
      if wait_predicate c buffer
      then settle (wait_promise c) (resolved buffer) (cleanup c s)
      else s
  | None => s
  end.

Definition on_collectorTimeout (w : nat) (s : Inbox) : Inbox :=
  match waits s !! w with
  | Some c =>
      settle (wait_promise c)
        (rejected "Timeout en attente de réponse du Minitel") (cleanup c s)
  | None => s
  end.

(** [this.onData(data)] *)
Definition call_onData (data : list Z) (s : Inbox) : Inbox :=
  match onData s with
  | application => set_delivered (delivered s ++ [data]) s
  | collector w => on_collector w data s
  end.

(** *** [handleInputData(data)] and its inactivity timer *)

(** The [for] loop over [expectedReplies]: the first index whose
    predicate accepts the buffer. *)
Fixpoint firstExpected (bufferedData : list Z) (l : list Expected)
    : option (nat * Expected) :=
  match l with
  | [] => None
  | expected :: l' =>
      if reply_predicate expected bufferedData then Some (O, expected)
      else prod_map S (fun e => e) <$> firstExpected bufferedData l'
  end.

(** The callback given to [setTimeout(..., 50)]. *)
Definition on_flush (s : Inbox) : Inbox :=
  match inputBuffer s with
  | [] => s
  | _ :: _ =>
      let bufferedData := inputBuffer s in
      let s := set_inputBuffer [] s in
      match firstExpected bufferedData (expectedReplies s) with
      | Some (i, expected) =>
          let s := clearTimeout (reply_timeout expected) s in
          let s := set_expectedReplies (delete i (expectedReplies s)) s in
          settle (reply_resolve expected) (resolved bufferedData) s
      | None => call_onData bufferedData s
      end
  end.

Definition handleInputData (data : list Z) (s : Inbox) : Inbox :=
  let s := set_inputBuffer (inputBuffer s ++ data) s in
  let s := match bufferTimeout s with
           | Some h => clearTimeout h s
           | None => s
           end in
  let '(h, s) := setTimeout flushBuffer 50 s in
  set_bufferTimeout (Some h) s.

(** *** The event loop *)

Definition fire (x : Timer) (s : Inbox) : Inbox :=
  match job x with
  | flushBuffer => on_flush s
  | expectedTimeout id p => on_expectedTimeout id p s
  | collectorTimeout w => on_collectorTimeout w s
  end.

(** The timer to run next: least due time, oldest first among equals. *)
Fixpoint earliest (l : list Timer) : option Timer :=
  match l with
  | [] => None
  | x :: l' =>
      match earliest l' with
      | Some y => if due y <? due x then Some y else Some x
      | None => Some x
      end
  end.

(** Run the timers that are due at time [t] or before.  No callback of
    the driver sets a timer, so the number of pending timers is fuel
    enough. *)
Fixpoint run (fuel : nat) (t : Z) (s : Inbox) : Inbox :=
  match fuel with
  | O => s
  | S fuel' =>
      match earliest (timers s) with
      | Some x =>
          if due x <=? t
          then run fuel' t
                 (fire x (set_now (Z.max (now s) (due x)) (clearTimeout (handle x) s)))
          else s
      | None => s
      end
  end.

(** Let time pass until [t]. *)
Definition advance (t : Z) (s : Inbox) : Inbox :=
  let s := run (length (timers s)) t s in
  set_now (Z.max (now s) t) s.

(** The port's ['data'] event at time [t]. *)
Definition receive (t : Z) (data : list Z) (s : Inbox) : Inbox :=
  handleInputData data (advance t s).

(** What a wait registered by the second [_waitForResponse] makes of the
    events it is handed, one after the other, before its timer fires:
    the closure appends each to [responseData] and tests the whole. *)
Fixpoint collect (predicate : list Z -> bool) (responseData : list Z)
    (events : list (list Z)) : option (list Z) :=
  match events with
  | [] => None
  | data :: events' =>
      let buffer := responseData ++ data in
      if predicate buffer then Some buffer
      else collect predicate buffer events'
  end.

(** ** Names of display attributes: the table of [setFormat] *)

(** [formatCodes], in the order of the source ([Object.keys] keeps it). *)
Definition formatEntries : list (string * Z) :=
  [ ("white", CODES.WHITE); ("very-light", CODES.GRAY_VERY_LIGHT);
    ("light", CODES.GRAY_LIGHT); ("medium-light", CODES.GRAY_MEDIUM_LIGHT);
    ("medium", CODES.GRAY_MEDIUM); ("medium-dark", CODES.GRAY_MEDIUM_DARK);
    ("dark", CODES.GRAY_DARK); ("black", CODES.BLACK);
    ("white-background", CODES.WHITE_BACKGROUND);
    ("black-background", CODES.BLACK_BACKGROUND);
    ("normal", CODES.SIZE_NORMAL); ("double-height", CODES.SIZE_DOUBLE_HEIGHT);
    ("double-width", CODES.SIZE_DOUBLE_WIDTH); ("double", CODES.SIZE_DOUBLE);
    ("blink", CODES.BLINK); ("steady", CODES.STEADY) ].

Definition formatCodes : gmap string Z := list_to_map formatEntries.

(** A JS string is modelled by the string of its code units, for the
    strings whose code units fit in eight bits; [toLowerCase] on those
    moves A-Z and the accented capitals of Latin-1 to their small
    letters. *)
Definition toLowerCase_unit (a : ascii) : ascii :=
  let n := nat_of_ascii a in
  if (Nat.leb 65 n && Nat.leb n 90)
     || (Nat.leb 192 n && Nat.leb n 222 && negb (Nat.eqb n 215))
  then ascii_of_nat (n + 32) else a.

Fixpoint toLowerCase (s : string) : string :=
  match s with
  | EmptyString => EmptyString
  | String a s' => String (toLowerCase_unit a) (toLowerCase s')
  end.

(** [formatCodes] is an object literal: a name it does not own is looked
    up in [Object.prototype]. *)
Definition objectPrototypeNames : list string :=
  [ "constructor"; "__defineGetter__"; "__defineSetter__"; "hasOwnProperty";
    "__lookupGetter__"; "__lookupSetter__"; "isPrototypeOf";
    "propertyIsEnumerable"; "toString"; "valueOf"; "__proto__";
    "toLocaleString" ].

Inductive jsvalue := number (n : Z) | inherited.

Definition formatCodes_get (key : string) : option jsvalue :=
  match formatCodes !! key with
  | Some n => Some (number n)
  | None => if bool_decide (key ∈ objectPrototypeNames) then Some inherited else None
  end.

(** The entry [Buffer.from] stores for a value: a function or an object
    converts to NaN, stored as 0. *)
Definition jsvalue_entry (v : jsvalue) : Z :=
  match v with number n => n | inherited => 0 end.

Fixpoint join (sep : string) (l : list string) : string :=
  match l with
  | [] => ""
  | [x] => x
  | x :: l' => x +:+ sep +:+ join sep l'
  end.

Inductive FormatArg := named (code : string) | numeric (code : Z).

Definition invalidFormat (code : string) : string :=
  "Format invalide: " +:+ code +:+ ". Valeurs possibles: " +:+
  join ", " (formatEntries.*1).

Definition invalidCursor : string :=
  "Position curseur invalide (ligne: 0-24, colonne: 1-40)".

Definition notConnected : string := "Non connecté au Minitel".

Definition noMinitelFound : string :=
  "Impossible de détecter le Minitel sur aucune vitesse".

(** [speedCodes] of [_upgradeSpeed] *)
Definition speedCodes : gmap Z Z :=
  list_to_map [ (300, 0x52); (1200, 0x64); (4800, 0x76); (9600, 0x7F) ].

(** The predicate [_queryDevice] waits on. *)
Definition identificationReply (data : list Z) : bool :=
  (5 <=? Z.of_nat (length data)) && bool_decide (data !! 0%nat = Some CODES.SOH).

(** The predicate [disableLocalEcho] waits on. *)
Definition echoAcknowledgment (data : list Z) : bool :=
  (5 <=? Z.of_nat (length data))
  && bool_decide (data !! 0%nat = Some CODES.ESC)
  && bool_decide (data !! 1%nat = Some CODES.PRO3)
  && bool_decide (data !! 2%nat = Some CODES.AIGUILLAGE_FROM).

(** ** Methods of the link side *)

Section Link.

(** The n-th port constructed, at a given speed, behaves as
    [terminal n speed]. *)
Variable terminal : nat -> Z -> Session.

(** [new SerialPort(portOptions, callback)]: the error given to the
    callback, if any. *)
Definition newSerialPort (baud : Z) : M (option string) :=
  fun m =>
    let n := opened m in
    let e := openError (terminal n baud) in
    let p := {| baudRate := baud; isOpen := bool_decide (e = None);
                session := n; written := 0 |} in
    (Return e,
     record (match e with None => Opened baud | Some _ => OpenFailed baud end)
       (set_opened (S n) (set_port (Some p) m))).

(** [this.port.write(data, callback)], awaited through the callback:
    the error given to the callback, if any; the bytes are on the line
    when there is none.  A port that is not open keeps the write for the
    day it opens and does not call back: the promise stays pending. *)
Definition port_write (data : list Z) : M (option string) :=
  fun m =>
    match port m with
    | None => (Throw "TypeError: Cannot read properties of null", m)
    | Some p =>
        if isOpen p then
          let e := writeError (terminal (session p) (baudRate p)) (written p) in
          let p' := {| baudRate := baudRate p; isOpen := isOpen p;
                       session := session p; written := S (written p) |} in
          let m := set_port (Some p') m in
          (Return e, match e with None => record (Sent data) m | Some _ => m end)
        else (Pending, m)
    end.

(** [this.port.write(data)] with no callback: the method goes on at
    once; an error of the write reaches the ['error'] listener, which
    logs it; a port that is not open keeps the write and says nothing. *)
Definition port_write_unawaited (data : list Z) : M unit :=
  fun m =>
    match port m with
    | None => (Throw "TypeError: Cannot read properties of null", m)
    | Some p =>
        if isOpen p then
          (e <- port_write data ;;
           match e with
           | Some message => act (record (LogPortError message))
           | None => ret tt
           end) m
        else (Return tt, m)
    end.

Definition write (data : list Z) : M unit :=
  fun m =>
    if negb (isConnected m) then (Throw notConnected, m)
    else (e <- port_write data ;;
          match e with
          | Some message => throw ("Erreur d'écriture: " +:+ message)
          | None => ret tt
          end) m.

Definition _sleep (ms : Z) : M unit := act (record (Slept ms)).

Definition _closePort : M unit :=
  fun m =>
    match port m with
    | Some p =>
        if isOpen p
        then (Return tt,
              record Closed
                (set_port (Some {| baudRate := baudRate p; isOpen := false;
                                   session := session p; written := written p |}) m))
        else (Return tt, m)
    | None => (Return tt, m)
    end.

Definition disconnect : M unit :=
  fun m =>
    match port m with
    | Some p =>
        if isOpen p
        then (Return tt,
              set_isConnected false
                (record Closed
                   (set_port (Some {| baudRate := baudRate p; isOpen := false;
                                      session := session p; written := written p |}) m)))
        else (Return tt, m)
    | None => (Return tt, m)
    end.

(** *** Command encoder *)

Definition clear : M unit := write (Buffer_from [CODES.FF]).

Definition home : M unit := write (Buffer_from [CODES.HOME]).

Definition beep : M unit := write (Buffer_from [CODES.BEL]).

Definition newLine : M unit := write (Buffer_from [CODES.CR; CODES.LF]).

Definition hideCursor : M unit := write (Buffer_from [CODES.COFF]).

Definition showCursor : M unit := write (Buffer_from [CODES.CON]).

Definition moveCursor (row col : Z) : M unit :=
  if (row <? 0) || (row >? 24) || (col <? 1) || (col >? 40)
  then throw invalidCursor
  else write (Buffer_from [CODES.US; CODES.CURSOR_OFFSET + row;
                           CODES.CURSOR_OFFSET + col]).

Definition setFormat (code : FormatArg) : M unit :=
  match code with
  | named code =>
      match formatCodes_get (toLowerCase code) with
      | None => throw (invalidFormat code)
      | Some numericCode =>
          write (Buffer_from [CODES.ESC; jsvalue_entry numericCode])
      end
  | numeric code => write (Buffer_from [CODES.ESC; code])
  end.

Definition writeText (text : list Z) : M unit :=
  write (Buffer_from (concat (map charToMinitel text))).

Definition printAt (row col : Z) (text : list Z) : M unit :=
  moveCursor row col ;;; writeText text.

(** [char.repeat(count)] for a whole count *)
Definition repeat_char (char : Z) (count : Z) : list Z :=
  replicate (Z.to_nat count) char.

(** [writeRepeated(char, count)] calls itself on [count - 64]; the
    recursion is on a bound of the number of calls. *)
Fixpoint writeRepeated_rec (bound : nat) (char : Z) (count : Z) : M unit :=
  if count <=? 0 then ret tt
  else if count <=? 3 then writeText (repeat_char char count)
  else if count <=? 64 then
    write (Buffer_from [charCodeAt0 char; CODES.REP; count - 1 + 64])
  else
    match bound with
    | O => ret tt
    | S bound' =>
        writeRepeated_rec bound' char 64 ;;;
        writeRepeated_rec bound' char (count - 64)
    end.

Definition writeRepeated (char : Z) (count : Z) : M unit :=
  writeRepeated_rec (Z.to_nat count) char count.

(** *** Negotiation *)

Definition _queryDevice (timeout : Z) : M (option DeviceInfo) :=
  port_write_unawaited (Buffer_from [CODES.ESC; CODES.PRO1; CODES.ENQROM]) ;;;
  act (record (Awaited timeout)) ;;;
  fun m =>
    match port m with
    | Some p =>
        match collect identificationReply []
                (heard (terminal (session p) (baudRate p))) with
        | Some response => (Return (parseDeviceIdentification response), m)
        | None => (Return None, m)
        end
    | None => (Return None, m)
    end.

Definition _upgradeSpeed (newSpeed : Z) : M unit :=
  match speedCodes !! newSpeed with
  | None => throw ("Vitesse non supportée: " +:+ pretty newSpeed)
  | Some speedCode =>
      write (Buffer_from [CODES.ESC; CODES.PRO2; CODES.PROG_VITESSE; speedCode]) ;;;
      _sleep 300 ;;;
      _closePort ;;;
      act (set_currentBaudRate (Some newSpeed)) ;;;
      err <- newSerialPort newSpeed ;;
      match err with
      | Some message => throw ("Erreur de reconnexion: " +:+ message)
      | None => _sleep 200
      end
  end.

Definition speed (m : Minitel) : Z := default 0 (currentBaudRate m).

Definition _connectAtBaudRate (baudRate : Z) (isAutoDetect : bool) : M unit :=
  act (set_currentBaudRate (Some baudRate)) ;;;
  err <- newSerialPort baudRate ;;
  match err with
  | Some message => throw ("Erreur de connexion: " +:+ message)
  | None =>
      (if isAutoDetect then ret tt else _sleep 200) ;;;
      info <- _queryDevice (if isAutoDetect then 200 else 2000) ;;
      match info with
      | Some deviceInfo =>
          act (set_deviceInfo (Some deviceInfo)) ;;;
          act (set_isConnected true) ;;;
          (fun m => act (record (LogConnected deviceInfo (speed m))) m) ;;;
          clear ;;;
          fun m =>
            if options_autoUpgradeSpeed m && (speed m <? maxSpeed deviceInfo)
            then
              let initialSpeed := speed m in
              try_catch
                (_upgradeSpeed (maxSpeed deviceInfo) ;;;
                 fun m' => act (record (LogSpeedRaised initialSpeed (speed m'))) m')
                (fun message => act (record (LogUpgradeFailed message))) m
            else ret tt m
      | None => throw "Pas de réponse du Minitel"
      end
  end.

Definition baudRates : list Z := [1200; 4800; 9600].

(** The [for (const rate of baudRates)] loop of [connect]. *)
Fixpoint connect_loop (rates : list Z) : M unit :=
  match rates with
  | [] => throw noMinitelFound
  | rate :: rates' =>
      try_catch (_connectAtBaudRate rate true)
        (fun _ => _closePort ;;; connect_loop rates')
  end.

Definition connect : M unit :=
  fun m =>
    match options_baudRate m with
    | auto => connect_loop baudRates m
    | fixed baudRate => _connectAtBaudRate baudRate false m
    end.

End Link.

(** ** Notions the statements use *)

(** A connected driver whose open port accepts every further write. *)
Definition reliable (terminal : nat -> Z -> Session) (m : Minitel) : Prop :=
  isConnected m = true /\
  exists p, port m = Some p /\ isOpen p = true /\
    forall k, (written p <= k)%nat ->
      writeError (terminal (session p) (baudRate p)) k = None.

(** The object after one successful [write(data)]. *)
Definition sending (data : list Z) (m : Minitel) : Minitel :=
  record (Sent data)
    (set_port
       (match port m with
        | Some p => Some {| baudRate := baudRate p; isOpen := isOpen p;
                            session := session p; written := S (written p) |}
        | None => None
        end) m).

(** The buffers written to the line, oldest first. *)
Definition sent (m : Minitel) : list (list Z) :=
  omap (fun a => match a with Sent data => Some data | _ => None end) (journal m).

(** The repeat command as the specification words it: one block per
    chunk of at most 64 repetitions, a chunk of at most 3 written
    literally, a longer one as character, REP, count - 1 + 0x40. *)
Definition repeatBlock (char : Z) (count : Z) : list Z :=
  if count <=? 3
  then concat (replicate (Z.to_nat count) (charToMinitel char))
  else [toUint8 (charCodeAt0 char); 0x12; count - 1 + 0x40].

Definition repeatBlocks (char : Z) (count : Z) : list (list Z) :=
  let full := (count - 1) / 64 in
  replicate (Z.to_nat full) (repeatBlock char 64)
  ++ [repeatBlock char (count - 64 * full)].

(** A session on which nothing goes wrong and nothing is heard, and one
    on which the terminal sends [reply] while the driver waits. *)
Definition silent : Session :=
  {| openError := None; writeError := fun _ => None; heard := [] |}.

Definition answering (reply : list Z) : Session :=
  {| openError := None; writeError := fun _ => None; heard := [reply] |}.

Definition unavailable (message : string) : Session :=
  {| openError := Some message; writeError := fun _ => None; heard := [] |}.

(** A driver connected by hand to an open, silent port. *)
Definition plugged : Minitel :=
  set_isConnected true
    (set_port (Some {| baudRate := 1200; isOpen := true; session := 0; written := 0 |})
       (new_Minitel (fixed 1200) false)).

(** The framer at rest: nothing accumulated, no timer pending, no
    pending reply, the application's callback installed. *)
Definition idle (s : Inbox) : Prop :=
  inputBuffer s = [] /\ timers s = [] /\ expectedReplies s = [] /\
  onData s = application.

(** The framer holding [buffer] with its inactivity timer, and no other
    timer, due at [deadline]. *)
Definition armed (buffer : list Z) (deadline : Z) (s : Inbox) : Prop :=
  inputBuffer s = buffer /\
  (exists h, bufferTimeout s = Some h /\
             timers s = [{| handle := h; due := deadline; job := flushBuffer |}]) /\
  expectedReplies s = [] /\ onData s = application.

(** The outcome of the promise [p], if it is settled. *)
Definition settled (p : nat) (s : Inbox) : option outcome :=
  mjoin (promises s !! p).

(** What the negotiation statements speak of.  The identification
    query; what the wait of [_queryDevice] makes of a session: the buffer
    it resolves with, if any ([reply_of]); a candidate that opens, takes
    the query and on which that wait times out ([timesOut]), one that
    does not open or times out ([failsToAnswer]), and one that opens,
    takes the query and the screen clear and on which that wait resolves
    ([identifies]). *)
Definition identificationQuery : list Z := [0x1B; 0x39; 0x7B].

Definition reply_of (s : Session) : option (list Z) :=
  collect identificationReply [] (heard s).

Definition timesOut (s : Session) : Prop :=
  openError s = None /\ writeError s 0%nat = None /\ reply_of s = None.

Definition failsToAnswer (s : Session) : Prop :=
  (exists message, openError s = Some message) \/ timesOut s.

Definition identifies (s : Session) (response : list Z) : Prop :=
  openError s = None /\ writeError s 0%nat = None /\ writeError s 1%nat = None /\
  reply_of s = Some response.

(** A candidate seen from the side of the terminal, by what it sends
    and not by what the wait makes of it.  [answersFirst]: the port
    opens and takes the identification query and the screen clear (the
    first two writes), and the first event received during the wait is
    an identification reply.  [hearsNoSOH]: the port opens and takes the
    query, and none of the events received during the wait begins with
    SOH.  [unanswered]: the port does not open, or [hearsNoSOH]. *)
Definition answersFirst (s : Session) (response : list Z) : Prop :=
  openError s = None /\ writeError s 0%nat = None /\ writeError s 1%nat = None /\
  identificationReply response = true /\
  exists later, heard s = response :: later.

Definition hearsNoSOH (s : Session) : Prop :=
  openError s = None /\ writeError s 0%nat = None /\
  Forall (fun data => data !! 0%nat <> Some CODES.SOH) (heard s).

Definition unanswered (s : Session) : Prop :=
  (exists message, openError s = Some message) \/ hearsNoSOH s.

(** The journal of one candidate that timed out, of one that failed
    (its port did not open, or it timed out), and of the candidate that
    answered, up to the screen clear. *)
Definition probe_timeout (rate : Z) : list action :=
  [Opened rate; Sent identificationQuery; Awaited 200; Closed].

Definition probe_failed (s : Session) (rate : Z) : list action :=
  match openError s with
  | Some _ => [OpenFailed rate]
  | None => probe_timeout rate
  end.

Definition probe_identified (rate : Z) (info : DeviceInfo) : list action :=
  [Opened rate; Sent identificationQuery; Awaited 200;
   LogConnected info rate; Sent [0x0C]].

(** The driver after a candidate that timed out, with its port closed. *)
Definition after_timeout (rate : Z) (m : Minitel) : Minitel :=
  {| options_baudRate := options_baudRate m;
     options_autoUpgradeSpeed := options_autoUpgradeSpeed m;
     port := Some {| baudRate := rate; isOpen := false;
                     session := opened m; written := 1 |};
     isConnected := isConnected m; deviceInfo := deviceInfo m;
     currentBaudRate := Some rate; opened := S (opened m);
     journal := journal m ++ probe_timeout rate |}.

(** The driver after a candidate whose port did not open. *)
Definition after_unopened (rate : Z) (m : Minitel) : Minitel :=
  {| options_baudRate := options_baudRate m;
     options_autoUpgradeSpeed := options_autoUpgradeSpeed m;
     port := Some {| baudRate := rate; isOpen := false;
                     session := opened m; written := 0 |};
     isConnected := isConnected m; deviceInfo := deviceInfo m;
     currentBaudRate := Some rate; opened := S (opened m);
     journal := journal m ++ [OpenFailed rate] |}.

Definition after_failed (s : Session) (rate : Z) (m : Minitel) : Minitel :=
  match openError s with
  | Some _ => after_unopened rate m
  | None => after_timeout rate m
  end.

(** The driver after the candidate that answered, when no speed upgrade
    is attempted. *)
Definition after_identified (rate : Z) (info : DeviceInfo) (m : Minitel) : Minitel :=
  {| options_baudRate := options_baudRate m;
     options_autoUpgradeSpeed := options_autoUpgradeSpeed m;
     port := Some {| baudRate := rate; isOpen := true;
                     session := opened m; written := 2 |};
     isConnected := true; deviceInfo := Some info;
     currentBaudRate := Some rate; opened := S (opened m);
     journal := journal m ++ probe_identified rate info |}.

(** The events a handler is called with, one after the other. *)
Definition deliver (events : list (list Z)) (s : Inbox) : Inbox :=
  foldl (fun s data => call_onData data s) s events.

(** Terminals for the examples: a Minitel 1B (4800 bauds at most) that
    answers the identification query at 1200 bauds, its reply, and the
    same terminal on a line that cannot be opened a second time. *)
Definition minitel1B_reply : list Z := [0x01; 0x43; 0x75; 0x32; 0x04].

Definition minitel1B (n : nat) (rate : Z) : Session :=
  if rate =? 1200 then answering minitel1B_reply else silent.

Definition minitel1B_busy_line (n : nat) (rate : Z) : Session :=
  match n with
  | O => minitel1B n rate
  | S _ => unavailable "Resource busy"
  end.

(** ** The older copy of the driver

    The second minitel.js of the repository has the same [write]; its
    [moveCursor] keeps row 0 out and names the first byte
    [CODES.SEP]. *)

Module legacy.

Definition SEP : Z := 0x1F.

Definition invalidCursor : string :=
  "Position curseur invalide (ligne: 1-24, colonne: 1-40)".

Definition moveCursor (terminal : nat -> Z -> Session) (row col : Z) : M unit :=
  if (row <? 1) || (row >? 24) || (col <? 1) || (col >? 40)
  then throw invalidCursor
  else write terminal (Buffer_from [SEP; 0x40 + row; 0x40 + col]).

End legacy.

(** The port's ['data'] events of a session, each with its arrival
    time, handled one after the other. *)
Definition play (events : list (Z * list Z)) (s : Inbox) : Inbox :=
  foldl (fun s event => receive event.1 event.2 s) s events.

(** Arrival times that do not go back, from [start] on. *)
Fixpoint chronological (start : Z) (events : list (Z * list Z)) : Prop :=
  match events with
  | [] => True
  | event :: events' => start <= event.1 /\ chronological event.1 events'
  end.

(** The states the framer goes through when only the port speaks: at
    rest, or holding bytes with its timer due 50 ms after the last
    arrival; [bytes] is everything received so far, and no event
    delivered is empty. *)
Definition framing (bytes : list Z) (s : Inbox) : Prop :=
  Forall (fun event => event ≠ []) (delivered s) /\
  ((idle s /\ concat (delivered s) = bytes) \/
   exists buffer, armed buffer (now s + 50) s /\
                  concat (delivered s) ++ buffer = bytes).

(** The events left once a wait is resolved: those that come after the
    one at which the accumulated bytes satisfy the predicate. *)
Fixpoint uncollected (predicate : list Z -> bool) (responseData : list Z)
    (events : list (list Z)) : list (list Z) :=
  match events with
  | [] => []
  | data :: events' =>
      if predicate (responseData ++ data) then events'
      else uncollected predicate (responseData ++ data) events'
  end.

(** The repeat command on the terminal's side, as the comment of
    [writeRepeated] words it (lines 1058-1059: the character, REP, then
    count - 1 + 64; "la commande REP répète le dernier caractère
    (count-1) fois supplémentaires"): the characters the terminal
    displays for the bytes it receives, [last] being the last character
    displayed. *)
Fixpoint expandREP (last : Z) (bytes : list Z) : list Z :=
  match bytes with
  | [] => []
  | b :: rest =>
      if b =? CODES.REP then
        match rest with
        | [] => []
        | directive :: rest' =>
            replicate (Z.to_nat (directive - 64)) last ++ expandREP last rest'
        end
      else b :: expandREP b rest
  end.

(** * The applications

    The programs that use the driver call most of its methods without
    awaiting the promise: the call runs up to its [port.write] at once
    (a [writeRepeated] of more than 64 runs up to the write of its first
    chunk), and a call that throws rejects a promise nobody handles.  A
    [call] is one such method call; the application code below yields
    the calls it makes, in order. *)

Inductive call :=
| call_clear
| call_home
| call_beep
| call_hideCursor
| call_moveCursor (row col : Z)
| call_setFormat (code : FormatArg)
| call_writeText (text : list Z)
| call_writeRepeated (char count : Z)
| call_write (data : list Z).

Definition perform (terminal : nat -> Z -> Session) (c : call) : M unit :=
  match c with
  | call_clear => clear terminal
  | call_home => home terminal
  | call_beep => beep terminal
  | call_hideCursor => hideCursor terminal
  | call_moveCursor row col => moveCursor terminal row col
  | call_setFormat code => setFormat terminal code
  | call_writeText text => writeText terminal text
  | call_writeRepeated char count => writeRepeated terminal char count
  | call_write data => write terminal data
  end.

(** A call that a connected driver with a working port carries out. *)
Definition accepted (c : call) : Prop :=
  forall terminal m, reliable terminal m ->
    fst (perform terminal c m) = Return tt /\
    reliable terminal (snd (perform terminal c m)).

(** The code units of a string literal of the source (ASCII only). *)
Definition codes (s : string) : list Z :=
  (fun a => Z.of_nat (nat_of_ascii a)) <$> list_ascii_of_string s.

(** ** typing.js *)

Module typing.

Definition KEYBOARD_LAYOUT : list (list Z) :=
  [codes "AZERTYUIOP"; codes " QSDFGHJKLM"; codes "  WXCVBN"].

(** The module's variables that [handleInput] reads and writes.  A word
    is the list of its UTF-16 code units, which is what
    [targetWord.length] counts and [targetWord[i]] reads. *)
Record State := {
  targetWord : list Z;
  currentPosition : nat
}.

(** [Math.max(1, Math.floor((40 - targetWord.length * 2) / 2))] *)
Definition startCol (g : State) : Z :=
  Z.max 1 ((40 - Z.of_nat (length (targetWord g)) * 2) / 2).

(** [updateSingleLetter(letterIndex)]; every call site passes the index
    of a letter of the word. *)
Definition updateSingleLetter (letterIndex : nat) (g : State) : list call :=
  [call_moveCursor 5 (startCol g + Z.of_nat letterIndex * 2);
   call_setFormat (named "double");
   call_setFormat (named "white");
   call_writeText (option_list (targetWord g !! letterIndex))].

(** [line.indexOf(char)] for a one-unit [char] *)
Fixpoint indexOf (char : Z) (line : list Z) : option nat :=
  match line with
  | [] => None
  | c :: line' => if c =? char then Some O else S <$> indexOf char line'
  end.

(** The loop that counts the leading spaces of a line. *)
Fixpoint leadingSpaces (line : list Z) : nat :=
  match line with
  | c :: line' => if c =? 32 then S (leadingSpaces line') else O
  | [] => O
  end.

(** [updateChar(char, shouldBlink)] of [updateKeyboardBlink], from the
    line of index [lineIndex] on. *)
Fixpoint updateChar (char : Z) (shouldBlink : bool) (lineIndex : nat)
    (lines : list (list Z)) : list call :=
  match lines with
  | [] => []
  | line :: lines' =>
      match indexOf char line with
      | Some charIndex =>
          let row := 15 + Z.of_nat lineIndex * 3 in
          let staggerOffset :=
            if Nat.eqb (leadingSpaces line) 1 then 1
            else if Nat.eqb (leadingSpaces line) 2 then 3 else 0 in
          let col := 2 + staggerOffset
                     + (Z.of_nat charIndex - Z.of_nat (leadingSpaces line)) * 4 in
          [call_moveCursor row col; call_setFormat (named "double")]
          ++ (if shouldBlink then [call_setFormat (named "blink")] else [])
          ++ [call_writeText [char]]
          ++ (if shouldBlink then [call_setFormat (named "steady")] else [])
      | None => updateChar char shouldBlink (S lineIndex) lines'
      end
  end.

(** [updateKeyboardBlink(oldChar, newChar)]; [None] is [null] or
    [undefined]. *)
Definition updateKeyboardBlink (oldChar newChar : option Z) : list call :=
  match oldChar with
  | Some char => if char =? 32 then [] else updateChar char false 0 KEYBOARD_LAYOUT
  | None => []
  end
  ++ match newChar with
     | Some char => if char =? 32 then [] else updateChar char true 0 KEYBOARD_LAYOUT
     | None => []
     end.

(** [String.fromCharCode(code).toUpperCase()] for a code from 32 to 126 *)
Definition toUpperCase (code : Z) : Z :=
  if (97 <=? code) && (code <=? 122) then code - 32 else code.

(** [wordComplete()], up to its [await sleep(3000)] *)
Definition wordComplete : list call :=
  [call_moveCursor 9 13; call_setFormat (named "double");
   call_setFormat (named "blink"); call_setFormat (named "white");
   call_writeText (codes "BRAVO!"); call_setFormat (named "steady")].

Definition set_currentPosition (n : nat) (g : State) : State :=
  {| targetWord := targetWord g; currentPosition := n |}.

(** [handleInput(data)], up to its first [await]: the variables
    afterwards and the calls made. *)
Definition handleInput (data : list Z) (g : State) : State * list call :=
  match data with
  | [code] =>
      if (32 <=? code) && (code <=? 126) then
        let typedChar := toUpperCase code in
        let echo := [call_moveCursor 9 18; call_setFormat (named "double");
                     call_setFormat (named "white"); call_writeText [typedChar]] in
        let isCorrect :=
          (Nat.ltb (currentPosition g) (length (targetWord g)))
          && bool_decide (targetWord g !! currentPosition g = Some typedChar) in
        if isCorrect then
          let letter := updateSingleLetter (currentPosition g) g in
          let oldChar := targetWord g !! currentPosition g in
          let g' := set_currentPosition (S (currentPosition g)) g in
          let newChar := if Nat.ltb (currentPosition g') (length (targetWord g'))
                         then targetWord g' !! currentPosition g' else None in
          let blink := updateKeyboardBlink oldChar newChar in
          if Nat.eqb (currentPosition g') (length (targetWord g'))
          then (g', echo ++ letter ++ blink ++ wordComplete)
          else (g', echo ++ letter ++ blink)
        else (g, echo ++ [call_beep])
      else (g, [])
  | _ => (g, [])
  end.

(** The keys of a session, handled one after the other. *)
Definition typed (keys : list (list Z)) (g : State) : State :=
  foldl (fun g data => fst (handleInput data g)) g keys.

End typing.

(** ** snake.js *)

Module snake.

Module GAME_AREA.
Definition top : Z := 1.
Definition bottom : Z := 23.
Definition left : Z := 2.
Definition right : Z := 39.
End GAME_AREA.

(** [{ row, col }] *)
Record Pos := { row : Z; col : Z }.

(** The four objects of [DIRECTION], with their [row] and [col]. *)
Inductive Direction := UP | DOWN | LEFT | RIGHT.

Definition d_row (d : Direction) : Z :=
  match d with UP => -1 | DOWN => 1 | LEFT => 0 | RIGHT => 0 end.

Definition d_col (d : Direction) : Z :=
  match d with UP => 0 | DOWN => 0 | LEFT => -1 | RIGHT => 1 end.

(** The fields of a [SnakeGame]. *)
Record Game := {
  snake : list Pos;
  direction : Direction;
  food : option Pos;
  score : Z;
  gameOver : bool;
  gameStarted : bool;
  speed : Z;
  lastMove : Z;
  pendingDirection : option Direction;
  scoreJustUpdated : bool;
  lastTailPos : option Pos
}.

(** [new SnakeGame(minitel)] *)
Definition new_SnakeGame : Game :=
  {| snake := []; direction := RIGHT; food := None; score := 0;
     gameOver := false; gameStarted := false; speed := 200; lastMove := 0;
     pendingDirection := None; scoreJustUpdated := false; lastTailPos := None |}.

(** What an [async] method of the game is waiting for when it stops at
    an [await]: the rest of the method, to be run when the promise
    resolves. *)
Inductive continuation :=
| init_afterHideCursor
| init_afterClear
| update_afterBeep (newHead : Pos)
| endGame_afterBeep.

(** The result of one stretch of code that runs without interruption:
    the fields afterwards, the calls made to the driver, and what is
    left to run after an [await]. *)
Definition stretch : Type := Game * list call * list continuation.

(** [drawScoreInBorder()] *)
Definition drawScoreInBorder (g : Game) : list call :=
  let width := GAME_AREA.right - GAME_AREA.left + 1 in
  let totalWidth := width + 2 in
  let scoreText := codes "Score: " ++ codes (pretty (score g)) in
  let leftSpaces := (totalWidth - Z.of_nat (length scoreText)) / 2 in
  let rightSpaces := totalWidth - leftSpaces - Z.of_nat (length scoreText) in
  [call_moveCursor (GAME_AREA.bottom + 1) (GAME_AREA.left - 1);
   call_setFormat (named "white-background");
   call_setFormat (named "black");
   call_writeRepeated 32 leftSpaces;
   call_writeText scoreText;
   call_writeRepeated 32 rightSpaces;
   call_setFormat (named "black-background")].

(** The loop of [drawBorder()] over the rows of the two walls. *)
Definition walls : list call :=
  flat_map (fun row =>
              [call_moveCursor row (GAME_AREA.left - 1); call_write (Buffer_from [0x7F]);
               call_moveCursor row (GAME_AREA.right + 1); call_write (Buffer_from [0x7F])])
    (seqZ GAME_AREA.top (GAME_AREA.bottom - GAME_AREA.top + 1)).

(** [drawBorder()] *)
Definition drawBorder (g : Game) : list call :=
  let width := GAME_AREA.right - GAME_AREA.left + 1 in
  let totalWidth := width + 2 in
  let title := codes "SNAKE" in
  let leftSpaces := (totalWidth - Z.of_nat (length title)) / 2 in
  let rightSpaces := totalWidth - leftSpaces - Z.of_nat (length title) in
  [call_moveCursor 0 (GAME_AREA.left - 1);
   call_setFormat (named "white-background");
   call_setFormat (named "black");
   call_writeRepeated 32 leftSpaces;
   call_writeText title;
   call_writeRepeated 32 rightSpaces;
   call_setFormat (numeric CODES.SO)]
  ++ walls
  ++ [call_setFormat (numeric CODES.SI)]
  ++ drawScoreInBorder g
  ++ [call_setFormat (named "black")].

(** [showInstructions()] *)
Definition showInstructions : list call :=
  [call_setFormat (named "very-light");
   call_moveCursor 8 10;
   call_writeText (codes "Touches de contr" ++ [0xF4] ++ codes "le :");
   call_moveCursor 10 12;
   call_writeText (codes "Z              2");
   call_moveCursor 12 10;
   call_writeText (codes "Q S D    ou    4   6");
   call_moveCursor 14 27;
   call_writeText (codes "8");
   call_moveCursor 17 3;
   call_writeText (codes "Appuyer sur une touche pour d" ++ [0xE9] ++ codes "marrer");
   call_setFormat (named "black")].

(** [init()] has three stretches: up to [await hideCursor()]; from
    there to the [await clear()] of [drawUI()]; and the rest. *)
Definition init (g : Game) : stretch :=
  (g, [call_hideCursor], [init_afterHideCursor]).

Definition init_reset (g : Game) : stretch :=
  let centerRow := (GAME_AREA.top + GAME_AREA.bottom) / 2 in
  let centerCol := (GAME_AREA.left + GAME_AREA.right) / 2 in
  ({| snake := [ {| row := centerRow; col := centerCol |};
                 {| row := centerRow; col := centerCol - 1 |};
                 {| row := centerRow; col := centerCol - 2 |} ];
      direction := RIGHT; food := None; score := 0;
      gameOver := false; gameStarted := false;
      speed := speed g; lastMove := lastMove g;
      pendingDirection := pendingDirection g;
      scoreJustUpdated := false; lastTailPos := None |},
   [call_clear], [init_afterClear]).

Definition init_draw (g : Game) : stretch :=
  (g, [call_home] ++ drawBorder g ++ showInstructions, []).

(** [drawSnake()] *)
Definition drawSnake (g : Game) : list call :=
  flat_map (fun segment =>
              [call_moveCursor (row segment) (col segment); call_writeText (codes "O")])
    (snake g).

Definition same (p q : Pos) : bool := (row p =? row q) && (col p =? col q).

(** The [do ... while] loop of [spawnFood()].  Each element of [draws]
    holds the two values [Math.floor(Math.random() * n)] of one turn of
    the loop; [None] when the draws run out before a free cell is found:
    the loop is still running. *)
Fixpoint spawnFood_loop (draws : list (Z * Z)) (body : list Pos) : option Pos :=
  match draws with
  | [] => None
  | (i, j) :: draws' =>
      let foodPos := {| row := GAME_AREA.top + i; col := GAME_AREA.left + j |} in
      if existsb (same foodPos) body then spawnFood_loop draws' body
      else Some foodPos
  end.

Definition set_food (f : option Pos) (g : Game) : Game :=
  {| snake := snake g; direction := direction g; food := f; score := score g;
     gameOver := gameOver g; gameStarted := gameStarted g; speed := speed g;
     lastMove := lastMove g; pendingDirection := pendingDirection g;
     scoreJustUpdated := scoreJustUpdated g; lastTailPos := lastTailPos g |}.

(** [spawnFood()] *)
Definition spawnFood (draws : list (Z * Z)) (g : Game) : option (Game * list call) :=
  match spawnFood_loop draws (snake g) with
  | Some foodPos =>
      Some (set_food (Some foodPos) g,
            [call_setFormat (named "medium-dark");
             call_moveCursor (row foodPos) (col foodPos);
             call_writeText (codes "*");
             call_setFormat (named "black")])
  | None => None
  end.

(** [endGame()], up to its first [await beep()], and from there to its
    last. *)
Definition endGame (g : Game) : stretch :=
  ({| snake := snake g; direction := direction g; food := food g; score := score g;
      gameOver := true; gameStarted := gameStarted g; speed := speed g;
      lastMove := lastMove g; pendingDirection := pendingDirection g;
      scoreJustUpdated := scoreJustUpdated g; lastTailPos := lastTailPos g |},
   [call_beep], [endGame_afterBeep]).

Definition endGame_draw (g : Game) : stretch :=
  let centerRow := (GAME_AREA.top + GAME_AREA.bottom) / 2 in
  let centerCol := (GAME_AREA.left + GAME_AREA.right) / 2 in
  let boxWidth := 24 in
  let boxHeight := 8 in
  let boxTop := centerRow - boxHeight / 2 in
  let boxLeft := centerCol - boxWidth / 2 in
  let gameOverText := codes "GAME OVER!" in
  let scoreText := codes "Score: " ++ codes (pretty (score g)) in
  let replayText := codes "Rejouer: ENVOI" in
  let innerWidth := boxWidth - 2 in
  let gameOverPad := (innerWidth - Z.of_nat (length gameOverText)) / 2 in
  let scorePad := (innerWidth - Z.of_nat (length scoreText)) / 2 in
  let replayPad := (innerWidth - Z.of_nat (length replayText)) / 2 in
  (g,
   [call_moveCursor boxTop boxLeft; call_setFormat (named "medium");
    call_writeText (codes "+"); call_writeRepeated 45 innerWidth;
    call_writeText (codes "+");
    call_moveCursor (boxTop + 1) boxLeft; call_setFormat (named "medium");
    call_writeText (codes "|"); call_writeRepeated 32 innerWidth;
    call_writeText (codes "|");
    call_moveCursor (boxTop + 2) boxLeft; call_setFormat (named "medium");
    call_writeText (codes "|"); call_writeRepeated 32 gameOverPad;
    call_setFormat (named "white"); call_setFormat (named "blink");
    call_writeText gameOverText;
    call_setFormat (named "steady"); call_setFormat (named "medium");
    call_writeRepeated 32 (innerWidth - gameOverPad - Z.of_nat (length gameOverText));
    call_writeText (codes "|");
    call_moveCursor (boxTop + 3) boxLeft; call_setFormat (named "medium");
    call_writeText (codes "|"); call_writeRepeated 32 scorePad;
    call_setFormat (named "very-light"); call_writeText scoreText;
    call_setFormat (named "medium");
    call_writeRepeated 32 (innerWidth - scorePad - Z.of_nat (length scoreText));
    call_writeText (codes "|");
    call_moveCursor (boxTop + 4) boxLeft; call_setFormat (named "medium");
    call_writeText (codes "|"); call_writeRepeated 32 innerWidth;
    call_writeText (codes "|");
    call_moveCursor (boxTop + 5) boxLeft; call_setFormat (named "medium");
    call_writeText (codes "|"); call_writeRepeated 32 replayPad;
    call_setFormat (named "white"); call_writeText replayText;
    call_setFormat (named "medium");
    call_writeRepeated 32 (innerWidth - replayPad - Z.of_nat (length replayText));
    call_writeText (codes "|");
    call_moveCursor (boxTop + 6) boxLeft; call_setFormat (named "medium");
    call_writeText (codes "|"); call_writeRepeated 32 innerWidth;
    call_writeText (codes "|");
    call_moveCursor (boxTop + 7) boxLeft; call_setFormat (named "medium");
    call_writeText (codes "+"); call_writeRepeated 45 innerWidth;
    call_writeText (codes "+");
    call_setFormat (named "black");
    call_beep],
   []).

Definition opposite (p d : Direction) : bool :=
  (d_row p =? - d_row d) && (d_col p =? - d_col d).

(** [update()], up to its first [await] or its end, [now] being
    [Date.now()]. *)
Definition update (now : Z) (g : Game) : stretch :=
  if negb (gameStarted g) || gameOver g then (g, [], [])
  else if now - lastMove g <? speed g then (g, [], [])
  else
    let direction' :=
      match pendingDirection g with
      | Some pending => if opposite pending (direction g) then direction g else pending
      | None => direction g
      end in
    let g := {| snake := snake g; direction := direction'; food := food g;
                score := score g; gameOver := gameOver g;
                gameStarted := gameStarted g; speed := speed g;
                lastMove := now; pendingDirection := None;
                scoreJustUpdated := scoreJustUpdated g;
                lastTailPos := lastTailPos g |} in
    match snake g with
    | [] => (g, [], [])
    | head :: _ =>
        let newHead := {| row := row head + d_row (direction g);
                          col := col head + d_col (direction g) |} in
        if (row newHead <? GAME_AREA.top) || (row newHead >? GAME_AREA.bottom)
           || (col newHead <? GAME_AREA.left) || (col newHead >? GAME_AREA.right)
        then endGame g
        else if existsb (same newHead) (snake g) then endGame g
        else
          let body := newHead :: snake g in
          if match food g with Some f => same newHead f | None => false end
          then
            let g := {| snake := body; direction := direction g; food := food g;
                        score := score g + 10; gameOver := gameOver g;
                        gameStarted := gameStarted g; speed := speed g;
                        lastMove := lastMove g;
                        pendingDirection := pendingDirection g;
                        scoreJustUpdated := true;
                        lastTailPos := lastTailPos g |} in
            (g,
             drawScoreInBorder g ++ [call_setFormat (named "black")] ++ [call_beep],
             [update_afterBeep newHead])
          else
            ({| snake := removelast body; direction := direction g; food := food g;
                score := score g; gameOver := gameOver g;
                gameStarted := gameStarted g; speed := speed g;
                lastMove := lastMove g; pendingDirection := pendingDirection g;
                scoreJustUpdated := scoreJustUpdated g;
                lastTailPos := last body |},
             [call_moveCursor (row newHead) (col newHead); call_writeText (codes "O")]
             ++ match last body with
                | Some tail => [call_moveCursor (row tail) (col tail);
                                call_writeText (codes " ")]
                | None => []
                end,
             [])
    end.

(** [update()] after the [await beep()] of a bite. *)
Definition update_resume (newHead : Pos) (draws : list (Z * Z)) (g : Game)
    : option stretch :=
  let g := {| snake := snake g; direction := direction g; food := food g;
              score := score g; gameOver := gameOver g;
              gameStarted := gameStarted g; speed := Z.max 100 (speed g - 5);
              lastMove := lastMove g; pendingDirection := pendingDirection g;
              scoreJustUpdated := scoreJustUpdated g;
              lastTailPos := lastTailPos g |} in
  match spawnFood draws g with
  | Some (g', calls) =>
      Some ({| snake := snake g'; direction := direction g'; food := food g';
               score := score g'; gameOver := gameOver g';
               gameStarted := gameStarted g'; speed := speed g';
               lastMove := lastMove g'; pendingDirection := pendingDirection g';
               scoreJustUpdated := scoreJustUpdated g'; lastTailPos := None |},
            [call_moveCursor (row newHead) (col newHead); call_writeText (codes "O")]
            ++ calls,
            [])
  | None => None
  end.

(** [startGameIfNeeded()] *)
Definition startGameIfNeeded (now : Z) (draws : list (Z * Z)) (g : Game)
    : option (Game * list call) :=
  if negb (gameStarted g) && negb (gameOver g) then
    let g := {| snake := snake g; direction := direction g; food := food g;
                score := score g; gameOver := gameOver g; gameStarted := true;
                speed := speed g; lastMove := now;
                pendingDirection := pendingDirection g;
                scoreJustUpdated := scoreJustUpdated g;
                lastTailPos := lastTailPos g |} in
    match spawnFood draws g with
    | Some (g', calls) =>
        Some (g',
              [call_setFormat (named "black")]
              ++ flat_map (fun row => [call_moveCursor row 2; call_writeRepeated 32 38])
                   (seqZ 8 10)
              ++ drawSnake g ++ calls)
    | None => None
    end
  else Some (g, []).

(** [data.toString('ascii').trim()]: the high bit of every byte is
    dropped, then the white space at both ends. *)
Definition isSpace (c : Z) : bool :=
  ((9 <=? c) && (c <=? 13)) || (c =? 32).

Fixpoint trimStart (s : list Z) : list Z :=
  match s with
  | c :: s' => if isSpace c then trimStart s' else s
  | [] => []
  end.

Definition trim (s : list Z) : list Z := rev (trimStart (rev (trimStart s))).

Definition toString_ascii (data : list Z) : list Z :=
  (fun b => Z.land b 0x7F) <$> data.

Definition set_pendingDirection (d : option Direction) (g : Game) : Game :=
  {| snake := snake g; direction := direction g; food := food g; score := score g;
     gameOver := gameOver g; gameStarted := gameStarted g; speed := speed g;
     lastMove := lastMove g; pendingDirection := d;
     scoreJustUpdated := scoreJustUpdated g; lastTailPos := lastTailPos g |}.

(** The direction a key stands for. *)
Definition keyDirection (key : list Z) : option Direction :=
  if bool_decide (key ∈ [codes "2"; codes "z"; codes "Z"]) then Some UP
  else if bool_decide (key ∈ [codes "8"; codes "s"; codes "S"]) then Some DOWN
  else if bool_decide (key ∈ [codes "4"; codes "q"; codes "Q"]) then Some LEFT
  else if bool_decide (key ∈ [codes "6"; codes "d"; codes "D"]) then Some RIGHT
  else None.

(** [restart()], up to the [await] of [init()] *)
Definition restart (g : Game) : stretch :=
  init {| snake := snake g; direction := direction g; food := food g;
          score := score g; gameOver := gameOver g; gameStarted := gameStarted g;
          speed := 200; lastMove := lastMove g; pendingDirection := None;
          scoreJustUpdated := scoreJustUpdated g; lastTailPos := lastTailPos g |}.

(** [handleInput(data)], up to its first [await] or its end *)
Definition handleInput (data : list Z) (now : Z) (draws : list (Z * Z)) (g : Game)
    : option stretch :=
  let key := trim (toString_ascii data) in
  match parseFunctionKey data with
  | Some functionKey =>
      if functionKey =? CODES.KEY_ENVOI
      then if gameOver g then Some (restart g) else Some (g, [], [])
      else Some (g, [], [])
  | None =>
      match keyDirection key with
      | Some d =>
          match startGameIfNeeded now draws (set_pendingDirection (Some d) g) with
          | Some (g', calls) => Some (g', calls, [])
          | None => None
          end
      | None => Some (g, [], [])
      end
  end.

(** *** The program: the game and what its [async] methods await *)

Record Program := { game : Game; awaiting : list continuation }.

(** What happens next: the interval timer calls [update()], the driver
    calls [onData] with an event (and so [handleInput]), or the promise
    the k-th waiting method awaits is resolved, or rejected.  [now] is
    what [Date.now()] returns and [draws] what [Math.random()] yields in
    the course of the event. *)
Inductive event :=
| interval (now : Z)
| input (data : list Z) (now : Z) (draws : list (Z * Z))
| resolves (k : nat) (draws : list (Z * Z))
| rejects (k : nat).

Definition resume (c : continuation) (draws : list (Z * Z)) (g : Game)
    : option stretch :=
  match c with
  | init_afterHideCursor => Some (init_reset g)
  | init_afterClear => Some (init_draw g)
  | update_afterBeep newHead => update_resume newHead draws g
  | endGame_afterBeep => Some (endGame_draw g)
  end.

(** One event: the program afterwards and the calls made, or [None]
    when the event cannot happen (nothing is awaited at [k]) or
    [spawnFood] is still looping when the draws run out. *)
Definition happen (e : event) (p : Program) : option (Program * list call) :=
  match e with
  | interval now =>
      let '(g, calls, more) := update now (game p) in
      Some ({| game := g; awaiting := awaiting p ++ more |}, calls)
  | input data now draws =>
      match handleInput data now draws (game p) with
      | Some (g, calls, more) =>
          Some ({| game := g; awaiting := awaiting p ++ more |}, calls)
      | None => None
      end
  | resolves k draws =>
      match awaiting p !! k with
      | Some c =>
          match resume c draws (game p) with
          | Some (g, calls, more) =>
              Some ({| game := g; awaiting := delete k (awaiting p) ++ more |}, calls)
          | None => None
          end
      | None => None
      end
  | rejects k =>
      match awaiting p !! k with
      | Some _ => Some ({| game := game p; awaiting := delete k (awaiting p) |}, [])
      | None => None
      end
  end.

Fixpoint play (events : list event) (p : Program) : option (Program * list call) :=
  match events with
  | [] => Some (p, [])
  | e :: events' =>
      match happen e p with
      | Some (p', calls) =>
          match play events' p' with
          | Some (p'', calls') => Some (p'', calls ++ calls')
          | None => None
          end
      | None => None
      end
  end.

(** The program when [main()] installs [onData] and the interval timer:
    [await game.init()] has run to its end on a new game. *)
Definition booted : Program :=
  {| game := fst (fst (init_draw (fst (fst (init_reset (fst (fst (init new_SnakeGame))))))));
     awaiting := [] |}.

(** The calls [main()] has made by then through [init()]. *)
Definition booting : list call :=
  snd (fst (init new_SnakeGame))
  ++ snd (fst (init_reset (fst (fst (init new_SnakeGame)))))
  ++ snd (fst (init_draw (fst (fst (init_reset (fst (fst (init new_SnakeGame)))))))).

(** A cell of the playing area; draws in the range of the two
    [Math.floor(Math.random() * n)] of [spawnFood()]. *)
Definition inArea (p : Pos) : Prop :=
  GAME_AREA.top <= row p <= GAME_AREA.bottom /\
  GAME_AREA.left <= col p <= GAME_AREA.right.

Definition inRange (draws : list (Z * Z)) : Prop :=
  Forall (fun d => 0 <= d.1 < GAME_AREA.bottom - GAME_AREA.top + 1 /\
                   0 <= d.2 < GAME_AREA.right - GAME_AREA.left + 1) draws.

Definition possible (e : event) : Prop :=
  match e with
  | input _ _ draws => inRange draws
  | resolves _ draws => inRange draws
  | _ => True
  end.

(** What every state of the program satisfies (see [snake_game_sound]). *)
Definition sound (p : Program) : Prop :=
  (3 <= length (snake (game p)))%nat /\
  Forall inArea (snake (game p)) /\
  NoDup (snake (game p)) /\
  score (game p) = 10 * (Z.of_nat (length (snake (game p))) - 3) /\
  100 <= speed (game p) <= 200 /\
  (forall f, food (game p) = Some f -> inArea f) /\
  Forall (fun c => match c with
                   | update_afterBeep newHead => inArea newHead
                   | _ => True
                   end) (awaiting p).

End snake.

(** The characters the codec keeps apart: printable ASCII and the keys
    of its table; and the character each stands for once the curly
    quotes and the guillemets are written as the apostrophe and the
    quotation mark. *)
Definition supported (char : Z) : Prop :=
  32 <= char <= 126 \/ char ∈ accentEntries.*1.

Definition plainQuotes (char : Z) : Z :=
  if (char =? 0x2018) || (char =? 0x2019) || (char =? 0x2039) || (char =? 0x203A)
  then 0x27
  else if (char =? 0x201C) || (char =? 0x201D) || (char =? 0xAB) || (char =? 0xBB)
  then 0x22
  else char.

(** Whether the bytes [l1] start the bytes [l2]. *)
Fixpoint startsWith (l1 l2 : list Z) : bool :=
  match l1, l2 with
  | [], _ => true
  | a :: l1', b :: l2' => (a =? b) && startsWith l1' l2'
  | _ :: _, [] => false
  end.

(** * Properties *)

(** ** Generic facts about the monad and [write] *)

Lemma toUint8_byte (v : Z) : 0 <= v < 256 -> toUint8 v = v.
Proof. intros H. unfold toUint8. apply Z.mod_small. exact H. Qed.

Lemma write_reliable terminal (data : list Z) (m : Minitel) :
  reliable terminal m ->
  write terminal data m = (Return tt, sending data m) /\
  reliable terminal (sending data m).
Proof.
  intros (Hc & p & Hp & Ho & Hw).
  unfold write, sending, bind, port_write. rewrite Hc, Hp, Ho. simpl.
  rewrite (Hw (written p)) by lia. simpl. split; [reflexivity|].
  split; [exact Hc|].
  eexists. split; [reflexivity|]. simpl. split; [reflexivity|].
  intros k Hk. apply Hw. lia.
Qed.

Lemma write_outcome terminal (data : list Z) (m : Minitel) :
  fst (write terminal data m) = Return tt \/
  fst (write terminal data m) = Throw notConnected \/
  fst (write terminal data m) = Throw "TypeError: Cannot read properties of null" \/
  fst (write terminal data m) = Pending \/
  exists message,
    fst (write terminal data m) = Throw ("Erreur d'écriture: " +:+ message).
Proof.
  unfold write, bind, port_write.
  destruct (isConnected m); simpl; [|auto].
  destruct (port m) as [p|]; simpl; [|auto].
  destruct (isOpen p); simpl.
  - destruct (writeError _ _); simpl; eauto 6.
  - auto.
Qed.

Lemma sent_sending (data : list Z) (m : Minitel) :
  sent (sending data m) = sent m ++ [data].
Proof. unfold sent, sending. simpl. rewrite omap_app. reflexivity. Qed.

Lemma plugged_reliable terminal :
  (forall k, writeError (terminal 0%nat 1200) k = None) -> reliable terminal plugged.
Proof.
  intros H. split; [reflexivity|]. eexists. split; [reflexivity|].
  split; [reflexivity|]. intros k _. apply H.
Qed.

(** ** Character codec *)

Lemma accentEntries_keys_NoDup : NoDup (accentEntries.*1).
Proof. apply (bool_decide_unpack _). vm_compute. reflexivity. Qed.

Lemma accentEntries_keys_above_ascii :
  Forall (fun key => 127 < key) (accentEntries.*1).
Proof. apply (bool_decide_unpack _). vm_compute. reflexivity. Qed.

Lemma accentMap_lookup_Some (char : Z) (bytes : list Z) :
  accentMap !! char = Some bytes <-> (char, bytes) ∈ accentEntries.
Proof.
  unfold accentMap. symmetry.
  apply elem_of_list_to_map, accentEntries_keys_NoDup.
Qed.

Lemma accentMap_lookup_None (char : Z) :
  accentMap !! char = None <-> char ∉ accentEntries.*1.
Proof. unfold accentMap. symmetry. apply not_elem_of_list_to_map. Qed.

Lemma charCodeAt0_above_ascii (char : Z) :
  isCodePoint char -> 127 < char -> 127 < charCodeAt0 char.
Proof.
  unfold isCodePoint, charCodeAt0. intros Hcp Hc.
  destruct (Z.ltb_spec char 0x10000) as [Hlt|Hge]; [lia|].
  assert (0 <= (char - 0x10000) / 0x400) by (apply Z.div_pos; lia). lia.
Qed.

(** C7. A character of code point at most 127 is never a key of the
    conversion table and is returned as that single byte; a character
    above 127 that is not a key is returned as the single byte 0x3F; a key
    is returned as the byte sequence the table gives for it; the curly
    single quotes and single guillemets give the apostrophe 0x27, the
    curly double quotes and guillemets give the quotation mark 0x22. *)
Theorem charToMinitel_cases (char : Z) :
  isCodePoint char ->
  (char <= 127 -> (char ∉ accentEntries.*1) /\ charToMinitel char = [char]) /\
  (127 < char -> char ∉ accentEntries.*1 -> charToMinitel char = [0x3F]) /\
  (forall bytes, (char, bytes) ∈ accentEntries -> charToMinitel char = bytes) /\
  (char ∈ [0x2018; 0x2019; 0x2039; 0x203A] -> charToMinitel char = [0x27]) /\
  (char ∈ [0x201C; 0x201D; 0xAB; 0xBB] -> charToMinitel char = [0x22]).
Proof.
  intros Hcp. repeat split.
  - intros Hin.
    pose proof accentEntries_keys_above_ascii as Hall.
    rewrite Forall_forall in Hall. apply Hall in Hin. lia.
  - assert (Hnone : accentMap !! char = None).
    { apply accentMap_lookup_None. intros Hin.
      pose proof accentEntries_keys_above_ascii as Hall.
      rewrite Forall_forall in Hall. apply Hall in Hin. lia. }
    unfold charToMinitel. rewrite Hnone. unfold charCodeAt0.
    destruct Hcp as [Hlo _].
    destruct (Z.ltb_spec char 0x10000); [|lia].
    destruct (Z.leb_spec char 127); [reflexivity|lia].
  - intros Hc Hnot. apply accentMap_lookup_None in Hnot.
    unfold charToMinitel. rewrite Hnot.
    pose proof (charCodeAt0_above_ascii char Hcp Hc).
    destruct (Z.leb_spec (charCodeAt0 char) 127); [lia|reflexivity].
  - intros bytes Hin. apply accentMap_lookup_Some in Hin.
    unfold charToMinitel. rewrite Hin. reflexivity.
  - intros Hin. repeat (apply elem_of_cons in Hin as [->|Hin]; [reflexivity|]).
    apply elem_of_nil in Hin. contradiction.
  - intros Hin. repeat (apply elem_of_cons in Hin as [->|Hin]; [reflexivity|]).
    apply elem_of_nil in Hin. contradiction.
Qed.

Lemma charToMinitel_cases_witness :
  isCodePoint 0xE9 /\ (0xE9, [0x19; 0x42; 0x65]) ∈ accentEntries /\
  charToMinitel 0xE9 = [0x19; 0x42; 0x65].
Proof.
  assert (Hcp : isCodePoint 0xE9) by (unfold isCodePoint; lia).
  assert (Hin : (0xE9, [0x19; 0x42; 0x65]) ∈ accentEntries)
    by (unfold accentEntries; do 6 apply list_elem_of_further; apply list_elem_of_here).
  split; [exact Hcp|]. split; [exact Hin|].
  exact (proj1 (proj2 (proj2 (charToMinitel_cases 0xE9 Hcp))) _ Hin).
Defined.

(** Every output of the codec is a list of bytes. *)
Lemma charToMinitel_bytes (char : Z) :
  isCodePoint char -> Forall (fun b => 0 <= b < 256) (charToMinitel char).
Proof.
  intros Hcp. unfold charToMinitel.
  destruct (accentMap !! char) as [bytes|] eqn:Hl.
  - apply accentMap_lookup_Some in Hl.
    assert (Hall : Forall (fun e => Forall (fun b => 0 <= b < 256) e.2) accentEntries)
      by (apply (bool_decide_unpack _); vm_compute; reflexivity).
    rewrite Forall_forall in Hall. exact (Hall _ Hl).
  - destruct (Z.leb_spec (charCodeAt0 char) 127) as [Hle|Hgt].
    + constructor; [|constructor]. unfold charCodeAt0 in *. unfold isCodePoint in Hcp.
      destruct (Z.ltb_spec char 0x10000); [lia|].
      assert (0 <= (char - 0x10000) / 0x400) by (apply Z.div_pos; lia). lia.
    + constructor; [lia|constructor].
Qed.

(** ** Function keys *)

(** C9. [parseFunctionKey] returns a key code exactly on the two-byte
    buffers that start with the prefix 0x13, and the code is the second
    byte; on every other buffer (another length, or another first byte)
    it returns null. *)
Theorem parseFunctionKey_iff (data : list Z) :
  (forall key, parseFunctionKey data = Some key <->
               data = [CODES.FUNCTION_KEY_PREFIX; key]) /\
  (length data ≠ 2%nat \/ data !! 0%nat ≠ Some CODES.FUNCTION_KEY_PREFIX ->
   parseFunctionKey data = None).
Proof.
  unfold parseFunctionKey. split.
  - intros key. split.
    + destruct (Z.eqb_spec (Z.of_nat (length data)) 2) as [Hlen|]; [|discriminate].
      rewrite andb_true_l. case_bool_decide as Ha; [|discriminate].
      destruct data as [|a [|b [|c data]]]; cbn [length] in Hlen; try lia.
      cbn in Ha |- *. intros Hb. congruence.
    + intros ->. cbn. rewrite bool_decide_eq_true_2 by reflexivity. reflexivity.
  - intros [Hlen|Hfirst].
    + replace (Z.of_nat (length data) =? 2) with false; [reflexivity|].
      symmetry. apply Z.eqb_neq. lia.
    + rewrite (bool_decide_eq_false_2 _ Hfirst), andb_false_r. reflexivity.
Qed.

(** ** Command encoder *)

Lemma Buffer_from_bytes (l : list Z) :
  Forall (fun b => 0 <= b < 256) l -> Buffer_from l = l.
Proof.
  unfold Buffer_from. induction 1 as [|b l Hb _ IH]; [reflexivity|].
  cbn [map]. rewrite IH, toUint8_byte by exact Hb. reflexivity.
Qed.

Lemma write_not_validation terminal (data : list Z) (m : Minitel) (message : string) :
  (exists tail, message = String "P" tail \/ message = String "F" tail) ->
  fst (write terminal data m) ≠ Throw message.
Proof.
  intros [tail Hm] Heq.
  destruct (write_outcome terminal data m) as [H|[H|[H|[H|[e H]]]]];
    rewrite H in Heq; destruct Hm as [-> | ->]; cbn in Heq; discriminate.
Qed.

(** C8. [moveCursor] throws the invalid-position error exactly when the
    row is below 0 or above 24 or the column below 1 or above 40, and
    then leaves the driver as it was, nothing written; rows 0 and 24 and
    columns 1 and 40 are accepted; an accepted call on a connected driver
    with a working port writes the three bytes 0x1F, 0x40 + row,
    0x40 + col and nothing else. *)
Theorem moveCursor_validation (terminal : nat -> Z -> Session)
    (row col : Z) (m : Minitel) :
  (fst (moveCursor terminal row col m) = Throw invalidCursor <->
   row < 0 \/ row > 24 \/ col < 1 \/ col > 40) /\
  (row < 0 \/ row > 24 \/ col < 1 \/ col > 40 ->
   snd (moveCursor terminal row col m) = m) /\
  (0 <= row <= 24 -> 1 <= col <= 40 -> reliable terminal m ->
   moveCursor terminal row col m
   = (Return tt, sending [0x1F; 0x40 + row; 0x40 + col] m)) /\
  (forall r c, r ∈ [0; 24] -> c ∈ [1; 40] ->
   fst (moveCursor terminal r c m) ≠ Throw invalidCursor).
Proof.
  assert (Hout : row < 0 \/ row > 24 \/ col < 1 \/ col > 40 ->
                 moveCursor terminal row col m = (Throw invalidCursor, m)).
  { intros H. unfold moveCursor.
    replace ((row <? 0) || (row >? 24) || (col <? 1) || (col >? 40)) with true;
      [reflexivity|].
    symmetry. rewrite !orb_true_iff, !Z.ltb_lt, !Z.gtb_gt. tauto. }
  assert (Hin : forall r c, 0 <= r <= 24 -> 1 <= c <= 40 ->
                moveCursor terminal r c m
                = write terminal (Buffer_from [CODES.US; CODES.CURSOR_OFFSET + r;
                                               CODES.CURSOR_OFFSET + c]) m).
  { intros r c Hr Hc. unfold moveCursor.
    replace ((r <? 0) || (r >? 24) || (c <? 1) || (c >? 40)) with false;
      [reflexivity|].
    symmetry. rewrite !orb_false_iff, !Z.ltb_ge.
    repeat split; try lia; rewrite Z.gtb_ltb; apply Z.ltb_ge; lia. }
  repeat split.
  - intros Hthrow.
    destruct (decide (0 <= row <= 24 /\ 1 <= col <= 40)) as [[Hr Hc]|Hno]; [|lia].
    rewrite (Hin row col Hr Hc) in Hthrow. exfalso.
    revert Hthrow. apply write_not_validation. eexists. left. reflexivity.
  - intros H. rewrite (Hout H). reflexivity.
  - intros H. rewrite (Hout H). reflexivity.
  - intros Hr Hc Hrel. rewrite (Hin row col Hr Hc).
    rewrite Buffer_from_bytes.
    + apply write_reliable. exact Hrel.
    + unfold CODES.US, CODES.CURSOR_OFFSET. repeat constructor; lia.
  - intros r c Hr Hc.
    assert (0 <= r <= 24) by (set_unfold; lia).
    assert (1 <= c <= 40) by (set_unfold; lia).
    rewrite (Hin r c) by assumption.
    apply write_not_validation. eexists. left. reflexivity.
Qed.

(** ** Display attributes *)

Lemma formatEntries_keys_NoDup : NoDup (formatEntries.*1).
Proof. apply (bool_decide_unpack _). vm_compute. reflexivity. Qed.

Lemma formatEntries_bytes :
  Forall (fun e => 0 <= e.2 < 256) formatEntries.
Proof. apply (bool_decide_unpack _). vm_compute. reflexivity. Qed.

Lemma formatCodes_get_own (key : string) (n : Z) :
  (key, n) ∈ formatEntries -> formatCodes_get key = Some (number n).
Proof.
  intros Hin. unfold formatCodes_get, formatCodes.
  apply (elem_of_list_to_map (M := gmap string)) in Hin;
    [|exact formatEntries_keys_NoDup].
  rewrite Hin. reflexivity.
Qed.

Lemma formatCodes_get_None (key : string) :
  key ∉ formatEntries.*1 -> key ∉ objectPrototypeNames ->
  formatCodes_get key = None.
Proof.
  intros Hown Hproto. unfold formatCodes_get, formatCodes.
  apply (not_elem_of_list_to_map (M := gmap string)) in Hown. rewrite Hown.
  rewrite bool_decide_eq_false_2 by exact Hproto. reflexivity.
Qed.

(** C10, as amended.  [setFormat] validates only string arguments, and
    a string is looked up after lower-casing: when the lower-cased
    string is not a name of the table (names inherited from the object
    prototype left aside) the call throws the invalid-format error, which
    lists the valid names, and writes nothing; when the lower-cased string
    is a name of the table the call does not throw that error and, on a
    connected driver with a working port, writes ESC and the code of the
    table; a numeric argument is never rejected by validation and is
    written as ESC followed by the number as a byte. *)
Theorem setFormat_validation (terminal : nat -> Z -> Session)
    (code : FormatArg) (m : Minitel) :
  match code with
  | named name =>
      (toLowerCase name ∉ formatEntries.*1 ->
       toLowerCase name ∉ objectPrototypeNames ->
       setFormat terminal code m = (Throw (invalidFormat name), m)) /\
      (forall n, (toLowerCase name, n) ∈ formatEntries ->
         fst (setFormat terminal code m) ≠ Throw (invalidFormat name) /\
         (reliable terminal m ->
          setFormat terminal code m = (Return tt, sending [0x1B; n] m)))
  | numeric n =>
      (forall name, fst (setFormat terminal code m) ≠ Throw (invalidFormat name)) /\
      (reliable terminal m ->
       setFormat terminal code m = (Return tt, sending [0x1B; toUint8 n] m))
  end.
Proof.
  destruct code as [name|n]; cbn [setFormat].
  - split.
    + intros Hown Hproto. rewrite formatCodes_get_None by assumption. reflexivity.
    + intros n Hin. rewrite (formatCodes_get_own _ _ Hin). cbn [jsvalue_entry]. split.
      * apply write_not_validation. eexists. right. reflexivity.
      * intros Hrel. rewrite Buffer_from_bytes.
        -- apply write_reliable. exact Hrel.
        -- pose proof formatEntries_bytes as Hall. rewrite Forall_forall in Hall.
           specialize (Hall _ Hin). cbn in Hall.
           unfold CODES.ESC. repeat constructor; lia.
  - split.
    + intros name. apply write_not_validation. eexists. right. reflexivity.
    + intros Hrel. apply write_reliable. exact Hrel.
Qed.

(** C10, counterexample.  ["WHITE"] is not a name of the table, yet
    [setFormat("WHITE")] throws nothing and writes ESC 0x47. *)
Lemma setFormat_uppercase_name_accepted :
  ("WHITE" ∉ formatEntries.*1) /\
  setFormat (fun _ _ => silent) (named "WHITE") plugged
  = (Return tt, sending [0x1B; 0x47] plugged).
Proof.
  split.
  - apply (bool_decide_unpack _). vm_compute. reflexivity.
  - vm_compute. reflexivity.
Qed.

(** A name the table inherits from [Object.prototype] passes the test
    against [undefined] too; the entry written for it is 0. *)
Lemma setFormat_inherited_name :
  setFormat (fun _ _ => silent) (named "constructor") plugged
  = (Return tt, sending [0x1B; 0] plugged).
Proof. vm_compute. reflexivity. Qed.

(** Only two inherited names survive lower-casing. *)
Lemma inherited_lowercase_names (key : string) :
  key ∈ objectPrototypeNames -> toLowerCase key = key ->
  key = "constructor" \/ key = "__proto__".
Proof.
  intros Hin. unfold objectPrototypeNames in Hin.
  repeat (apply elem_of_cons in Hin as [->|Hin];
          [first [left; reflexivity | right; reflexivity
                 | vm_compute; intros H; discriminate H]|]).
  apply elem_of_nil in Hin. contradiction.
Qed.

(** ** Repeat compression *)

Lemma concat_map_replicate {A B} (f : A -> list B) (n : nat) (x : A) :
  concat (map f (replicate n x)) = concat (replicate n (f x)).
Proof. induction n as [|n IH]; [reflexivity|]. cbn. rewrite IH. reflexivity. Qed.

Lemma Forall_concat_replicate {A} (P : A -> Prop) (n : nat) (l : list A) :
  Forall P l -> Forall P (concat (replicate n l)).
Proof.
  intros Hl. induction n as [|n IH]; cbn; [constructor|].
  apply Forall_app. split; assumption.
Qed.

Lemma toUint8_range (v : Z) : 0 <= toUint8 v < 256.
Proof. unfold toUint8. apply Z.mod_pos_bound. lia. Qed.

Lemma repeatBlocks_small (char count : Z) :
  1 <= count <= 64 -> repeatBlocks char count = [repeatBlock char count].
Proof.
  intros H. unfold repeatBlocks.
  replace ((count - 1) / 64) with 0 by (symmetry; apply Z.div_small; lia).
  change (Z.to_nat 0) with O. cbn [replicate app]. do 2 f_equal. lia.
Qed.

Lemma repeatBlocks_large (char count : Z) :
  64 < count ->
  repeatBlocks char count = repeatBlock char 64 :: repeatBlocks char (count - 64).
Proof.
  intros H. unfold repeatBlocks.
  replace ((count - 1) / 64) with ((count - 64 - 1) / 64 + 1).
  2:{ replace (count - 1) with (count - 64 - 1 + 1 * 64) by lia.
      rewrite Z.div_add by lia. reflexivity. }
  assert (0 <= (count - 64 - 1) / 64) by (apply Z.div_pos; lia).
  rewrite Z2Nat.inj_add by lia.
  replace (Z.to_nat 1) with 1%nat by reflexivity.
  rewrite Nat.add_1_r. cbn [replicate app]. do 2 f_equal. f_equal. f_equal. lia.
Qed.

(** One call that does not recurse writes one block. *)
Lemma writeRepeated_rec_small terminal (bound : nat) (char count : Z) (m : Minitel) :
  isCodePoint char -> 1 <= count <= 64 -> reliable terminal m ->
  writeRepeated_rec terminal bound char count m
  = (Return tt, sending (repeatBlock char count) m).
Proof.
  intros Hcp Hn Hrel.
  assert (Heq : writeRepeated_rec terminal bound char count
                = if count <=? 3 then writeText terminal (repeat_char char count)
                  else write terminal
                         (Buffer_from [charCodeAt0 char; CODES.REP; count - 1 + 64])).
  { destruct bound; cbn [writeRepeated_rec];
      (destruct (Z.leb_spec count 0); [lia|]);
      (destruct (Z.leb_spec count 3); [reflexivity|]);
      (destruct (Z.leb_spec count 64); [reflexivity|lia]). }
  rewrite Heq. unfold repeatBlock.
  destruct (Z.leb_spec count 3).
  - unfold writeText, repeat_char. rewrite concat_map_replicate.
    rewrite Buffer_from_bytes
      by (apply Forall_concat_replicate, charToMinitel_bytes, Hcp).
    apply write_reliable. exact Hrel.
  - unfold Buffer_from. cbn [map].
    rewrite (toUint8_byte CODES.REP) by (unfold CODES.REP; lia).
    rewrite (toUint8_byte (count - 1 + 64)) by lia.
    apply write_reliable. exact Hrel.
Qed.

Lemma writeRepeated_rec_blocks terminal (char : Z) (bound : nat) :
  isCodePoint char ->
  forall (count : Z) (m : Minitel),
    1 <= count <= 64 * (Z.of_nat bound + 1) -> reliable terminal m ->
    exists m',
      writeRepeated_rec terminal bound char count m = (Return tt, m') /\
      reliable terminal m' /\
      sent m' = sent m ++ repeatBlocks char count.
Proof.
  intros Hcp. induction bound as [|bound IH]; intros count m Hn Hrel.
  - exists (sending (repeatBlock char count) m).
    rewrite writeRepeated_rec_small by (try assumption; lia).
    rewrite repeatBlocks_small by lia.
    split; [reflexivity|]. split; [apply write_reliable; exact Hrel|].
    apply sent_sending.
  - destruct (Z.leb_spec count 64) as [Hle|Hgt].
    + exists (sending (repeatBlock char count) m).
      rewrite writeRepeated_rec_small by (try assumption; lia).
      rewrite repeatBlocks_small by lia.
      split; [reflexivity|]. split; [apply write_reliable; exact Hrel|].
      apply sent_sending.
    + cbn [writeRepeated_rec].
      destruct (Z.leb_spec count 0); [lia|].
      destruct (Z.leb_spec count 3); [lia|].
      destruct (Z.leb_spec count 64); [lia|].
      unfold bind at 1.
      rewrite writeRepeated_rec_small by (try assumption; lia).
      pose proof (proj2 (write_reliable terminal (repeatBlock char 64) m Hrel)) as Hrel'.
      destruct (IH (count - 64) (sending (repeatBlock char 64) m)) as (m' & Hrun & Hrel'' & Hsent);
        [lia|exact Hrel'|].
      exists m'. split; [exact Hrun|]. split; [exact Hrel''|].
      rewrite Hsent, sent_sending, (repeatBlocks_large char count) by lia.
      rewrite <- app_assoc. reflexivity.
Qed.

(** C2, as amended.  On a connected driver with a working port,
    [writeRepeated(c, n)] with n >= 1 returns after writing exactly the
    blocks of [repeatBlocks]: for n <= 3 one buffer holding the n literal
    encodings of c; for 4 <= n <= 64 one buffer of three bytes, the byte
    that [Buffer.from] makes of the character code of c (the code itself
    when it is below 256), the REP byte 0x12 and n - 1 + 0x40; for n > 64
    the blocks of the chunks of at most 64 repetitions into which the
    recursion splits n, whole chunks of 64 first and the rest, between 1
    and 64, last; in every case ceil(n / 64) blocks. *)
Theorem writeRepeated_blocks (terminal : nat -> Z -> Session)
    (char count : Z) (m : Minitel) :
  isCodePoint char -> 1 <= count -> reliable terminal m ->
  fst (writeRepeated terminal char count m) = Return tt /\
  sent (snd (writeRepeated terminal char count m))
  = sent m ++ repeatBlocks char count /\
  length (repeatBlocks char count) = Z.to_nat ((count + 63) / 64) /\
  (count <= 3 ->
   repeatBlocks char count
   = [concat (replicate (Z.to_nat count) (charToMinitel char))]) /\
  (4 <= count <= 64 ->
   repeatBlocks char count = [[toUint8 (charCodeAt0 char); 0x12; count - 1 + 0x40]] /\
   (char < 256 -> toUint8 (charCodeAt0 char) = char)) /\
  (64 < count ->
   repeatBlocks char count
   = replicate (Z.to_nat ((count - 1) / 64)) [toUint8 (charCodeAt0 char); 0x12; 0x7F]
     ++ [repeatBlock char (count - 64 * ((count - 1) / 64))] /\
   1 <= count - 64 * ((count - 1) / 64) <= 64).
Proof.
  intros Hcp Hn Hrel.
  destruct (writeRepeated_rec_blocks terminal char (Z.to_nat count) Hcp count m)
    as (m' & Hrun & _ & Hsent); [lia|exact Hrel|].
  unfold writeRepeated. rewrite Hrun. cbn [fst snd].
  split; [reflexivity|]. split; [exact Hsent|].
  assert (Hfull : 0 <= (count - 1) / 64) by (apply Z.div_pos; lia).
  split; [|split; [|split]].
  - unfold repeatBlocks. rewrite length_app, length_replicate. cbn [length].
    replace (count + 63) with (count - 1 + 1 * 64) by lia.
    rewrite Z.div_add by lia. rewrite Z2Nat.inj_add by lia. reflexivity.
  - intros Hle. rewrite repeatBlocks_small by lia. unfold repeatBlock.
    destruct (Z.leb_spec count 3); [reflexivity|lia].
  - intros Hmid. split.
    + rewrite repeatBlocks_small by lia. unfold repeatBlock.
      destruct (Z.leb_spec count 3); [lia|reflexivity].
    + intros Hlt. unfold charCodeAt0. destruct Hcp as [Hlo _].
      destruct (Z.ltb_spec char 0x10000); [|lia].
      apply toUint8_byte. lia.
  - intros Hbig. split; [reflexivity|].
    pose proof (Z.mul_div_le (count - 1) 64).
    pose proof (Z.mul_succ_div_gt (count - 1) 64). lia.
Qed.

Lemma writeRepeated_blocks_witness :
  isCodePoint 0x2D /\ 1 <= 130 /\ reliable (fun _ _ => silent) plugged /\
  sent (snd (writeRepeated (fun _ _ => silent) 0x2D 130 plugged))
  = [[0x2D; 0x12; 0x7F]; [0x2D; 0x12; 0x7F]; [0x2D; 0x2D]].
Proof.
  assert (Hcp : isCodePoint 0x2D) by (unfold isCodePoint; lia).
  assert (Hn : 1 <= 130) by lia.
  assert (Hrel : reliable (fun _ _ => silent) plugged).
  { split; [reflexivity|]. eexists. split; [reflexivity|]. split; [reflexivity|].
    intros k _. reflexivity. }
  split; [exact Hcp|]. split; [exact Hn|]. split; [exact Hrel|].
  exact (proj1 (proj2
    (writeRepeated_blocks (fun _ _ => silent) 0x2D 130 plugged Hcp Hn Hrel))).
Defined.

(** C2, counterexample.  The character U+0153 is a key of the codec's
    table; [writeRepeated] of it four times writes 0x53, REP, 0x43: the
    first byte is not the character code 0x153, which no byte holds. *)
Lemma writeRepeated_wide_character :
  isCodePoint 0x153 /\ 0x153 ∈ accentEntries.*1 /\
  reliable (fun _ _ => silent) plugged /\
  sent (snd (writeRepeated (fun _ _ => silent) 0x153 4 plugged))
  = [[0x53; 0x12; 0x43]] /\
  [[0x53; 0x12; 0x43]] <> [[0x153; 0x12; 4 - 1 + 0x40]].
Proof.
  split; [unfold isCodePoint; lia|].
  split; [apply (bool_decide_unpack _); vm_compute; reflexivity|].
  split.
  - split; [reflexivity|]. eexists. split; [reflexivity|].
    split; [reflexivity|]. intros k _. reflexivity.
  - split; [vm_compute; reflexivity|discriminate].
Qed.

(** ** Input framer *)

(** Evaluate the event loop as far as the symbolic times allow. *)
Ltac framer_simpl := repeat (progress (cbn; rewrite ?Nat.eqb_refl)).

Lemma receive_idle (t : Z) (data : list Z) (s : Inbox) :
  idle s -> now s <= t ->
  armed data (t + 50) (receive t data s) /\
  delivered (receive t data s) = delivered s /\
  now (receive t data s) = t.
Proof.
  intros (Hb & Ht & He & Ho) Hnow.
  destruct s as [ib bt er nr od nw tm nh ws pr dl]; cbn in *; subst.
  unfold receive, advance, handleInputData, armed. cbn.
  rewrite Z.max_r by lia.
  destruct bt as [h|]; cbn; eauto 10.
Qed.

Lemma receive_armed_within (t deadline : Z) (buffer data : list Z) (s : Inbox) :
  armed buffer deadline s -> now s <= t -> t < deadline ->
  armed (buffer ++ data) (t + 50) (receive t data s) /\
  delivered (receive t data s) = delivered s /\
  now (receive t data s) = t.
Proof.
  intros (Hb & (h & Hbt & Ht) & He & Ho) Hnow Hlt.
  destruct s as [ib bt er nr od nw tm nh ws pr dl]; cbn in *; subst.
  unfold receive, advance, handleInputData, armed. cbn.
  destruct (Z.leb_spec deadline t); [lia|]. cbn.
  rewrite Z.max_r by lia.
  framer_simpl. eauto 10.
Qed.

Lemma advance_armed_early (T deadline : Z) (buffer : list Z) (s : Inbox) :
  armed buffer deadline s -> T < deadline ->
  armed buffer deadline (advance T s) /\ delivered (advance T s) = delivered s.
Proof.
  intros (Hb & (h & Hbt & Ht) & He & Ho) Hlt.
  destruct s as [ib bt er nr od nw tm nh ws pr dl]; cbn in *; subst.
  unfold advance, armed. cbn.
  destruct (Z.leb_spec deadline T); [lia|]. cbn. eauto 10.
Qed.

Lemma advance_armed_due (T deadline : Z) (buffer : list Z) (s : Inbox) :
  armed buffer deadline s -> buffer ≠ [] -> deadline <= T ->
  idle (advance T s) /\
  delivered (advance T s) = delivered s ++ [buffer] /\
  now (advance T s) = Z.max (now s) T.
Proof.
  intros (Hb & (h & Hbt & Ht) & He & Ho) Hne Hle.
  destruct s as [ib bt er nr od nw tm nh ws pr dl]; cbn in *; subst.
  unfold advance, idle. cbn.
  destruct (Z.leb_spec deadline T); [|lia]. cbn.
  destruct buffer as [|b buffer]; [congruence|]. cbn.
  framer_simpl.
  repeat split; lia.
Qed.

Lemma advance_armed_empty (T deadline : Z) (s : Inbox) :
  armed [] deadline s -> deadline <= T ->
  idle (advance T s) /\ delivered (advance T s) = delivered s.
Proof.
  intros (Hb & (h & Hbt & Ht) & He & Ho) Hle.
  destruct s as [ib bt er nr od nw tm nh ws pr dl]; cbn in *; subst.
  unfold advance, idle. cbn.
  destruct (Z.leb_spec deadline T); [|lia]. cbn.
  framer_simpl. repeat split.
Qed.

Lemma receive_armed_after (t deadline : Z) (buffer data : list Z) (s : Inbox) :
  armed buffer deadline s -> buffer ≠ [] -> now s <= t -> deadline <= t ->
  armed data (t + 50) (receive t data s) /\
  delivered (receive t data s) = delivered s ++ [buffer] /\
  now (receive t data s) = t.
Proof.
  intros (Hb & (h & Hbt & Ht) & He & Ho) Hne Hnow Hle.
  destruct s as [ib bt er nr od nw tm nh ws pr dl]; cbn in *; subst.
  unfold receive, advance, handleInputData, armed. cbn.
  destruct (Z.leb_spec deadline t); [|lia]. cbn.
  framer_simpl.
  destruct buffer as [|b buffer]; [congruence|]. cbn. cbn.
  replace (Z.max (Z.max nw deadline) t) with t by lia.
  framer_simpl. eauto 10.
Qed.

(** C6. [handleInputData] appends the received bytes to the accumulator,
    cancels the inactivity timer armed before and arms one due 50 ms
    later; when that timer fires on a non-empty accumulator the whole
    accumulated sequence is delivered as one event and the accumulator is
    empty afterwards (on an empty one nothing is delivered), and it does
    not fire earlier; so, on a framer at rest, two bytes less than 50 ms
    apart are delivered as one event of two bytes, and two bytes more than
    50 ms apart as two events of one byte. *)
Theorem framer_inactivity_window :
  (forall data s,
     inputBuffer (handleInputData data s) = inputBuffer s ++ data /\
     exists h,
       bufferTimeout (handleInputData data s) = Some h /\
       timers (handleInputData data s)
       = match bufferTimeout s with
         | Some h0 => List.filter (fun x => negb (Nat.eqb (handle x) h0)) (timers s)
         | None => timers s
         end ++ [{| handle := h; due := now s + 50; job := flushBuffer |}]) /\
  (forall buffer deadline T s,
     armed buffer deadline s -> buffer ≠ [] -> deadline <= T ->
     delivered (advance T s) = delivered s ++ [buffer] /\
     inputBuffer (advance T s) = [] /\ timers (advance T s) = []) /\
  (forall deadline T s,
     armed [] deadline s -> deadline <= T ->
     delivered (advance T s) = delivered s) /\
  (forall buffer deadline T s,
     armed buffer deadline s -> T < deadline ->
     delivered (advance T s) = delivered s /\ inputBuffer (advance T s) = buffer) /\
  (forall b1 b2 t1 t2 T s,
     idle s -> now s <= t1 <= t2 -> t2 < t1 + 50 -> t2 + 50 <= T ->
     delivered (advance T (receive t2 [b2] (receive t1 [b1] s)))
     = delivered s ++ [[b1; b2]]) /\
  (forall b1 b2 t1 t2 T s,
     idle s -> now s <= t1 -> t1 + 50 < t2 -> t2 + 50 <= T ->
     delivered (advance T (receive t2 [b2] (receive t1 [b1] s)))
     = delivered s ++ [[b1]; [b2]]).
Proof.
  split; [|split; [|split; [|split; [|split]]]].
  - intros data s. destruct s as [ib bt er nr od nw tm nh ws pr dl].
    unfold handleInputData. destruct bt as [h0|]; cbn; eauto.
  - intros buffer deadline T s Harmed Hne Hle.
    destruct (advance_armed_due T deadline buffer s Harmed Hne Hle)
      as ((Hb & Ht & _) & Hd & _).
    auto.
  - intros deadline T s Harmed Hle.
    apply (advance_armed_empty T deadline s Harmed Hle).
  - intros buffer deadline T s Harmed Hlt.
    destruct (advance_armed_early T deadline buffer s Harmed Hlt)
      as ((Hb & _) & Hd).
    auto.
  - intros b1 b2 t1 t2 T s Hidle Ht Hwin HT.
    destruct (receive_idle t1 [b1] s Hidle) as (Ha1 & Hd1 & Hn1); [lia|].
    destruct (receive_armed_within t2 (t1 + 50) [b1] [b2] _ Ha1)
      as (Ha2 & Hd2 & Hn2); [lia|lia|].
    destruct (advance_armed_due T (t2 + 50) _ _ Ha2) as (_ & Hd3 & _);
      [discriminate|lia|].
    rewrite Hd3, Hd2, Hd1. reflexivity.
  - intros b1 b2 t1 t2 T s Hidle Ht Hgap HT.
    destruct (receive_idle t1 [b1] s Hidle) as (Ha1 & Hd1 & Hn1); [lia|].
    destruct (receive_armed_after t2 (t1 + 50) [b1] [b2] _ Ha1)
      as (Ha2 & Hd2 & Hn2); [discriminate|lia|lia|].
    destruct (advance_armed_due T (t2 + 50) _ _ Ha2) as (_ & Hd3 & _);
      [discriminate|lia|].
    rewrite Hd3, Hd2, Hd1, <- app_assoc. reflexivity.
Qed.

(** ** Pending replies *)

Lemma firstExpected_Some (buffer : list Z) (l : list Expected) (i : nat) (e : Expected) :
  firstExpected buffer l = Some (i, e) <->
  l !! i = Some e /\ reply_predicate e buffer = true /\
  forall j e', (j < i)%nat -> l !! j = Some e' -> reply_predicate e' buffer = false.
Proof.
  revert i. induction l as [|x l IH]; intros i; cbn [firstExpected].
  - split; [discriminate|]. intros (H & _). discriminate H.
  - destruct (reply_predicate x buffer) eqn:Hx.
    + split.
      * intros [= <- <-]. split; [reflexivity|]. split; [exact Hx|]. lia.
      * intros (Hi & He & Hmin). destruct i as [|i].
        -- cbn in Hi. congruence.
        -- specialize (Hmin O x). cbn in Hmin. rewrite Hmin in Hx by (lia || reflexivity).
           discriminate.
    + destruct (firstExpected buffer l) as [[k e0]|] eqn:Hf; cbn.
      * split.
        -- intros [= <- <-]. destruct (proj1 (IH k) eq_refl) as (Hk & He & Hmin).
           split; [exact Hk|]. split; [exact He|].
           intros [|j] e' Hj Hl; cbn in Hl; [congruence|].
           apply (Hmin j); [lia|exact Hl].
        -- intros (Hi & He & Hmin). destruct i as [|i]; cbn in Hi; [congruence|].
           assert (Hgoal : Some (k, e0) = Some (i, e)).
           { apply IH. split; [exact Hi|]. split; [exact He|].
             intros j e' Hj Hl. apply (Hmin (S j)); [lia|exact Hl]. }
           congruence.
      * split; [discriminate|].
        intros (Hi & He & Hmin). destruct i as [|i]; cbn in Hi; [congruence|].
        assert (Hgoal : None = Some (i, e)); [|discriminate].
        apply IH. split; [exact Hi|]. split; [exact He|].
        intros j e' Hj Hl. apply (Hmin (S j)); [lia|exact Hl].
Qed.

Lemma firstExpected_None (buffer : list Z) (l : list Expected) :
  firstExpected buffer l = None <->
  Forall (fun e => reply_predicate e buffer = false) l.
Proof.
  induction l as [|x l IH]; cbn [firstExpected].
  - split; [constructor|reflexivity].
  - destruct (reply_predicate x buffer) eqn:Hx.
    + split; [discriminate|]. intros H. inversion H; congruence.
    + destruct (firstExpected buffer l) as [[k e0]|]; cbn.
      * split; [discriminate|]. intros H. inversion H as [|? ? _ Hl]; subst.
        apply IH in Hl. discriminate.
      * split; [|reflexivity]. intros _. constructor; [exact Hx|]. apply IH. reflexivity.
Qed.

(** The flush resolves the oldest pending reply whose predicate accepts
    the event, with exactly the flushed bytes, and does not call
    [onData]. *)
Lemma on_flush_expected (s : Inbox) (i : nat) (e : Expected) :
  inputBuffer s ≠ [] ->
  firstExpected (inputBuffer s) (expectedReplies s) = Some (i, e) ->
  delivered (on_flush s) = delivered s /\
  onData (on_flush s) = onData s /\
  inputBuffer (on_flush s) = [] /\
  expectedReplies (on_flush s) = delete i (expectedReplies s) /\
  (promises s !! reply_resolve e = Some None ->
   settled (reply_resolve e) (on_flush s) = Some (resolved (inputBuffer s))).
Proof.
  intros Hne Hf. unfold on_flush.
  destruct (inputBuffer s) as [|b buffer] eqn:Hb; [congruence|].
  cbn [expectedReplies set_inputBuffer]. rewrite Hf.
  unfold settle. cbn.
  destruct (promises s !! reply_resolve e) as [[o|]|] eqn:Hp; cbn;
    repeat split; try discriminate.
  intros _. unfold settled. cbn.
  rewrite list_lookup_insert_eq by (eapply lookup_lt_Some; exact Hp). reflexivity.
Qed.

(** An event no pending reply accepts goes to whatever [onData] holds. *)
Lemma on_flush_unmatched (s : Inbox) :
  inputBuffer s ≠ [] ->
  firstExpected (inputBuffer s) (expectedReplies s) = None ->
  on_flush s = call_onData (inputBuffer s) (set_inputBuffer [] s).
Proof.
  intros Hne Hf. unfold on_flush.
  destruct (inputBuffer s) as [|b buffer] eqn:Hb; [congruence|].
  cbn [expectedReplies set_inputBuffer]. rewrite Hf. reflexivity.
Qed.

(** The definition a call reaches registers no pending reply: it
    replaces [onData]. *)
Lemma waitForResponse_swaps_onData (predicate : list Z -> bool) (timeout : Z) (s : Inbox) :
  expectedReplies (snd (_waitForResponse predicate timeout s)) = expectedReplies s /\
  onData (snd (_waitForResponse predicate timeout s)) = collector (length (waits s)).
Proof. split; reflexivity. Qed.

(** C1.  While a wait registered by [_waitForResponse] is outstanding,
    an event that its predicate rejects is flushed, but the
    application's callback is not called: the wait registered no pending
    reply and took the place of [onData], so the event ends in the
    wait's own [responseData] and the wait stays pending.  With the first
    definition of [_waitForResponse] in the class the same event reaches
    the application.  (A wait of one second registered at time 0, the
    event received at 10 ms and flushed at 60 ms.) *)
Theorem flushed_event_during_wait_not_delivered
    (predicate : list Z -> bool) (data : list Z) :
  data ≠ [] -> predicate data = false ->
  let waiting := _waitForResponse predicate 1000 new_Inbox in
  let after := advance 60 (receive 10 data (snd waiting)) in
  expectedReplies (snd waiting) = [] /\
  onData (snd waiting) = collector 0 /\
  inputBuffer after = [] /\
  delivered after = [] /\
  responseData <$> waits after !! 0%nat = Some data /\
  settled (fst waiting) after = None /\
  delivered
    (advance 60
       (receive 10 data (snd (_waitForResponse_first predicate 1000 new_Inbox))))
  = [data].
Proof.
  intros Hne Hp. cbv zeta.
  split; [reflexivity|]. split; [reflexivity|].
  destruct data as [|b data]; [congruence|].
  vm_compute. rewrite Hp. repeat split.
Qed.

Lemma flushed_event_during_wait_not_delivered_witness :
  [0x41] ≠ [] /\ echoAcknowledgment [0x41] = false /\
  delivered
    (advance 60
       (receive 10 [0x41] (snd (_waitForResponse echoAcknowledgment 1000 new_Inbox))))
  = [].
Proof.
  assert (Hne : [0x41] ≠ @nil Z) by discriminate.
  assert (Hp : echoAcknowledgment [0x41] = false) by reflexivity.
  split; [exact Hne|]. split; [exact Hp|].
  exact (proj1 (proj2 (proj2 (proj2
    (flushed_event_during_wait_not_delivered echoAcknowledgment [0x41] Hne Hp))))).
Defined.

(** ** One outcome per wait *)

(** A single wait whose predicate accepts the first event: resolved with
    that event, its timer cancelled, the application's callback back in
    place; nothing is left to fire. *)
Lemma waitForResponse_resolves (predicate : list Z -> bool) (data : list Z) :
  data ≠ [] -> predicate data = true ->
  let waiting := _waitForResponse predicate 1000 new_Inbox in
  let after := advance 60 (receive 10 data (snd waiting)) in
  settled (fst waiting) after = Some (resolved data) /\
  onData after = application /\ timers after = [] /\ delivered after = [] /\
  settled (fst waiting) (advance 5000 after) = Some (resolved data).
Proof.
  intros Hne Hp. cbv zeta. destruct data as [|b data]; [congruence|].
  vm_compute. rewrite Hp. repeat split.
Qed.

(** A single wait that hears nothing: rejected when its timer fires, the
    application's callback back in place, and a later event goes to the
    application. *)
Lemma waitForResponse_times_out (predicate : list Z -> bool) (data : list Z) :
  data ≠ [] ->
  let waiting := _waitForResponse predicate 1000 new_Inbox in
  let after := advance 1000 (snd waiting) in
  settled (fst waiting) after
  = Some (rejected "Timeout en attente de réponse du Minitel") /\
  onData after = application /\ timers after = [] /\
  delivered (advance 2100 (receive 2000 data after)) = [data] /\
  settled (fst waiting) (advance 2100 (receive 2000 data after))
  = Some (rejected "Timeout en attente de réponse du Minitel").
Proof.
  intros Hne. cbv zeta. destruct data as [|b data]; [congruence|].
  vm_compute. repeat split.
Qed.

(** The first definition in the class keeps the promise of the
    specification also when an unrelated event comes first: the reply
    resolves the wait with its own bytes, and after a timeout the entry
    is gone. *)
Lemma waitForResponse_first_one_outcome :
  let reply := [0x01; 0x43; 0x75; 0x32; 0x04] in
  let waiting := _waitForResponse_first identificationReply 1000 new_Inbox in
  let heard := advance 2000 (receive 200 reply (receive 10 [0x41] (snd waiting))) in
  let unheard := advance 2000 (snd waiting) in
  settled (fst waiting) heard = Some (resolved reply) /\
  delivered heard = [[0x41]] /\ expectedReplies heard = [] /\
  settled (fst waiting) unheard
  = Some (rejected "Timeout waiting for Minitel response") /\
  expectedReplies unheard = [] /\
  delivered (advance 3100 (receive 3000 reply unheard)) = [reply].
Proof. vm_compute. repeat split. Qed.

(** C5.  Two runs of the [_waitForResponse] a call reaches.  In the
    first, one wait for the identification reply hears a stray byte and
    then the reply itself: the reply satisfies the predicate, yet the wait
    is not resolved (the closure tests the stray byte and the reply
    together) and is rejected when its timer fires.  In the second, a wait
    A of 100 ms is followed at 10 ms by a wait B of one second; both time
    out; B's cleanup puts A's closure back as [onData], so an event that
    arrives afterwards is matched by the wait that timed out long before,
    and never reaches the application. *)
Theorem waitForResponse_misses_reply_and_outlives_timeout :
  let reply := [0x01; 0x43; 0x75; 0x32; 0x04] in
  let timedOut := Some (rejected "Timeout en attente de réponse du Minitel") in
  let waiting := _waitForResponse identificationReply 1000 new_Inbox in
  let heard := advance 2000 (receive 200 reply (receive 10 [0x41] (snd waiting))) in
  let a := _waitForResponse identificationReply 100 new_Inbox in
  let b := _waitForResponse echoAcknowledgment 1000 (advance 10 (snd a)) in
  let lapsed := advance 2000 (snd b) in
  let later := advance 3100 (receive 3000 reply lapsed) in
  (identificationReply reply = true /\
   settled (fst waiting) heard = timedOut /\
   responseData <$> waits heard !! 0%nat = Some (0x41 :: reply)) /\
  (settled (fst a) lapsed = timedOut /\ settled (fst b) lapsed = timedOut /\
   timers lapsed = [] /\ onData lapsed = collector 0 /\
   delivered later = [] /\
   responseData <$> waits later !! 0%nat = Some reply /\
   onData later = application).
Proof. vm_compute. repeat split. Qed.

(** ** The wait of the identification query, as the event loop runs it *)

Lemma identificationReply_spec (data : list Z) :
  identificationReply data = true <->
  (5 <= length data)%nat /\ data !! 0%nat = Some 0x01.
Proof.
  unfold identificationReply. rewrite andb_true_iff, Z.leb_le, bool_decide_eq_true.
  unfold CODES.SOH. split; intros [Hl Hs]; (split; [lia|exact Hs]).
Qed.

Lemma deliver_cons (data : list Z) (events : list (list Z)) (s : Inbox) :
  deliver (data :: events) s = deliver events (call_onData data s).
Proof. reflexivity. Qed.

Lemma deliver_application (events : list (list Z)) :
  forall s, onData s = application ->
    deliver events s = set_delivered (delivered s ++ events) s.
Proof.
  induction events as [|data events IH]; intros s Ho.
  - destruct s; cbn in *. unfold set_delivered. cbn. rewrite app_nil_r. reflexivity.
  - rewrite deliver_cons. unfold call_onData. rewrite Ho. rewrite IH by exact Ho.
    destruct s; cbn in *. unfold set_delivered. cbn. rewrite <- app_assoc. reflexivity.
Qed.

(** [collect] is what the closure of a wait does with the events it is
    called with while it is installed: the wait is resolved with the
    first accumulated buffer its predicate accepts, and stays pending,
    accumulating, as long as there is none. *)
Lemma deliver_collects (events : list (list Z)) :
  forall (s : Inbox) (w : nat) (c : Wait),
    onData s = collector w -> waits s !! w = Some c ->
    originalOnData c = application ->
    promises s !! wait_promise c = Some None ->
    match collect (wait_predicate c) (responseData c) events with
    | Some response =>
        settled (wait_promise c) (deliver events s) = Some (resolved response) /\
        onData (deliver events s) = application
    | None =>
        settled (wait_promise c) (deliver events s) = None /\
        onData (deliver events s) = collector w /\
        responseData <$> waits (deliver events s) !! w
        = Some (responseData c ++ concat events)
    end.
Proof.
  induction events as [|data events IH]; intros s w c Ho Hw Horig Hp.
  - cbn [collect deliver foldl concat]. unfold settled. rewrite Hp, Hw, app_nil_r.
    repeat split; assumption.
  - cbn [collect]. rewrite deliver_cons.
    unfold call_onData. rewrite Ho. unfold on_collector. rewrite Hw.
    destruct (wait_predicate c (responseData c ++ data)) eqn:Hpred.
    + unfold settle, cleanup. cbn. rewrite Hp.
      rewrite deliver_application by exact Horig.
      unfold settled. cbn.
      rewrite list_lookup_insert_eq by (eapply lookup_lt_Some; exact Hp).
      split; [reflexivity|exact Horig].
    + set (c' := {| wait_predicate := wait_predicate c;
                    responseData := responseData c ++ data;
                    timer := timer c; originalOnData := originalOnData c;
                    wait_promise := wait_promise c |}).
      specialize (IH (set_waits (<[w := c']> (waits s)) s) w c').
      cbn [wait_predicate responseData wait_promise originalOnData c' onData
           set_waits waits promises] in IH.
      cbn [concat]. rewrite app_assoc.
      apply IH; try assumption.
      apply list_lookup_insert_eq. eapply lookup_lt_Some. exact Hw.
Qed.

(** The waiting state of a fresh driver satisfies the conditions of
    [deliver_collects], with an empty [responseData]: the reply
    [_queryDevice] obtains is [collect identificationReply []] of the
    events flushed before the timeout. *)
Lemma waitForResponse_collects (predicate : list Z -> bool) (timeout : Z)
    (events : list (list Z)) :
  let waiting := _waitForResponse predicate timeout new_Inbox in
  match collect predicate [] events with
  | Some response =>
      settled (fst waiting) (deliver events (snd waiting)) = Some (resolved response)
  | None => settled (fst waiting) (deliver events (snd waiting)) = None
  end.
Proof.
  cbv zeta.
  pose proof (deliver_collects events
                (snd (_waitForResponse predicate timeout new_Inbox)) 0%nat
                {| wait_predicate := predicate; responseData := [];
                   timer := 0; originalOnData := application; wait_promise := 0 |}
                eq_refl eq_refl eq_refl eq_refl) as H.
  cbn [wait_predicate responseData wait_promise] in H.
  destruct (collect predicate [] events); [apply H|apply H].
Qed.

(** ** Negotiation *)

Lemma collect_Some (predicate : list Z -> bool) (events : list (list Z)) :
  forall acc response,
    collect predicate acc events = Some response -> predicate response = true.
Proof.
  induction events as [|data events IH]; intros acc response; cbn [collect].
  - discriminate.
  - destruct (predicate (acc ++ data)) eqn:Hp.
    + intros [= <-]. exact Hp.
    + apply IH.
Qed.

(** Events none of which begins with SOH never add up to a reply, and
    a reply received first is what the wait resolves with. *)
Lemma collect_no_SOH (events : list (list Z)) :
  Forall (fun data => data !! 0%nat <> Some CODES.SOH) events ->
  forall acc, acc !! 0%nat <> Some CODES.SOH ->
    collect identificationReply acc events = None.
Proof.
  induction 1 as [|data events Hdata _ IH]; intros acc Hacc; cbn [collect];
    [reflexivity|].
  assert (Hbuffer : (acc ++ data) !! 0%nat <> Some CODES.SOH).
  { destruct acc as [|a acc]; [exact Hdata|exact Hacc]. }
  unfold identificationReply at 1.
  rewrite (bool_decide_eq_false_2 _ Hbuffer), andb_false_r.
  apply IH. exact Hbuffer.
Qed.

Lemma hearsNoSOH_timesOut (s : Session) : hearsNoSOH s -> timesOut s.
Proof.
  intros (Hopen & Hwrite & Hheard). split; [exact Hopen|]. split; [exact Hwrite|].
  unfold reply_of. apply collect_no_SOH; [exact Hheard|]. discriminate.
Qed.

Lemma unanswered_failsToAnswer (s : Session) : unanswered s -> failsToAnswer s.
Proof.
  intros [Hopen|Hquiet]; [left; exact Hopen|right].
  apply hearsNoSOH_timesOut. exact Hquiet.
Qed.

Lemma answersFirst_identifies (s : Session) (response : list Z) :
  answersFirst s response -> identifies s response.
Proof.
  intros (Hopen & Hw0 & Hw1 & Hreply & later & Hheard).
  split; [exact Hopen|]. split; [exact Hw0|]. split; [exact Hw1|].
  unfold reply_of. rewrite Hheard. cbn [collect app]. rewrite Hreply. reflexivity.
Qed.

Lemma minitel1B_answersFirst : answersFirst (minitel1B 0%nat 1200) minitel1B_reply.
Proof.
  split; [reflexivity|]. split; [reflexivity|]. split; [reflexivity|].
  split; [reflexivity|]. exists []. reflexivity.
Qed.

(** A buffer the identification predicate accepts always parses. *)
Lemma parseDeviceIdentification_reply (response : list Z) :
  identificationReply response = true ->
  exists info, parseDeviceIdentification response = Some info /\
               rawResponse info = response /\
               (maxSpeed info = 1200 \/ maxSpeed info = 4800 \/ maxSpeed info = 9600).
Proof.
  unfold identificationReply, parseDeviceIdentification.
  intros [Hlen Hsoh]%andb_true_iff.
  apply Z.leb_le in Hlen. apply bool_decide_eq_true in Hsoh.
  destruct (Z.ltb_spec (Z.of_nat (length response)) 5); [lia|].
  rewrite (bool_decide_eq_true_2 _ Hsoh). cbn [negb].
  destruct (typeLookup !! _) as [[n speed]|] eqn:Hl.
  - eexists. split; [reflexivity|]. split; [reflexivity|]. cbn [maxSpeed].
    apply (elem_of_list_to_map_2 (M := gmap (Z * Z))) in Hl.
    assert (Hall : Forall (fun e => e.2.2 = 1200 \/ e.2.2 = 4800 \/ e.2.2 = 9600)
                     typeEntries).
    { apply (bool_decide_unpack _). vm_compute. reflexivity. }
    rewrite Forall_forall in Hall. exact (Hall _ Hl).
  - eexists. split; [reflexivity|]. split; [reflexivity|]. cbn [maxSpeed].
    destruct (_ || _); auto.
Qed.

(** A candidate that opens and stays silent: the attempt throws, the
    loop of [connect] closes the port and goes on. *)
Lemma connect_loop_timeout terminal (rate : Z) (rates : list Z) (m : Minitel) :
  timesOut (terminal (opened m) rate) ->
  connect_loop terminal (rate :: rates) m
  = connect_loop terminal rates (after_timeout rate m).
Proof.
  intros (Hopen & Hwrite & Hreply). unfold reply_of in Hreply.
  cbn [connect_loop].
  unfold try_catch, _connectAtBaudRate, bind, act, newSerialPort, _queryDevice,
    port_write, bind, act, ret, _closePort, throw.
  cbn. rewrite Hopen. cbn. rewrite Hwrite. cbn. rewrite Hreply. cbn.
  unfold after_timeout, record, probe_timeout. cbn.
  rewrite <- !app_assoc. reflexivity.
Qed.

(** The candidate that answers, up to and including the screen clear. *)
Lemma connectAt_identified terminal (rate : Z) (response : list Z)
    (info : DeviceInfo) (m : Minitel) :
  identifies (terminal (opened m) rate) response ->
  parseDeviceIdentification response = Some info ->
  _connectAtBaudRate terminal rate true m
  = (let m' := after_identified rate info m in
     if options_autoUpgradeSpeed m' && (speed m' <? maxSpeed info)
     then
       try_catch
         (_upgradeSpeed terminal (maxSpeed info) ;;;
          fun m'' => act (record (LogSpeedRaised (speed m') (speed m''))) m'')
         (fun message => act (record (LogUpgradeFailed message))) m'
     else (Return tt, m')).
Proof.
  intros (Hopen & Hw0 & Hw1 & Hreply) Hparse. unfold reply_of in Hreply.
  unfold _connectAtBaudRate, bind, act, newSerialPort, _queryDevice,
    port_write_unawaited, clear, write, port_write, bind, act, ret, throw.
  cbn. rewrite Hopen. cbn. rewrite Hw0. cbn. rewrite Hreply, Hparse. cbn.
  rewrite Hw1. cbn.
  unfold after_identified, record, probe_identified, speed. cbn.
  rewrite <- !app_assoc. reflexivity.
Qed.

Ltac upgrade_done :=
  repeat split; try assumption; try reflexivity;
  eexists; rewrite <- ?app_assoc; reflexivity.

(** What an upgrade attempt on an open port, successful or not, leaves
    untouched, and that the attempt as a whole returns. *)
Lemma upgrade_attempt_returns terminal (newSpeed initialSpeed : Z) (m : Minitel) :
  (isOpen <$> port m) = Some true ->
  let attempt :=
    try_catch
      (_upgradeSpeed terminal newSpeed ;;;
       fun m'' => act (record (LogSpeedRaised initialSpeed (speed m''))) m'')
      (fun message => act (record (LogUpgradeFailed message))) m in
  fst attempt = Return tt /\
  deviceInfo (snd attempt) = deviceInfo m /\
  isConnected (snd attempt) = isConnected m /\
  exists tail, journal (snd attempt) = journal m ++ tail.
Proof.
  intros Hport. cbv zeta.
  unfold try_catch, _upgradeSpeed, bind, act, write, port_write, bind, ret, throw,
    _sleep, _closePort, newSerialPort, act.
  destruct (speedCodes !! newSpeed) as [speedCode|]; cbn; [|upgrade_done].
  destruct (isConnected m) eqn:Hc; cbn; [|upgrade_done].
  destruct (port m) as [p|]; cbn in Hport |- *; [|discriminate].
  injection Hport as Ho. rewrite Ho. cbn.
  destruct (writeError _ _); cbn; [upgrade_done|].
  destruct (openError _); cbn; upgrade_done.
Qed.

(** The candidate that answers ends the loop of [connect] with success,
    whatever a speed upgrade then does; without an upgrade the driver is
    left on that candidate's port, at that candidate's speed. *)
Lemma connect_loop_identified terminal (rate : Z) (rates : list Z)
    (response : list Z) (info : DeviceInfo) (m : Minitel) :
  identifies (terminal (opened m) rate) response ->
  parseDeviceIdentification response = Some info ->
  fst (connect_loop terminal (rate :: rates) m) = Return tt /\
  deviceInfo (snd (connect_loop terminal (rate :: rates) m)) = Some info /\
  isConnected (snd (connect_loop terminal (rate :: rates) m)) = true /\
  exists tail,
    journal (snd (connect_loop terminal (rate :: rates) m))
    = journal m ++ probe_identified rate info ++ tail /\
    (options_autoUpgradeSpeed m = false \/ maxSpeed info <= rate ->
     tail = [] /\
     snd (connect_loop terminal (rate :: rates) m) = after_identified rate info m).
Proof.
  intros Hid Hparse.
  assert (Hattempt :
    exists m' tail,
      _connectAtBaudRate terminal rate true m = (Return tt, m') /\
      deviceInfo m' = Some info /\ isConnected m' = true /\
      journal m' = journal m ++ probe_identified rate info ++ tail /\
      (options_autoUpgradeSpeed m = false \/ maxSpeed info <= rate ->
       tail = [] /\ m' = after_identified rate info m)).
  { rewrite (connectAt_identified terminal rate response info m Hid Hparse).
    cbv zeta.
    destruct (options_autoUpgradeSpeed (after_identified rate info m)
              && (speed (after_identified rate info m) <? maxSpeed info)) eqn:Hup.
    - pose proof (upgrade_attempt_returns terminal (maxSpeed info)
                    (speed (after_identified rate info m))
                    (after_identified rate info m) eq_refl) as Hup'.
      cbv zeta in Hup'.
      destruct (try_catch _ _ (after_identified rate info m)) as [r m'] eqn:Ht.
      cbn [fst snd] in Hup'. destruct Hup' as (-> & Hd & Hc & tail & Hj).
      exists m', tail. split; [reflexivity|]. split; [exact Hd|]. split; [exact Hc|].
      split.
      + rewrite Hj. cbn [after_identified journal]. rewrite <- app_assoc. reflexivity.
      + apply andb_true_iff in Hup as [Hauto Hlt].
        cbn in Hauto, Hlt. apply Z.ltb_lt in Hlt.
        intros [Hoff|Hle]; [congruence|lia].
    - exists (after_identified rate info m), [].
      split; [reflexivity|]. split; [reflexivity|]. split; [reflexivity|]. split.
      + cbn [after_identified journal]. rewrite app_nil_r. reflexivity.
      + intros _. split; reflexivity. }
  destruct Hattempt as (m' & tail & Hrun & Hd & Hc & Hj & Hplain).
  cbn [connect_loop]. unfold try_catch. rewrite Hrun. cbn [fst snd].
  split; [reflexivity|]. split; [exact Hd|]. split; [exact Hc|].
  exists tail. split; [exact Hj|exact Hplain].
Qed.

Lemma connect_loop_unopened terminal (rate : Z) (rates : list Z) (m : Minitel)
    (message : string) :
  openError (terminal (opened m) rate) = Some message ->
  connect_loop terminal (rate :: rates) m
  = connect_loop terminal rates (after_unopened rate m).
Proof.
  intros Hopen. cbn [connect_loop].
  unfold try_catch, _connectAtBaudRate, bind, act, newSerialPort, ret, _closePort, throw.
  cbn. rewrite Hopen. cbn. reflexivity.
Qed.

(** A candidate that fails, either way: the loop goes on to the next. *)
Lemma connect_loop_failed terminal (rate : Z) (rates : list Z) (m : Minitel) :
  failsToAnswer (terminal (opened m) rate) ->
  connect_loop terminal (rate :: rates) m
  = connect_loop terminal rates (after_failed (terminal (opened m) rate) rate m).
Proof.
  unfold after_failed. intros [[message Hopen]|Hquiet].
  - rewrite Hopen. apply (connect_loop_unopened _ _ _ _ message Hopen).
  - pose proof Hquiet as (Hopen & _). rewrite Hopen.
    apply connect_loop_timeout. exact Hquiet.
Qed.

Lemma after_failed_facts (s : Session) (rate : Z) (m : Minitel) :
  opened (after_failed s rate m) = S (opened m) /\
  journal (after_failed s rate m) = journal m ++ probe_failed s rate /\
  options_autoUpgradeSpeed (after_failed s rate m) = options_autoUpgradeSpeed m.
Proof.
  unfold after_failed, probe_failed. destruct (openError s); repeat split.
Qed.

(** What one attempt at one speed always does: it constructs one port,
    or two when it goes as far as the speed upgrade; when it returns the
    driver is connected and holds a descriptor; when it throws, exactly
    one port was constructed and the driver holds it. *)
Lemma connectAt_outcome terminal (rate : Z) (isAutoDetect : bool) (m : Minitel) :
  let attempt := _connectAtBaudRate terminal rate isAutoDetect m in
  (fst attempt = Return tt /\ isConnected (snd attempt) = true /\
   is_Some (deviceInfo (snd attempt))) \/
  ((exists message, fst attempt = Throw message) /\
   opened (snd attempt) = S (opened m) /\
   exists p, port (snd attempt) = Some p /\ session p = opened m).
Proof.
  cbv zeta.
  unfold _connectAtBaudRate, bind, act, newSerialPort, _queryDevice,
    port_write_unawaited, clear, write, port_write, bind, act, ret, throw, _sleep.
  cbn.
  destruct (openError (terminal (opened m) rate)) as [message|] eqn:Hopen; cbn.
  { right. split; [eauto|]. split; [reflexivity|]. eexists. split; reflexivity. }
  destruct isAutoDetect; cbn.
  - destruct (writeError (terminal (opened m) rate) 0%nat) as [e0|] eqn:Hw0; cbn.
    all: destruct (collect identificationReply [] (heard (terminal (opened m) rate)))
      as [response|] eqn:Hreply; cbn;
      [|right; split; [eauto|]; split; [reflexivity|]; eexists; split; reflexivity].
    all: destruct (parseDeviceIdentification response) as [info|] eqn:Hparse; cbn;
      [|right; split; [eauto|]; split; [reflexivity|]; eexists; split; reflexivity].
    all: destruct (writeError (terminal (opened m) rate) 1%nat) as [e1|] eqn:Hw1; cbn;
      [right; split; [eauto|]; split; [reflexivity|]; eexists; split; reflexivity|].
    all: match goal with
         | |- context [if ?c then _ else _] => destruct c
         end;
      [|left; cbn; split; [reflexivity|]; split; [reflexivity|]; eauto].
    all: match goal with
         | |- context [try_catch ?c ?h ?m0] =>
             assert (Hup : fst (try_catch c h m0) = Return tt /\
                           deviceInfo (snd (try_catch c h m0)) = deviceInfo m0 /\
                           isConnected (snd (try_catch c h m0)) = isConnected m0 /\
                           exists tail,
                             journal (snd (try_catch c h m0)) = journal m0 ++ tail)
               by exact (upgrade_attempt_returns terminal (maxSpeed info) rate m0 eq_refl);
             destruct Hup as (Hr & Hd & Hc & _)
         end;
      left; split; [exact Hr|]; rewrite Hc, Hd; cbn; split; [reflexivity|eauto].
  - destruct (writeError (terminal (opened m) rate) 0%nat) as [e0|] eqn:Hw0; cbn.
    all: destruct (collect identificationReply [] (heard (terminal (opened m) rate)))
      as [response|] eqn:Hreply; cbn;
      [|right; split; [eauto|]; split; [reflexivity|]; eexists; split; reflexivity].
    all: destruct (parseDeviceIdentification response) as [info|] eqn:Hparse; cbn;
      [|right; split; [eauto|]; split; [reflexivity|]; eexists; split; reflexivity].
    all: destruct (writeError (terminal (opened m) rate) 1%nat) as [e1|] eqn:Hw1; cbn;
      [right; split; [eauto|]; split; [reflexivity|]; eexists; split; reflexivity|].
    all: match goal with
         | |- context [if ?c then _ else _] => destruct c
         end;
      [|left; cbn; split; [reflexivity|]; split; [reflexivity|]; eauto].
    all: match goal with
         | |- context [try_catch ?c ?h ?m0] =>
             assert (Hup : fst (try_catch c h m0) = Return tt /\
                           deviceInfo (snd (try_catch c h m0)) = deviceInfo m0 /\
                           isConnected (snd (try_catch c h m0)) = isConnected m0 /\
                           exists tail,
                             journal (snd (try_catch c h m0)) = journal m0 ++ tail)
               by exact (upgrade_attempt_returns terminal (maxSpeed info) rate m0 eq_refl);
             destruct Hup as (Hr & Hd & Hc & _)
         end;
      left; split; [exact Hr|]; rewrite Hc, Hd; cbn; split; [reflexivity|eauto].
Qed.

(** In ['auto'] mode [connect] returns or throws the detection error:
    no other error escapes the loop. *)
Lemma connect_loop_outcome terminal (rates : list Z) :
  forall m,
    fst (connect_loop terminal rates m) = Return tt \/
    fst (connect_loop terminal rates m) = Throw noMinitelFound.
Proof.
  induction rates as [|rate rates IH]; intros m; cbn [connect_loop].
  - right. reflexivity.
  - unfold try_catch.
    pose proof (connectAt_outcome terminal rate true m) as Hsettles.
    cbv zeta in Hsettles.
    destruct (_connectAtBaudRate terminal rate true m) as [[[]|e|] m'].
    + left. reflexivity.
    + unfold bind, _closePort.
      destruct (port m') as [p|]; [destruct (isOpen p)|]; apply IH.
    + cbn [fst] in Hsettles.
      destruct Hsettles as [(Habs & _)|((message & Habs) & _)]; discriminate.
Qed.

(** The loop of [connect] in terms of what the wait of each candidate
    yields: when all three candidates fail (the port does not open, or
    the wait times out) [connect] throws the detection error; the first
    candidate on which the wait resolves, the earlier ones having failed,
    makes [connect] return, the terminal identified at that candidate's
    speed, and the driver is left at that speed unless a speed upgrade is
    then attempted. *)
Lemma connect_auto_collected (terminal : nat -> Z -> Session)
    (autoUpgradeSpeed : bool) :
  let m0 := new_Minitel auto autoUpgradeSpeed in
  ((forall (k : nat) rate, baudRates !! k = Some rate ->
                           failsToAnswer (terminal k rate)) ->
   fst (connect terminal m0) = Throw noMinitelFound /\
   journal (snd (connect terminal m0))
   = probe_failed (terminal 0%nat 1200) 1200
     ++ probe_failed (terminal 1%nat 4800) 4800
     ++ probe_failed (terminal 2%nat 9600) 9600) /\
  (forall (k : nat) rate response,
     baudRates !! k = Some rate ->
     (forall (j : nat) r, (j < k)%nat -> baudRates !! j = Some r ->
                          failsToAnswer (terminal j r)) ->
     identifies (terminal k rate) response ->
     identificationReply response = true /\
     exists info tail,
       parseDeviceIdentification response = Some info /\
       fst (connect terminal m0) = Return tt /\
       deviceInfo (snd (connect terminal m0)) = Some info /\
       isConnected (snd (connect terminal m0)) = true /\
       journal (snd (connect terminal m0))
       = concat (imap (fun j r => probe_failed (terminal j r) r) (take k baudRates))
         ++ probe_identified rate info ++ tail /\
       (autoUpgradeSpeed = false \/ maxSpeed info <= rate ->
        tail = [] /\
        currentBaudRate (snd (connect terminal m0)) = Some rate /\
        port (snd (connect terminal m0))
        = Some {| baudRate := rate; isOpen := true; session := k; written := 2 |})).
Proof.
  cbv zeta.
  set (m0 := new_Minitel auto autoUpgradeSpeed).
  set (m1 := after_failed (terminal 0%nat 1200) 1200 m0).
  set (m2 := after_failed (terminal 1%nat 4800) 4800 m1).
  set (m3 := after_failed (terminal 2%nat 9600) 9600 m2).
  assert (H1 : opened m1 = 1%nat) by apply after_failed_facts.
  assert (H2 : opened m2 = 2%nat)
    by (unfold m2; rewrite (proj1 (after_failed_facts _ _ _)), H1; reflexivity).
  assert (J1 : journal m1 = probe_failed (terminal 0%nat 1200) 1200)
    by apply after_failed_facts.
  assert (J2 : journal m2 = probe_failed (terminal 0%nat 1200) 1200
                            ++ probe_failed (terminal 1%nat 4800) 4800).
  { unfold m2. rewrite (proj1 (proj2 (after_failed_facts _ _ _))), J1. reflexivity. }
  assert (U1 : options_autoUpgradeSpeed m1 = autoUpgradeSpeed) by apply after_failed_facts.
  assert (U2 : options_autoUpgradeSpeed m2 = autoUpgradeSpeed).
  { unfold m2. rewrite (proj2 (proj2 (after_failed_facts _ _ _))). exact U1. }
  assert (L1 : failsToAnswer (terminal 0%nat 1200) ->
               connect_loop terminal [1200; 4800; 9600] m0
               = connect_loop terminal [4800; 9600] m1).
  { intros Hf. apply (connect_loop_failed terminal 1200 _ m0 Hf). }
  assert (L2 : failsToAnswer (terminal 1%nat 4800) ->
               connect_loop terminal [4800; 9600] m1 = connect_loop terminal [9600] m2).
  { intros Hf. unfold m2. rewrite <- H1.
    apply (connect_loop_failed terminal 4800 _ m1). rewrite H1. exact Hf. }
  assert (L3 : failsToAnswer (terminal 2%nat 9600) ->
               connect_loop terminal [9600] m2 = connect_loop terminal [] m3).
  { intros Hf. unfold m3. rewrite <- H2.
    apply (connect_loop_failed terminal 9600 _ m2). rewrite H2. exact Hf. }
  split.
  - intros Hall. unfold connect. cbn [options_baudRate m0 new_Minitel]. unfold baudRates.
    rewrite L1 by (apply (Hall 0%nat); reflexivity).
    rewrite L2 by (apply (Hall 1%nat); reflexivity).
    rewrite L3 by (apply (Hall 2%nat); reflexivity).
    cbn [connect_loop throw fst snd]. split; [reflexivity|].
    unfold m3. rewrite (proj1 (proj2 (after_failed_facts _ _ _))), J2.
    rewrite <- app_assoc. reflexivity.
  - intros k rate response Hk Hbefore Hid.
    assert (Hreply : identificationReply response = true).
    { destruct Hid as (_ & _ & _ & Hr). apply (collect_Some _ _ _ _ Hr). }
    split; [exact Hreply|].
    destruct (parseDeviceIdentification_reply response Hreply) as (info & Hparse & _).
    exists info.
    unfold connect. cbn [options_baudRate m0 new_Minitel]. unfold baudRates in *.
    destruct k as [|[|[|k]]]; cbn in Hk; try discriminate; injection Hk as <-.
    + destruct (connect_loop_identified terminal 1200 [4800; 9600] response info
                  m0 Hid Hparse)
        as (Hr & Hd & Hc & tail & Hj & Hplain).
      exists tail. split; [exact Hparse|]. split; [exact Hr|]. split; [exact Hd|].
      split; [exact Hc|]. split; [exact Hj|].
      intros Hno. destruct (Hplain Hno) as (-> & Heq). rewrite Heq. repeat split.
    + rewrite L1 by (apply (Hbefore 0%nat); [lia|reflexivity]).
      rewrite <- H1 in Hid.
      destruct (connect_loop_identified terminal 4800 [9600] response info
                  m1 Hid Hparse)
        as (Hr & Hd & Hc & tail & Hj & Hplain).
      exists tail. split; [exact Hparse|]. split; [exact Hr|]. split; [exact Hd|].
      split; [exact Hc|]. split.
      { rewrite Hj, J1. f_equal. cbn. rewrite app_nil_r. reflexivity. }
      rewrite U1 in Hplain.
      intros Hno. destruct (Hplain Hno) as (-> & Heq). rewrite Heq.
      cbn [after_identified currentBaudRate port]. rewrite H1. repeat split.
    + rewrite L1 by (apply (Hbefore 0%nat); [lia|reflexivity]).
      rewrite L2 by (apply (Hbefore 1%nat); [lia|reflexivity]).
      rewrite <- H2 in Hid.
      destruct (connect_loop_identified terminal 9600 [] response info
                  m2 Hid Hparse)
        as (Hr & Hd & Hc & tail & Hj & Hplain).
      exists tail. split; [exact Hparse|]. split; [exact Hr|]. split; [exact Hd|].
      split; [exact Hc|]. split.
      { rewrite Hj, J2. f_equal. cbn. rewrite app_nil_r. reflexivity. }
      rewrite U2 in Hplain.
      intros Hno. destruct (Hplain Hno) as (-> & Heq). rewrite Heq.
      cbn [after_identified currentBaudRate port]. rewrite H2. repeat split.
Qed.

(** C3, as amended.  With ['auto'], [connect] probes 1200, 4800 and
    9600 bauds in that order: at each candidate it opens the port, sends
    the identification query and awaits, for 200 ms, a reply of at least
    five bytes that starts with SOH; a candidate whose port opens and
    takes the query, and at which no event received during the wait
    begins with SOH, times out and has its port closed before the next
    one is opened; when all three fail in that way or by a port that does
    not open, [connect] throws the detection error; the first candidate
    at which the first event received during the wait is such a reply
    (the port taking the query and the screen clear), the earlier ones
    having failed in that way, makes [connect] succeed, the terminal
    identified at that candidate's speed, and the driver is left at that
    speed unless a speed upgrade is then attempted (upgrade enabled and
    the terminal's maximum speed above the candidate's).  A candidate
    whose reply comes after other input is left out. *)
Theorem connect_auto_probes_in_order (terminal : nat -> Z -> Session)
    (autoUpgradeSpeed : bool) :
  let m0 := new_Minitel auto autoUpgradeSpeed in
  ((forall (k : nat) rate, baudRates !! k = Some rate ->
                           unanswered (terminal k rate)) ->
   fst (connect terminal m0) = Throw noMinitelFound /\
   journal (snd (connect terminal m0))
   = probe_failed (terminal 0%nat 1200) 1200
     ++ probe_failed (terminal 1%nat 4800) 4800
     ++ probe_failed (terminal 2%nat 9600) 9600) /\
  (forall (k : nat) rate response,
     baudRates !! k = Some rate ->
     (forall (j : nat) r, (j < k)%nat -> baudRates !! j = Some r ->
                          unanswered (terminal j r)) ->
     answersFirst (terminal k rate) response ->
     exists info tail,
       parseDeviceIdentification response = Some info /\
       fst (connect terminal m0) = Return tt /\
       deviceInfo (snd (connect terminal m0)) = Some info /\
       isConnected (snd (connect terminal m0)) = true /\
       journal (snd (connect terminal m0))
       = concat (imap (fun j r => probe_failed (terminal j r) r) (take k baudRates))
         ++ probe_identified rate info ++ tail /\
       (autoUpgradeSpeed = false \/ maxSpeed info <= rate ->
        tail = [] /\
        currentBaudRate (snd (connect terminal m0)) = Some rate /\
        port (snd (connect terminal m0))
        = Some {| baudRate := rate; isOpen := true; session := k; written := 2 |})).
Proof.
  cbv zeta.
  destruct (connect_auto_collected terminal autoUpgradeSpeed) as [Hnone Hfirst].
  cbv zeta in Hnone, Hfirst. split.
  - intros Hall. apply Hnone. intros k rate Hk.
    apply unanswered_failsToAnswer, (Hall k rate Hk).
  - intros k rate response Hk Hbefore Hanswer.
    apply (Hfirst k rate response Hk).
    + intros j r Hj Hr. apply unanswered_failsToAnswer, (Hbefore j r Hj Hr).
    + apply answersFirst_identifies. exact Hanswer.
Qed.

(** C3, counterexample.  A Minitel 1B answers the first candidate,
    1200 bauds; with the default options [connect] succeeds and leaves the
    driver at 4800 bauds, on a port reopened at that speed. *)
Lemma connect_auto_speed_after_upgrade :
  identifies (minitel1B 0%nat 1200) minitel1B_reply /\
  fst (connect minitel1B (new_Minitel auto true)) = Return tt /\
  currentBaudRate (snd (connect minitel1B (new_Minitel auto true))) = Some 4800 /\
  (baudRate <$> port (snd (connect minitel1B (new_Minitel auto true)))) = Some 4800.
Proof. vm_compute. repeat split. Qed.

(** ** Speed upgrade *)

(** The upgrade on a connected driver with a working port, when the port
    opens again: the speed-change command, a pause, the port closed and
    opened at the new speed. *)
Lemma upgradeSpeed_reopens terminal (newSpeed speedCode : Z) (m : Minitel) :
  reliable terminal m ->
  speedCodes !! newSpeed = Some speedCode -> 0 <= speedCode < 256 ->
  openError (terminal (opened m) newSpeed) = None ->
  fst (_upgradeSpeed terminal newSpeed m) = Return tt /\
  journal (snd (_upgradeSpeed terminal newSpeed m))
  = journal m ++ [Sent [0x1B; 0x3A; 0x6B; speedCode]; Slept 300; Closed;
                  Opened newSpeed; Slept 200] /\
  currentBaudRate (snd (_upgradeSpeed terminal newSpeed m)) = Some newSpeed /\
  port (snd (_upgradeSpeed terminal newSpeed m))
  = Some {| baudRate := newSpeed; isOpen := true; session := opened m; written := 0 |}.
Proof.
  intros (Hc & p & Hp & Ho & Hw) Hcode Hbyte Hopen.
  unfold _upgradeSpeed. rewrite Hcode.
  unfold bind, act, write, port_write, bind, ret, throw, _sleep, _closePort,
    newSerialPort, act.
  rewrite Hc, Hp. cbn. rewrite Ho. cbn. rewrite (Hw (written p)) by lia. cbn.
  rewrite ?Ho. cbn. rewrite Hopen. cbn.
  rewrite (toUint8_byte speedCode) by exact Hbyte.
  rewrite <- !app_assoc. repeat split.
Qed.

(** When the write of the speed-change command fails the attempt throws
    with the driver where it was: same speed, same open port. *)
Lemma upgradeSpeed_write_failure terminal (newSpeed speedCode : Z) (m : Minitel)
    (p : SerialPort) (message : string) :
  isConnected m = true -> port m = Some p -> isOpen p = true ->
  speedCodes !! newSpeed = Some speedCode ->
  writeError (terminal (session p) (baudRate p)) (written p) = Some message ->
  fst (_upgradeSpeed terminal newSpeed m)
  = Throw ("Erreur d'écriture: " +:+ message) /\
  currentBaudRate (snd (_upgradeSpeed terminal newSpeed m)) = currentBaudRate m /\
  journal (snd (_upgradeSpeed terminal newSpeed m)) = journal m /\
  (isOpen <$> port (snd (_upgradeSpeed terminal newSpeed m))) = Some true.
Proof.
  intros Hc Hp Ho Hcode Hw.
  unfold _upgradeSpeed. rewrite Hcode.
  unfold bind, act, write, port_write, bind, ret, throw.
  rewrite Hc, Hp. cbn. rewrite Ho. cbn. rewrite Hw. cbn.
  rewrite ?Ho. repeat split.
Qed.

(** C4.  A Minitel 1B answers at 1200 bauds on a line that cannot be
    opened a second time.  The driver sends the speed-change command,
    closes the port and fails to reopen it; [connect] still returns and
    the failure is logged, but the driver is not at the original speed on
    a usable link: it records 4800 bauds and holds a port that is not
    open, on which the next command never settles (it neither returns
    nor throws, and writes nothing). *)
Theorem connect_upgrade_reopen_failure :
  let result := connect minitel1B_busy_line (new_Minitel auto true) in
  fst result = Return tt /\
  sent (snd result) = [identificationQuery; [0x0C]; [0x1B; 0x3A; 0x6B; 0x76]] /\
  last (journal (snd result))
  = Some (LogUpgradeFailed "Erreur de reconnexion: Resource busy") /\
  isConnected (snd result) = true /\
  currentBaudRate (snd result) = Some 4800 /\
  port (snd result)
  = Some {| baudRate := 4800; isOpen := false; session := 1; written := 0 |} /\
  clear minitel1B_busy_line (snd result) = (Pending, snd result).
Proof. vm_compute. repeat split. Qed.

(** * Further properties *)

(** ** Device descriptor *)

Lemma typeEntries_speeds :
  Forall (fun e => e.2.2 = 1200 \/ e.2.2 = 4800 \/ e.2.2 = 9600) typeEntries.
Proof. apply (bool_decide_unpack _). vm_compute. reflexivity. Qed.

Lemma parsed_maxSpeed (data : list Z) (info : DeviceInfo) :
  parseDeviceIdentification data = Some info ->
  maxSpeed info = 1200 \/ maxSpeed info = 4800 \/ maxSpeed info = 9600.
Proof.
  unfold parseDeviceIdentification.
  destruct (_ <? 5); [discriminate|].
  destruct (negb _); [discriminate|].
  destruct (typeLookup !! _) as [[n speed]|] eqn:Hl.
  - intros [= <-]. cbn [maxSpeed].
    apply (elem_of_list_to_map_2 (M := gmap (Z * Z))) in Hl.
    pose proof typeEntries_speeds as Hall.
    rewrite Forall_forall in Hall. exact (Hall _ Hl).
  - intros [= <-]. cbn [maxSpeed]. destruct (_ || _); auto.
Qed.

(** X1. [parseDeviceIdentification] returns null exactly on a buffer of
    fewer than five bytes or one that does not start with SOH.  A
    descriptor it returns holds the bytes 1, 2 and 3 of the buffer as
    constructeur, type and version and the buffer itself as raw
    response, and its maximum speed is one [_upgradeSpeed] has a
    programming byte for.  The maximum speed depends neither on the
    version byte nor on what follows it (the fifth byte is not compared
    with EOT). *)
Theorem parseDeviceIdentification_fields (data : list Z) :
  (parseDeviceIdentification data = None <->
   (length data < 5)%nat \/ data !! 0%nat ≠ Some CODES.SOH) /\
  (forall info, parseDeviceIdentification data = Some info ->
     data !! 1%nat = Some (constructeur info) /\
     data !! 2%nat = Some (type info) /\
     data !! 3%nat = Some (version info) /\
     rawResponse info = data /\
     exists speedCode, speedCodes !! maxSpeed info = Some speedCode /\
                       0 <= speedCode < 256) /\
  (forall c t v v' tail tail',
     tail ≠ [] -> tail' ≠ [] ->
     maxSpeed <$> parseDeviceIdentification (CODES.SOH :: c :: t :: v :: tail)
     = maxSpeed <$> parseDeviceIdentification (CODES.SOH :: c :: t :: v' :: tail')).
Proof.
  split; [|split].
  - unfold parseDeviceIdentification.
    destruct (Z.ltb_spec (Z.of_nat (length data)) 5) as [Hlt|Hge].
    + split; [intros _; left; lia|reflexivity].
    + case_bool_decide as Hs; cbn [negb].
      * split.
        -- destruct (typeLookup !! _) as [[n speed]|]; discriminate.
        -- intros [Hl|Hn]; [lia|contradiction].
      * split; [intros _; right; exact Hs|reflexivity].
  - intros info Hp. pose proof (parsed_maxSpeed data info Hp) as Hspeed.
    unfold parseDeviceIdentification in Hp.
    destruct (Z.ltb_spec (Z.of_nat (length data)) 5) as [Hlt|Hge]; [discriminate|].
    destruct (negb _); [discriminate|].
    destruct data as [|b0 [|b1 [|b2 [|b3 data]]]]; cbn [length] in Hge; try lia.
    assert (Hinfo : constructeur info = b1 /\ type info = b2 /\ version info = b3 /\
                    rawResponse info = b0 :: b1 :: b2 :: b3 :: data).
    { cbn in Hp.
      match type of Hp with
      | match ?x with _ => _ end = _ => destruct x as [[n speed]|]
      end; injection Hp as <-; repeat split. }
    destruct Hinfo as (-> & -> & -> & ->).
    repeat split.
    destruct Hspeed as [-> | [-> | ->]];
      [exists 0x64|exists 0x76|exists 0x7F]; (split; [vm_compute; reflexivity|lia]).
  - intros c t v v' tail tail' Hne Hne'.
    destruct tail as [|b tail]; [congruence|].
    destruct tail' as [|b' tail']; [congruence|].
    unfold parseDeviceIdentification.
    destruct (Z.ltb_spec (Z.of_nat (length (CODES.SOH :: c :: t :: v :: b :: tail))) 5)
      as [Hlt|_]; [cbn [length] in Hlt; lia|].
    destruct (Z.ltb_spec (Z.of_nat (length (CODES.SOH :: c :: t :: v' :: b' :: tail'))) 5)
      as [Hlt|_]; [cbn [length] in Hlt; lia|].
    cbn [lookup list_lookup from_option id negb].
    rewrite !bool_decide_eq_true_2 by reflexivity. cbn [negb].
    destruct (typeLookup !! (c, t)) as [[n speed]|]; reflexivity.
Qed.

(** ** Text and commands *)

Lemma charToMinitel_seven_bit (char : Z) :
  isCodePoint char ->
  Forall (fun b => 0 <= b <= 0x7F) (charToMinitel char) /\
  (1 <= length (charToMinitel char) <= 3)%nat.
Proof.
  intros Hcp. unfold charToMinitel.
  destruct (accentMap !! char) as [bytes|] eqn:Hl.
  - apply accentMap_lookup_Some in Hl.
    assert (Hall : Forall (fun e => Forall (fun b => 0 <= b <= 0x7F) e.2 /\
                                    (1 <= length e.2 <= 3)%nat) accentEntries)
      by (apply (bool_decide_unpack _); vm_compute; reflexivity).
    rewrite Forall_forall in Hall. exact (Hall _ Hl).
  - destruct (Z.leb_spec (charCodeAt0 char) 127) as [Hle|Hgt]; cbn [length].
    + split; [|lia]. constructor; [|constructor].
      unfold charCodeAt0 in *. unfold isCodePoint in Hcp.
      destruct (Z.ltb_spec char 0x10000); [lia|].
      assert (0 <= (char - 0x10000) / 0x400) by (apply Z.div_pos; lia). lia.
    + split; [|lia]. constructor; [lia|constructor].
Qed.

Lemma encode_seven_bit (text : list Z) :
  Forall isCodePoint text ->
  Forall (fun b => 0 <= b <= 0x7F) (concat (map charToMinitel text)) /\
  (length text <= length (concat (map charToMinitel text)) <= 3 * length text)%nat.
Proof.
  induction 1 as [|char text Hc _ [IHb IHl]]; cbn [map concat length].
  - split; [constructor|lia].
  - destruct (charToMinitel_seven_bit char Hc) as [Hb Hl].
    split; [apply Forall_app; split; assumption|].
    rewrite length_app. lia.
Qed.

Lemma encode_ascii (text : list Z) :
  Forall (fun char => 0 <= char <= 127) text ->
  concat (map charToMinitel text) = text.
Proof.
  induction 1 as [|char text Hc _ IH]; cbn [map concat]; [reflexivity|].
  rewrite IH.
  assert (Hnone : accentMap !! char = None).
  { apply accentMap_lookup_None. intros Hin.
    pose proof accentEntries_keys_above_ascii as Hall.
    rewrite Forall_forall in Hall. apply Hall in Hin. lia. }
  unfold charToMinitel. rewrite Hnone. unfold charCodeAt0.
  destruct (Z.ltb_spec char 0x10000); [|lia].
  destruct (Z.leb_spec char 127); [reflexivity|lia].
Qed.

(** X2. On a connected driver with a working port, [writeText] writes
    one buffer: the encodings of the characters of the text, in order.
    Every byte of it fits in seven bits, it holds between one and three
    bytes per character, and a text of ASCII characters is written
    unchanged. *)
Theorem writeText_encoding (terminal : nat -> Z -> Session)
    (text : list Z) (m : Minitel) :
  Forall isCodePoint text -> reliable terminal m ->
  let bytes := concat (map charToMinitel text) in
  writeText terminal text m = (Return tt, sending bytes m) /\
  Forall (fun b => 0 <= b <= 0x7F) bytes /\
  (length text <= length bytes <= 3 * length text)%nat /\
  (Forall (fun char => char <= 127) text -> bytes = text).
Proof.
  intros Hcp Hm. cbv zeta.
  destruct (encode_seven_bit text Hcp) as [Hb Hl].
  split; [|split; [exact Hb|split; [exact Hl|]]].
  - unfold writeText. rewrite Buffer_from_bytes.
    + apply write_reliable. exact Hm.
    + eapply Forall_impl; [exact Hb|]. cbn. intros b Hr. lia.
  - intros Hascii. apply encode_ascii.
    rewrite Forall_forall in *. intros char Hin.
    specialize (Hcp char Hin). specialize (Hascii char Hin).
    unfold isCodePoint in Hcp. lia.
Qed.

Lemma writeText_encoding_witness :
  Forall isCodePoint [0x63; 0xE9] /\ reliable (fun _ _ => silent) plugged /\
  sent (snd (writeText (fun _ _ => silent) [0x63; 0xE9] plugged))
  = [[0x63; 0x19; 0x42; 0x65]].
Proof.
  assert (Hcp : Forall isCodePoint [0x63; 0xE9])
    by (repeat constructor; unfold isCodePoint; lia).
  assert (Hm : reliable (fun _ _ => silent) plugged).
  { split; [reflexivity|]. eexists. split; [reflexivity|].
    split; [reflexivity|]. intros k _. reflexivity. }
  split; [exact Hcp|]. split; [exact Hm|].
  rewrite (proj1 (writeText_encoding (fun _ _ => silent) [0x63; 0xE9] plugged Hcp Hm)).
  reflexivity.
Defined.

Lemma startsWith_app (l1 l2 r1 r2 : list Z) :
  l1 ++ r1 = l2 ++ r2 -> startsWith l1 l2 = true \/ startsWith l2 l1 = true.
Proof.
  revert l2. induction l1 as [|a l1 IH]; intros [|b l2]; cbn; auto.
  intros [= -> H]. rewrite Z.eqb_refl. cbn. apply IH. exact H.
Qed.

Lemma startsWith_both (l1 l2 : list Z) :
  startsWith l1 l2 = true -> startsWith l2 l1 = true -> l1 = l2.
Proof.
  revert l2. induction l1 as [|a l1 IH]; intros [|b l2]; cbn; try discriminate; auto.
  intros [Hab H1]%andb_true_iff [_ H2]%andb_true_iff.
  apply Z.eqb_eq in Hab. subst. f_equal. apply IH; assumption.
Qed.

(** Of two entries of the table, when the bytes of one start the bytes
    of the other, the two have the same bytes and stand for the same
    character; the bytes of an entry are the one byte of a plain quote or
    start with the accent prefix 0x19 and go on. *)
Lemma accentEntries_prefix_free (e1 e2 : Z * list Z) :
  e1 ∈ accentEntries -> e2 ∈ accentEntries ->
  (e1.2 = [plainQuotes e1.1] /\ 32 <= plainQuotes e1.1 <= 126 \/
   exists b tail, e1.2 = 0x19 :: b :: tail) /\
  (startsWith e1.2 e2.2 = true ->
   startsWith e2.2 e1.2 = true /\ plainQuotes e1.1 = plainQuotes e2.1).
Proof.
  assert (Hall :
    forallb (fun e1 : Z * list Z =>
      (match e1.2 with
       | [] => false
       | [q] => (q =? plainQuotes e1.1) && (32 <=? q) && (q <=? 126)
       | h :: _ :: _ => h =? 0x19
       end)
      && forallb (fun e2 : Z * list Z =>
           implb (startsWith e1.2 e2.2)
             (startsWith e2.2 e1.2 && (plainQuotes e1.1 =? plainQuotes e2.1)))
           accentEntries) accentEntries = true) by (vm_compute; reflexivity).
  rewrite forallb_forall in Hall.
  intros H1%list_elem_of_In H2%list_elem_of_In.
  specialize (Hall e1 H1). apply andb_true_iff in Hall as [Hhead Hpairs].
  rewrite forallb_forall in Hpairs. specialize (Hpairs e2 H2).
  split.
  - destruct e1 as [c [|b [|b' tail]]]; cbn in *; try discriminate.
    + left. apply andb_true_iff in Hhead as [[Hq Hlo]%andb_true_iff Hhi].
      apply Z.eqb_eq in Hq. subst b. split; [reflexivity|]. lia.
    + right. apply Z.eqb_eq in Hhead. subst b. eauto.
  - intros Hs. rewrite Hs in Hpairs. cbn in Hpairs.
    apply andb_true_iff in Hpairs as [Hback Hq]. apply Z.eqb_eq in Hq. auto.
Qed.

Lemma accentEntries_keys_codePoints :
  Forall (fun key => key <= 0x10FFFF) (accentEntries.*1).
Proof. apply (bool_decide_unpack _). vm_compute. reflexivity. Qed.

Lemma supported_isCodePoint (char : Z) : supported char -> isCodePoint char.
Proof.
  unfold isCodePoint. intros [Hascii|Hin]; [lia|].
  pose proof accentEntries_keys_above_ascii as Hlo.
  pose proof accentEntries_keys_codePoints as Hhi.
  rewrite Forall_forall in Hlo, Hhi.
  specialize (Hlo _ Hin). specialize (Hhi _ Hin). lia.
Qed.

(** What [charToMinitel] gives for a supported character: itself, or
    the bytes of its entry. *)
Lemma charToMinitel_supported (char : Z) :
  supported char ->
  (32 <= char <= 126 /\ charToMinitel char = [char] /\ plainQuotes char = char) \/
  (exists bytes, (char, bytes) ∈ accentEntries /\ charToMinitel char = bytes).
Proof.
  intros [Hascii|Hin].
  - left. split; [exact Hascii|]. split.
    + assert (Hone : concat (map charToMinitel [char]) = [char])
        by (apply encode_ascii; constructor; [lia|constructor]).
      cbn in Hone. rewrite app_nil_r in Hone. exact Hone.
    + unfold plainQuotes.
      repeat match goal with
             | |- context [?a =? ?b] => destruct (Z.eqb_spec a b); [lia|]
             end.
      reflexivity.
  - right. apply list_elem_of_fmap in Hin as ([key bytes] & -> & Hin).
    exists bytes. split; [exact Hin|].
    apply accentMap_lookup_Some in Hin. unfold charToMinitel.
    cbn [fst]. rewrite Hin. reflexivity.
Qed.

(** The encodings of two supported characters, each followed by more
    bytes: when the two byte sequences are equal, the characters are the
    same up to the quotes and so are the bytes that follow. *)
Lemma charToMinitel_splits (c1 c2 : Z) (r1 r2 : list Z) :
  supported c1 -> supported c2 ->
  charToMinitel c1 ++ r1 = charToMinitel c2 ++ r2 ->
  plainQuotes c1 = plainQuotes c2 /\ r1 = r2.
Proof.
  intros H1 H2 Heq.
  destruct (charToMinitel_supported c1 H1) as [(Hr1 & He1 & Hq1)|(b1 & Hin1 & He1)];
    destruct (charToMinitel_supported c2 H2) as [(Hr2 & He2 & Hq2)|(b2 & Hin2 & He2)];
    rewrite He1, He2 in Heq.
  - injection Heq as -> ->. split; reflexivity.
  - destruct (accentEntries_prefix_free _ _ Hin2 Hin2) as [[[Hb Hq]|(b & tail & Hb)] _];
      cbn [fst snd] in *; rewrite Hb in Heq.
    + injection Heq as -> ->. rewrite Hq1. split; reflexivity.
    + injection Heq as -> _. lia.
  - destruct (accentEntries_prefix_free _ _ Hin1 Hin1) as [[[Hb Hq]|(b & tail & Hb)] _];
      cbn [fst snd] in *; rewrite Hb in Heq.
    + injection Heq as Hc ->. rewrite Hq2, <- Hc. split; reflexivity.
    + injection Heq as Hc _. lia.
  - destruct (startsWith_app _ _ _ _ Heq) as [Hs|Hs].
    + destruct (accentEntries_prefix_free _ _ Hin1 Hin2) as [_ Hp].
      destruct (Hp Hs) as [Hback Hq]. cbn [fst snd] in *.
      pose proof (startsWith_both _ _ Hs Hback) as ->.
      apply app_inv_head in Heq. split; assumption.
    + destruct (accentEntries_prefix_free _ _ Hin2 Hin1) as [_ Hp].
      destruct (Hp Hs) as [Hback Hq]. cbn [fst snd] in *.
      pose proof (startsWith_both _ _ Hs Hback) as ->.
      apply app_inv_head in Heq. split; [symmetry|]; assumption.
Qed.

Lemma charToMinitel_nonempty (char : Z) (rest : list Z) :
  supported char -> charToMinitel char ++ rest <> [].
Proof.
  intros Hs Habs.
  pose proof (charToMinitel_seven_bit char (supported_isCodePoint _ Hs)) as [_ Hl].
  apply (f_equal length) in Habs. rewrite length_app in Habs. cbn in Habs. lia.
Qed.

Lemma encode_decodable (text1 text2 : list Z) :
  Forall supported text1 -> Forall supported text2 ->
  concat (map charToMinitel text1) = concat (map charToMinitel text2) ->
  map plainQuotes text1 = map plainQuotes text2.
Proof.
  intros H1. revert text2.
  induction H1 as [|c1 text1 Hc1 _ IH]; intros text2 H2 Heq;
    destruct H2 as [|c2 text2 Hc2 H2]; cbn [map concat] in *.
  - reflexivity.
  - symmetry in Heq. apply charToMinitel_nonempty in Heq; [contradiction|exact Hc2].
  - apply charToMinitel_nonempty in Heq; [contradiction|exact Hc1].
  - destruct (charToMinitel_splits _ _ _ _ Hc1 Hc2 Heq) as [Hq Hrest].
    rewrite Hq. f_equal. apply IH; assumption.
Qed.

(** X21. What [writeText] writes can be read back: on a connected
    driver with a working port, two texts of supported characters (the
    printable ASCII characters and the keys of the table) for which it
    writes the same bytes are the same text, once the curly quotes and the
    guillemets are read as the apostrophe and the quotation mark. *)
Theorem writeText_decodable (terminal : nat -> Z -> Session)
    (text1 text2 : list Z) (m : Minitel) :
  Forall supported text1 -> Forall supported text2 -> reliable terminal m ->
  sent (snd (writeText terminal text1 m)) = sent (snd (writeText terminal text2 m)) ->
  map plainQuotes text1 = map plainQuotes text2.
Proof.
  intros H1 H2 Hm Hsent.
  assert (Hwrite : forall text, Forall supported text ->
            sent (snd (writeText terminal text m))
            = sent m ++ [concat (map charToMinitel text)]).
  { intros text Hs.
    assert (Hcp : Forall isCodePoint text)
      by (eapply Forall_impl; [exact Hs|exact supported_isCodePoint]).
    destruct (encode_seven_bit text Hcp) as [Hb _].
    unfold writeText. rewrite Buffer_from_bytes.
    - destruct (write_reliable terminal (concat (map charToMinitel text)) m Hm) as [-> _].
      apply sent_sending.
    - eapply Forall_impl; [exact Hb|]. cbn. intros b Hr. lia. }
  rewrite (Hwrite _ H1), (Hwrite _ H2) in Hsent.
  apply app_inv_head in Hsent. injection Hsent as Hsent.
  apply encode_decodable; assumption.
Qed.

Lemma writeText_decodable_witness :
  Forall supported [0x2019; 0xE9] /\ Forall supported [0x27; 0xE9] /\
  reliable (fun _ _ => silent) plugged /\
  map plainQuotes [0x2019; 0xE9] = map plainQuotes [0x27; 0xE9].
Proof.
  assert (H1 : Forall supported [0x2019; 0xE9]).
  { repeat (apply List.Forall_cons; [|]); [| |apply List.Forall_nil];
      right; apply (bool_decide_unpack _); vm_compute; reflexivity. }
  assert (H2 : Forall supported [0x27; 0xE9]).
  { apply List.Forall_cons; [left; lia|].
    apply List.Forall_cons; [|apply List.Forall_nil].
    right. apply (bool_decide_unpack _). vm_compute. reflexivity. }
  assert (Hm : reliable (fun _ _ => silent) plugged).
  { split; [reflexivity|]. eexists. split; [reflexivity|].
    split; [reflexivity|]. intros k _. reflexivity. }
  split; [exact H1|]. split; [exact H2|]. split; [exact Hm|].
  apply (writeText_decodable (fun _ _ => silent) _ _ plugged H1 H2 Hm).
  vm_compute. reflexivity.
Defined.

Lemma write_disconnected terminal (data : list Z) (m : Minitel) :
  isConnected m = false -> write terminal data m = (Throw notConnected, m).
Proof. intros H. unfold write. rewrite H. reflexivity. Qed.

Lemma writeRepeated_rec_disconnected terminal (char : Z) (bound : nat) :
  forall count m, 0 < count -> isConnected m = false ->
    writeRepeated_rec terminal bound char count m = (Throw notConnected, m) \/
    (bound = O /\ 64 < count).
Proof.
  induction bound as [|bound IH]; intros count m Hpos Hc; cbn [writeRepeated_rec].
  - destruct (Z.leb_spec count 0); [lia|].
    destruct (Z.leb_spec count 3);
      [left; apply write_disconnected; exact Hc|].
    destruct (Z.leb_spec count 64);
      [left; apply write_disconnected; exact Hc|].
    right. split; [reflexivity|lia].
  - destruct (Z.leb_spec count 0); [lia|].
    destruct (Z.leb_spec count 3);
      [left; apply write_disconnected; exact Hc|].
    destruct (Z.leb_spec count 64);
      [left; apply write_disconnected; exact Hc|].
    left. unfold bind.
    destruct (IH 64 m) as [Hrun|[_ Habs]]; [lia|exact Hc| |lia].
    rewrite Hrun. reflexivity.
Qed.

(** X3. While [isConnected] is false every command that reaches
    [write] throws the not-connected error and leaves the driver as it
    was, nothing written: clear, home, beep, newLine, hideCursor,
    showCursor, writeText, setFormat with a number or a known name,
    moveCursor and printAt at a valid position, writeRepeated with a
    positive count.  Validation comes first: an unknown format name and an
    invalid position throw their own error.  [writeRepeated] with a count
    of zero or less returns without writing, connected or not. *)
Theorem commands_need_connection (terminal : nat -> Z -> Session) (m : Minitel) :
  isConnected m = false ->
  Forall (fun command : M unit => command m = (Throw notConnected, m))
    [clear terminal; home terminal; beep terminal; newLine terminal;
     hideCursor terminal; showCursor terminal] /\
  (forall text, writeText terminal text m = (Throw notConnected, m)) /\
  (forall code, setFormat terminal (numeric code) m = (Throw notConnected, m)) /\
  (forall code, is_Some (formatCodes_get (toLowerCase code)) ->
     setFormat terminal (named code) m = (Throw notConnected, m)) /\
  (forall code, formatCodes_get (toLowerCase code) = None ->
     setFormat terminal (named code) m = (Throw (invalidFormat code), m)) /\
  (forall row col text,
     (0 <= row <= 24 /\ 1 <= col <= 40 ->
      moveCursor terminal row col m = (Throw notConnected, m) /\
      printAt terminal row col text m = (Throw notConnected, m)) /\
     (row < 0 \/ 24 < row \/ col < 1 \/ 40 < col ->
      moveCursor terminal row col m = (Throw invalidCursor, m) /\
      printAt terminal row col text m = (Throw invalidCursor, m))) /\
  (forall char count,
     (0 < count -> writeRepeated terminal char count m = (Throw notConnected, m)) /\
     (count <= 0 -> writeRepeated terminal char count m = (Return tt, m))).
Proof.
  intros Hc.
  split; [repeat constructor; apply write_disconnected; exact Hc|].
  split; [intros text; apply write_disconnected; exact Hc|].
  split; [intros code; apply write_disconnected; exact Hc|].
  split.
  { intros code [v Hv]. unfold setFormat. rewrite Hv.
    apply write_disconnected. exact Hc. }
  split.
  { intros code Hv. unfold setFormat. rewrite Hv. reflexivity. }
  split.
  { intros row col text. split.
    - intros [Hr Hcol].
      assert (Hmove : moveCursor terminal row col m = (Throw notConnected, m)).
      { unfold moveCursor.
        destruct (Z.ltb_spec row 0); [lia|]. destruct (Z.gtb_spec row 24); [lia|].
        destruct (Z.ltb_spec col 1); [lia|]. destruct (Z.gtb_spec col 40); [lia|].
        cbn [orb]. apply write_disconnected. exact Hc. }
      split; [exact Hmove|]. unfold printAt, bind. rewrite Hmove. reflexivity.
    - intros Hbad.
      assert (Hmove : moveCursor terminal row col m = (Throw invalidCursor, m)).
      { unfold moveCursor.
        destruct (Z.ltb_spec row 0); [reflexivity|].
        destruct (Z.gtb_spec row 24); [reflexivity|].
        destruct (Z.ltb_spec col 1); [reflexivity|].
        destruct (Z.gtb_spec col 40); [reflexivity|]. lia. }
      split; [exact Hmove|]. unfold printAt, bind. rewrite Hmove. reflexivity. }
  intros char count. split.
  - intros Hpos. unfold writeRepeated.
    destruct (writeRepeated_rec_disconnected terminal char (Z.to_nat count) count m
                Hpos Hc) as [Hrun|[Hz Hbig]]; [exact Hrun|lia].
  - intros Hle. unfold writeRepeated.
    destruct (Z.to_nat count); cbn [writeRepeated_rec];
      (destruct (Z.leb_spec count 0); [reflexivity|lia]).
Qed.

Lemma commands_need_connection_witness :
  isConnected (new_Minitel auto true) = false /\
  writeText (fun _ _ => silent) [0x41] (new_Minitel auto true)
  = (Throw notConnected, new_Minitel auto true).
Proof.
  assert (Hc : isConnected (new_Minitel auto true) = false) by reflexivity.
  split; [exact Hc|].
  exact (proj1 (proj2
    (commands_need_connection (fun _ _ => silent) (new_Minitel auto true) Hc)) [0x41]).
Defined.

(** X4. [printAt] at a valid position, on a connected driver with a
    working port, writes two buffers, the cursor move and then the encoded
    text; when the cursor move throws, [printAt] throws the same error in
    the same state and the text is not written. *)
Theorem printAt_sequence (terminal : nat -> Z -> Session)
    (row col : Z) (text : list Z) (m : Minitel) :
  0 <= row <= 24 -> 1 <= col <= 40 -> Forall isCodePoint text ->
  (reliable terminal m ->
   fst (printAt terminal row col text m) = Return tt /\
   sent (snd (printAt terminal row col text m))
   = sent m ++ [[0x1F; 0x40 + row; 0x40 + col]; concat (map charToMinitel text)]) /\
  (forall message,
     fst (moveCursor terminal row col m) = Throw message ->
     printAt terminal row col text m = moveCursor terminal row col m).
Proof.
  intros Hr Hcol Hcp. split.
  - intros Hm.
    assert (Hmove : moveCursor terminal row col m
                    = (Return tt, sending [0x1F; 0x40 + row; 0x40 + col] m) /\
                    reliable terminal (sending [0x1F; 0x40 + row; 0x40 + col] m)).
    { unfold moveCursor.
      destruct (Z.ltb_spec row 0); [lia|]. destruct (Z.gtb_spec row 24); [lia|].
      destruct (Z.ltb_spec col 1); [lia|]. destruct (Z.gtb_spec col 40); [lia|].
      cbn [orb]. rewrite Buffer_from_bytes.
      - apply write_reliable. exact Hm.
      - unfold CODES.US, CODES.CURSOR_OFFSET. repeat constructor; lia. }
    destruct Hmove as [Hmove Hm'].
    unfold printAt, bind. rewrite Hmove.
    assert (Hbytes : Forall (fun b => 0 <= b < 256) (concat (map charToMinitel text))).
    { apply Forall_concat. apply Forall_map.
      eapply Forall_impl; [exact Hcp|]. intros char. apply charToMinitel_bytes. }
    unfold writeText. rewrite (Buffer_from_bytes _ Hbytes).
    rewrite (proj1 (write_reliable terminal _ _ Hm')). cbn [fst snd].
    split; [reflexivity|]. rewrite !sent_sending, <- app_assoc. reflexivity.
  - intros message Hthrow. unfold printAt, bind.
    destruct (moveCursor terminal row col m) as [[[]|e|] m']; cbn in Hthrow;
      [discriminate|reflexivity|discriminate].
Qed.

Lemma printAt_sequence_witness :
  0 <= 5 <= 24 /\ 1 <= 7 <= 40 /\ Forall isCodePoint [0x4F; 0x4B] /\
  sent (snd (printAt (fun _ _ => silent) 5 7 [0x4F; 0x4B] plugged))
  = [[0x1F; 0x45; 0x47]; [0x4F; 0x4B]].
Proof.
  assert (Hr : 0 <= 5 <= 24) by lia.
  assert (Hcol : 1 <= 7 <= 40) by lia.
  assert (Hcp : Forall isCodePoint [0x4F; 0x4B])
    by (repeat constructor; unfold isCodePoint; lia).
  assert (Hm : reliable (fun _ _ => silent) plugged).
  { split; [reflexivity|]. eexists. split; [reflexivity|].
    split; [reflexivity|]. intros k _. reflexivity. }
  split; [exact Hr|]. split; [exact Hcol|]. split; [exact Hcp|].
  exact (proj2 (proj1
    (printAt_sequence (fun _ _ => silent) 5 7 [0x4F; 0x4B] plugged Hr Hcol Hcp) Hm)).
Defined.

(** X5. [disconnect] never throws.  With an open port it closes the
    port, once, and clears [isConnected]; with no port or a closed one it
    changes nothing, [isConnected] included; calling it a second time
    changes nothing. *)
Theorem disconnect_closes_once (m : Minitel) :
  fst (disconnect m) = Return tt /\
  (forall p, port m = Some p -> isOpen p = true ->
     isConnected (snd (disconnect m)) = false /\
     (isOpen <$> port (snd (disconnect m))) = Some false /\
     journal (snd (disconnect m)) = journal m ++ [Closed]) /\
  ((isOpen <$> port m) ≠ Some true -> snd (disconnect m) = m) /\
  disconnect (snd (disconnect m)) = (Return tt, snd (disconnect m)).
Proof.
  unfold disconnect.
  destruct (port m) as [p|] eqn:Hp; [destruct (isOpen p) eqn:Ho|]; cbn.
  - split; [reflexivity|]. split.
    + intros p' [= <-] _. repeat split.
    + split; [congruence|reflexivity].
  - rewrite Hp, Ho. split; [reflexivity|]. split; [intros p' [= <-]; congruence|].
    split; reflexivity.
  - rewrite Hp. split; [reflexivity|]. split; [discriminate|]. split; reflexivity.
Qed.

(** ** The older copy of the driver *)

(** X20. The older copy of the driver rejects a cursor position
    exactly when the row is below 1 or above 24 or the column below 1 or
    above 40; on rows 1 to 24 its [moveCursor] does what the one of the
    current driver does; on row 0, the status row, it throws where the
    current driver writes 0x1F, 0x40 and the column byte. *)
Theorem moveCursor_legacy_row_0 (terminal : nat -> Z -> Session)
    (row col : Z) (m : Minitel) :
  (fst (legacy.moveCursor terminal row col m) = Throw legacy.invalidCursor <->
   row < 1 \/ row > 24 \/ col < 1 \/ col > 40) /\
  (1 <= row <= 24 -> 1 <= col <= 40 ->
   legacy.moveCursor terminal row col m = moveCursor terminal row col m) /\
  (row = 0 -> 1 <= col <= 40 ->
   legacy.moveCursor terminal row col m = (Throw legacy.invalidCursor, m) /\
   fst (moveCursor terminal row col m) ≠ Throw invalidCursor /\
   (reliable terminal m ->
    moveCursor terminal row col m = (Return tt, sending [0x1F; 0x40; 0x40 + col] m))).
Proof.
  split; [|split].
  - unfold legacy.moveCursor.
    destruct (Z.ltb_spec row 1); [split; [lia|reflexivity]|].
    destruct (Z.gtb_spec row 24); [split; [lia|reflexivity]|].
    destruct (Z.ltb_spec col 1); [split; [lia|reflexivity]|].
    destruct (Z.gtb_spec col 40); [split; [lia|reflexivity]|].
    cbn [orb]. split; [|lia]. intros Habs. exfalso. revert Habs.
    apply write_not_validation. eexists. left. reflexivity.
  - intros Hr Hc. unfold legacy.moveCursor, moveCursor.
    destruct (Z.ltb_spec row 1); [lia|]. destruct (Z.gtb_spec row 24); [lia|].
    destruct (Z.ltb_spec col 1); [lia|]. destruct (Z.gtb_spec col 40); [lia|].
    destruct (Z.ltb_spec row 0); [lia|]. reflexivity.
  - intros -> Hc. unfold legacy.moveCursor, moveCursor.
    destruct (Z.ltb_spec col 1); [lia|]. destruct (Z.gtb_spec col 40); [lia|].
    cbn [Z.ltb Z.gtb Z.compare orb]. split; [reflexivity|]. split.
    + apply write_not_validation. eexists. left. reflexivity.
    + intros Hrel. rewrite Buffer_from_bytes.
      * apply write_reliable. exact Hrel.
      * unfold CODES.US, CODES.CURSOR_OFFSET. repeat constructor; lia.
Qed.

(** ** Outcomes of [connect] *)

Lemma closePort_closes (m : Minitel) (p : SerialPort) :
  port m = Some p ->
  fst (_closePort m) = Return tt /\
  (isOpen <$> port (snd (_closePort m))) = Some false /\
  opened (snd (_closePort m)) = opened m /\
  isConnected (snd (_closePort m)) = isConnected m.
Proof.
  intros Hp. unfold _closePort. rewrite Hp.
  destruct (isOpen p) eqn:Ho; cbn; rewrite ?Hp; cbn; rewrite ?Ho; repeat split.
Qed.

Lemma connect_loop_invariant terminal (rates : list Z) :
  forall m,
    rates ≠ [] \/ (isOpen <$> port m) = Some false ->
    let attempt := connect_loop terminal rates m in
    (fst attempt = Return tt /\ isConnected (snd attempt) = true /\
     is_Some (deviceInfo (snd attempt))) \/
    (fst attempt = Throw noMinitelFound /\
     (isOpen <$> port (snd attempt)) = Some false /\
     opened (snd attempt) = (opened m + length rates)%nat).
Proof.
  induction rates as [|rate rates IH]; intros m Hstart; cbv zeta; cbn [connect_loop].
  - destruct Hstart as [Hne|Hclosed]; [congruence|].
    right. cbn. split; [reflexivity|]. split; [exact Hclosed|lia].
  - unfold try_catch.
    destruct (connectAt_outcome terminal rate true m) as [Hok|Hfail]; cbv zeta in *.
    + destruct (_connectAtBaudRate terminal rate true m) as [[[]|e|] m'];
        cbn [fst snd] in *; [left; exact Hok| |];
        destruct Hok as (Habs & _); discriminate.
    + destruct (_connectAtBaudRate terminal rate true m) as [[[]|e|] m'];
        cbn [fst snd] in *.
      { destruct Hfail as ((message & Habs) & _). discriminate. }
      2: { destruct Hfail as ((message & Habs) & _). discriminate. }
      destruct Hfail as (_ & Hopened & p & Hp & _).
      destruct (closePort_closes m' p Hp) as (Hr & Hclosed & Ho & _).
      unfold bind. destruct (_closePort m') as [[[]|e'|] m''] eqn:Hclose;
        cbn [fst snd] in *; [|discriminate|discriminate].
      specialize (IH m'' (or_intror Hclosed)). cbv zeta in IH.
      destruct IH as [IH|(Hthrow & Hport & Hcount)]; [left; exact IH|].
      right. split; [exact Hthrow|]. split; [exact Hport|].
      rewrite Hcount, Ho, Hopened. cbn [length]. lia.
Qed.

(** X6. With ['auto'], whatever the line does, [connect] either
    returns, and then the driver is connected and holds a device
    descriptor, or throws the detection error, and then no port is left
    open and exactly three ports have been constructed. *)
Theorem connect_auto_outcome (terminal : nat -> Z -> Session) (m : Minitel) :
  options_baudRate m = auto ->
  (fst (connect terminal m) = Return tt /\
   isConnected (snd (connect terminal m)) = true /\
   is_Some (deviceInfo (snd (connect terminal m)))) \/
  (fst (connect terminal m) = Throw noMinitelFound /\
   (isOpen <$> port (snd (connect terminal m))) = Some false /\
   opened (snd (connect terminal m)) = (opened m + 3)%nat).
Proof.
  intros Hauto. unfold connect. rewrite Hauto.
  apply (connect_loop_invariant terminal baudRates m). left. discriminate.
Qed.

Lemma connect_auto_outcome_witness :
  options_baudRate (new_Minitel auto true) = auto /\
  fst (connect (fun _ _ => silent) (new_Minitel auto true)) = Throw noMinitelFound /\
  (isOpen <$> port (snd (connect (fun _ _ => silent) (new_Minitel auto true))))
  = Some false.
Proof.
  assert (Hauto : options_baudRate (new_Minitel auto true) = auto) by reflexivity.
  split; [exact Hauto|].
  destruct (connect_auto_outcome (fun _ _ => silent) (new_Minitel auto true) Hauto)
    as [(Hr & _)|(Hr & Hp & _)].
  - vm_compute in Hr. discriminate Hr.
  - split; [exact Hr|exact Hp].
Defined.

(** X7. With a fixed speed [connect] makes one attempt at that
    speed: a port that does not open throws the connection error; a port
    that opens, takes the query and stays silent, after a pause of 200 ms
    and a wait of 2000 ms, throws the no-reply error, and the port is
    left open; when
    the port opens and takes the query and the screen clear, and the
    first event received during the wait is an identification reply,
    [connect] returns, connected, after the screen clear, and at that
    speed on that port when no speed upgrade is attempted.  A reply that
    comes after other input is left out. *)
Theorem connect_fixed_single_attempt (terminal : nat -> Z -> Session)
    (rate : Z) (autoUpgradeSpeed : bool) :
  let m0 := new_Minitel (fixed rate) autoUpgradeSpeed in
  let result := connect terminal m0 in
  (forall message, openError (terminal 0%nat rate) = Some message ->
     fst result = Throw ("Erreur de connexion: " +:+ message) /\
     journal (snd result) = [OpenFailed rate] /\
     isConnected (snd result) = false) /\
  (timesOut (terminal 0%nat rate) ->
     fst result = Throw "Pas de réponse du Minitel" /\
     journal (snd result)
     = [Opened rate; Slept 200; Sent identificationQuery; Awaited 2000] /\
     port (snd result)
     = Some {| baudRate := rate; isOpen := true; session := 0; written := 1 |} /\
     isConnected (snd result) = false) /\
  (forall response, answersFirst (terminal 0%nat rate) response ->
     exists info tail,
       parseDeviceIdentification response = Some info /\
       fst result = Return tt /\
       isConnected (snd result) = true /\
       deviceInfo (snd result) = Some info /\
       journal (snd result)
       = [Opened rate; Slept 200; Sent identificationQuery; Awaited 2000;
          LogConnected info rate; Sent [0x0C]] ++ tail /\
       (autoUpgradeSpeed = false \/ maxSpeed info <= rate ->
        tail = [] /\ currentBaudRate (snd result) = Some rate /\
        port (snd result)
        = Some {| baudRate := rate; isOpen := true; session := 0; written := 2 |})).
Proof.
  cbv zeta. unfold connect. cbn [options_baudRate new_Minitel].
  split; [|split].
  - intros message Hopen.
    unfold _connectAtBaudRate, bind, act, newSerialPort, throw. cbn.
    rewrite Hopen. cbn. repeat split.
  - intros (Hopen & Hwrite & Hreply). unfold reply_of in Hreply.
    unfold _connectAtBaudRate, bind, act, newSerialPort, _queryDevice,
      port_write_unawaited, _sleep, port_write, bind, act, ret, throw.
    cbn. rewrite Hopen. cbn. rewrite Hwrite. cbn. rewrite Hreply. cbn.
    repeat split.
  - intros response Hanswer.
    pose proof Hanswer as (_ & _ & _ & Hacc & _).
    destruct (answersFirst_identifies _ _ Hanswer) as (Hopen & Hw0 & Hw1 & Hreply).
    unfold reply_of in Hreply.
    destruct (parseDeviceIdentification_reply response Hacc) as (info & Hparse & _).
    exists info.
    unfold _connectAtBaudRate, bind, act, newSerialPort, _queryDevice,
      port_write_unawaited, _sleep, clear, write, port_write, bind, act, ret, throw.
    cbn. rewrite Hopen. cbn. rewrite Hw0. cbn. rewrite Hreply, Hparse. cbn.
    rewrite Hw1. cbn.
    destruct autoUpgradeSpeed; cbn [andb].
    + unfold speed. cbn [currentBaudRate default].
      destruct (Z.ltb_spec rate (maxSpeed info)) as [Hlt|Hge].
      * match goal with
        | |- context [try_catch ?c ?h ?m0] =>
            assert (Hup : fst (try_catch c h m0) = Return tt /\
                          deviceInfo (snd (try_catch c h m0)) = deviceInfo m0 /\
                          isConnected (snd (try_catch c h m0)) = isConnected m0 /\
                          exists tail,
                            journal (snd (try_catch c h m0)) = journal m0 ++ tail)
              by exact (upgrade_attempt_returns terminal (maxSpeed info) rate m0 eq_refl);
            destruct Hup as (Hr & Hd & Hc & tail & Hj)
        end.
        exists tail. split; [reflexivity|]. split; [exact Hr|].
        split; [rewrite Hc; reflexivity|]. split; [rewrite Hd; reflexivity|].
        split; [rewrite Hj; reflexivity|].
        intros [Hoff|Hle]; [discriminate|lia].
      * exists []. cbn. repeat split.
    + exists []. cbn. repeat split.
Qed.

(** X8. An attempt, with the speed upgrade enabled, whose port opens
    and takes the first three writes (the query, the screen clear and the
    speed command), at which the first event received during the wait is
    an identification reply, on a line that opens again, returns
    connected; when the maximum speed of the terminal is
    above the speed of the attempt the driver ends at that maximum speed,
    on a new open port on which nothing has been written, after the
    speed command ESC PRO2 PROG_VITESSE and the programming byte of that
    speed, a pause of 300 ms, the closing of the port, its reopening and a
    pause of 200 ms; otherwise it stays on the port of the attempt. *)
Theorem connectAt_upgrades_speed (terminal : nat -> Z -> Session)
    (rate : Z) (response : list Z) (m : Minitel) :
  options_autoUpgradeSpeed m = true ->
  answersFirst (terminal (opened m) rate) response ->
  writeError (terminal (opened m) rate) 2%nat = None ->
  (forall newSpeed, openError (terminal (S (opened m)) newSpeed) = None) ->
  exists info speedCode,
    parseDeviceIdentification response = Some info /\
    speedCodes !! maxSpeed info = Some speedCode /\
    let attempt := _connectAtBaudRate terminal rate true m in
    fst attempt = Return tt /\
    isConnected (snd attempt) = true /\
    deviceInfo (snd attempt) = Some info /\
    (rate < maxSpeed info ->
     currentBaudRate (snd attempt) = Some (maxSpeed info) /\
     port (snd attempt)
     = Some {| baudRate := maxSpeed info; isOpen := true;
               session := S (opened m); written := 0 |} /\
     journal (snd attempt)
     = journal m ++ probe_identified rate info
       ++ [Sent [0x1B; 0x3A; 0x6B; speedCode]; Slept 300; Closed;
           Opened (maxSpeed info); Slept 200;
           LogSpeedRaised rate (maxSpeed info)]) /\
    (maxSpeed info <= rate ->
     snd attempt = after_identified rate info m).
Proof.
  intros Hauto Hanswer Hw2 Hopen.
  pose proof Hanswer as (_ & _ & _ & Hacc & _).
  pose proof (answersFirst_identifies _ _ Hanswer) as Hid.
  destruct (parseDeviceIdentification_reply response Hacc) as (info & Hparse & _ & Hspeed).
  exists info.
  assert (Hcode : exists speedCode,
             speedCodes !! maxSpeed info = Some speedCode /\ 0 <= speedCode < 256).
  { destruct Hspeed as [-> | [-> | ->]];
      [exists 0x64|exists 0x76|exists 0x7F]; (split; [vm_compute; reflexivity|lia]). }
  destruct Hcode as (speedCode & Hcode & Hbyte).
  exists speedCode. split; [exact Hparse|]. split; [exact Hcode|]. cbv zeta.
  rewrite (connectAt_identified terminal rate response info m Hid Hparse). cbv zeta.
  cbn [options_autoUpgradeSpeed after_identified]. rewrite Hauto. cbn [andb].
  change (speed (after_identified rate info m)) with rate.
  destruct (Z.ltb_spec rate (maxSpeed info)) as [Hlt|Hge].
  - unfold try_catch, _upgradeSpeed. rewrite Hcode.
    unfold bind, act, write, port_write, bind, ret, throw, _sleep, _closePort,
      newSerialPort, act.
    cbn. rewrite Hw2. cbn. rewrite Hopen. cbn.
    rewrite (toUint8_byte speedCode) by exact Hbyte.
    split; [reflexivity|]. split; [reflexivity|]. split; [reflexivity|]. split.
    + intros _. split; [reflexivity|]. split; [reflexivity|].
      unfold probe_identified. rewrite <- !app_assoc. reflexivity.
    + intros Hle. lia.
  - cbn [fst snd]. split; [reflexivity|]. split; [reflexivity|].
    split; [reflexivity|]. split; [intros Hlt; lia|]. intros _. reflexivity.
Qed.

Lemma connectAt_upgrades_speed_witness :
  options_autoUpgradeSpeed (new_Minitel auto true) = true /\
  answersFirst (minitel1B 0%nat 1200) minitel1B_reply /\
  writeError (minitel1B 0%nat 1200) 2%nat = None /\
  (forall newSpeed, openError (minitel1B 1%nat newSpeed) = None) /\
  exists info speedCode,
    parseDeviceIdentification minitel1B_reply = Some info /\
    speedCodes !! maxSpeed info = Some speedCode.
Proof.
  assert (Hauto : options_autoUpgradeSpeed (new_Minitel auto true) = true) by reflexivity.
  assert (Hid : answersFirst (minitel1B 0%nat 1200) minitel1B_reply)
    by exact minitel1B_answersFirst.
  assert (Hw2 : writeError (minitel1B 0%nat 1200) 2%nat = None) by reflexivity.
  assert (Hopen : forall newSpeed, openError (minitel1B 1%nat newSpeed) = None).
  { intros newSpeed. unfold minitel1B. destruct (newSpeed =? 1200); reflexivity. }
  split; [exact Hauto|]. split; [exact Hid|]. split; [exact Hw2|]. split; [exact Hopen|].
  destruct (connectAt_upgrades_speed minitel1B 1200 minitel1B_reply
              (new_Minitel auto true) Hauto Hid Hw2 Hopen)
    as (info & speedCode & Hparse & Hcode & _).
  exists info, speedCode. split; [exact Hparse|exact Hcode].
Defined.

(** X9. When the first candidate's port opens and takes every write,
    and the first event received during its wait is an identification
    reply, [connect] with ['auto'] and no speed upgrade
    returns a driver on which commands work: the line has carried the
    identification query and the screen clear, and a [writeText] then
    adds the encoded text and nothing else. *)
Theorem connect_then_commands (terminal : nat -> Z -> Session)
    (response : list Z) (text : list Z) :
  answersFirst (terminal 0%nat 1200) response ->
  (forall k, writeError (terminal 0%nat 1200) k = None) ->
  Forall isCodePoint text ->
  let connected := snd (connect terminal (new_Minitel auto false)) in
  fst (connect terminal (new_Minitel auto false)) = Return tt /\
  reliable terminal connected /\
  sent connected = [identificationQuery; [0x0C]] /\
  fst (writeText terminal text connected) = Return tt /\
  sent (snd (writeText terminal text connected))
  = [identificationQuery; [0x0C]; concat (map charToMinitel text)].
Proof.
  intros Hanswer Hwrite Hcp. cbv zeta.
  pose proof Hanswer as (_ & _ & _ & Hacc & _).
  pose proof (answersFirst_identifies _ _ Hanswer) as Hid.
  destruct (parseDeviceIdentification_reply response Hacc) as (info & Hparse & _).
  destruct (connect_loop_identified terminal 1200 [4800; 9600] response info
              (new_Minitel auto false) Hid Hparse)
    as (Hr & _ & _ & tail & _ & Hplain).
  destruct (Hplain (or_introl eq_refl)) as (_ & Hstate).
  unfold connect. cbn [options_baudRate new_Minitel]. unfold baudRates.
  rewrite Hstate.
  assert (Hrel : reliable terminal
                   (after_identified 1200 info (new_Minitel auto false))).
  { split; [reflexivity|]. eexists. split; [reflexivity|].
    split; [reflexivity|]. intros k _. apply Hwrite. }
  split; [exact Hr|]. split; [exact Hrel|].
  split; [reflexivity|].
  assert (Hbytes : Forall (fun b => 0 <= b < 256) (concat (map charToMinitel text))).
  { apply Forall_concat. apply Forall_map.
    eapply Forall_impl; [exact Hcp|]. intros char. apply charToMinitel_bytes. }
  unfold writeText. rewrite (Buffer_from_bytes _ Hbytes).
  rewrite (proj1 (write_reliable terminal _ _ Hrel)). cbn [fst snd].
  split; [reflexivity|]. rewrite sent_sending. reflexivity.
Qed.

Lemma connect_then_commands_witness :
  answersFirst (minitel1B 0%nat 1200) minitel1B_reply /\
  (forall k, writeError (minitel1B 0%nat 1200) k = None) /\
  Forall isCodePoint [0x42; 0x6F; 0x6E] /\
  sent (snd (writeText minitel1B [0x42; 0x6F; 0x6E]
               (snd (connect minitel1B (new_Minitel auto false)))))
  = [identificationQuery; [0x0C]; [0x42; 0x6F; 0x6E]].
Proof.
  assert (Hid : answersFirst (minitel1B 0%nat 1200) minitel1B_reply)
    by exact minitel1B_answersFirst.
  assert (Hw : forall k, writeError (minitel1B 0%nat 1200) k = None)
    by (intros k; reflexivity).
  assert (Hcp : Forall isCodePoint [0x42; 0x6F; 0x6E])
    by (repeat constructor; unfold isCodePoint; lia).
  split; [exact Hid|]. split; [exact Hw|]. split; [exact Hcp|].
  exact (proj2 (proj2 (proj2 (proj2
    (connect_then_commands minitel1B minitel1B_reply [0x42; 0x6F; 0x6E] Hid Hw Hcp))))).
Defined.

(** ** Inherited format names *)

Lemma toLowerCase_unit_idempotent (a : ascii) :
  toLowerCase_unit (toLowerCase_unit a) = toLowerCase_unit a.
Proof. destruct a as [[] [] [] [] [] [] [] []]; vm_compute; reflexivity. Qed.

Lemma toLowerCase_idempotent (s : string) :
  toLowerCase (toLowerCase s) = toLowerCase s.
Proof.
  induction s as [|a s IH]; [reflexivity|].
  cbn [toLowerCase]. rewrite IH, toLowerCase_unit_idempotent. reflexivity.
Qed.

(** X10. A format name whose lower-case form is a property that the
    table inherits from [Object.prototype] is ["constructor"] or
    ["__proto__"]; [setFormat] does not reject it, and on a connected
    driver with a working port writes ESC followed by the byte 0. *)
Theorem setFormat_inherited_names_accepted (terminal : nat -> Z -> Session)
    (code : string) (m : Minitel) :
  toLowerCase code ∈ objectPrototypeNames ->
  (toLowerCase code = "constructor" \/ toLowerCase code = "__proto__") /\
  fst (setFormat terminal (named code) m) ≠ Throw (invalidFormat code) /\
  (reliable terminal m ->
   setFormat terminal (named code) m = (Return tt, sending [0x1B; 0] m)).
Proof.
  intros Hin.
  assert (Hname : toLowerCase code = "constructor" \/ toLowerCase code = "__proto__")
    by (apply inherited_lowercase_names; [exact Hin|apply toLowerCase_idempotent]).
  split; [exact Hname|].
  assert (Hget : formatCodes_get (toLowerCase code) = Some inherited)
    by (destruct Hname as [-> | ->]; vm_compute; reflexivity).
  unfold setFormat. rewrite Hget. cbn [jsvalue_entry]. split.
  - apply write_not_validation. eexists. right. reflexivity.
  - intros Hrel. apply write_reliable. exact Hrel.
Qed.

Lemma setFormat_inherited_names_accepted_witness :
  toLowerCase "Constructor" ∈ objectPrototypeNames /\
  fst (setFormat (fun _ _ => silent) (named "Constructor") plugged)
  ≠ Throw (invalidFormat "Constructor").
Proof.
  assert (Hin : toLowerCase "Constructor" ∈ objectPrototypeNames)
    by (apply (bool_decide_unpack _); vm_compute; reflexivity).
  split; [exact Hin|].
  exact (proj1 (proj2 (setFormat_inherited_names_accepted
                         (fun _ _ => silent) "Constructor" plugged Hin))).
Defined.


(** ** The repeat command, expanded *)

Lemma expandREP_literal (char : Z) (n : nat) (last : Z) (rest : list Z) :
  char ≠ CODES.REP -> (0 < n)%nat ->
  expandREP last (replicate n char ++ rest) = replicate n char ++ expandREP char rest.
Proof.
  intros Hc Hn. revert last. induction n as [|n IH]; intros last; [lia|].
  cbn [replicate app expandREP].
  destruct (Z.eqb_spec char CODES.REP); [contradiction|].
  destruct n as [|n]; [reflexivity|].
  rewrite IH by lia. reflexivity.
Qed.

Lemma expandREP_block (char count last : Z) (rest : list Z) :
  32 <= char <= 126 -> 1 <= count <= 64 ->
  expandREP last (repeatBlock char count ++ rest)
  = replicate (Z.to_nat count) char ++ expandREP char rest.
Proof.
  intros Hc Hn.
  assert (Hrep : char ≠ CODES.REP) by (unfold CODES.REP; lia).
  unfold repeatBlock. destruct (Z.leb_spec count 3) as [Hle|Hgt].
  - assert (Hplain : charToMinitel char = [char]).
    { assert (Hnone : accentMap !! char = None).
      { apply accentMap_lookup_None. intros Hin.
        pose proof accentEntries_keys_above_ascii as Hall.
        rewrite Forall_forall in Hall. apply Hall in Hin. lia. }
      unfold charToMinitel. rewrite Hnone. unfold charCodeAt0.
      destruct (Z.ltb_spec char 0x10000); [|lia].
      destruct (Z.leb_spec char 127); [reflexivity|lia]. }
    rewrite Hplain.
    replace (concat (replicate (Z.to_nat count) [char]))
      with (replicate (Z.to_nat count) char).
    + apply expandREP_literal; [exact Hrep|lia].
    + generalize (Z.to_nat count). intros n.
      induction n as [|n IH]; cbn; [reflexivity|]. rewrite <- IH. reflexivity.
  - assert (Hcode : toUint8 (charCodeAt0 char) = char).
    { unfold charCodeAt0. destruct (Z.ltb_spec char 0x10000); [|lia].
      apply toUint8_byte. lia. }
    rewrite Hcode. cbn [app expandREP].
    destruct (Z.eqb_spec char CODES.REP); [contradiction|].
    change (18 =? CODES.REP) with true. cbn match.
    replace (count - 1 + 64 - 64) with (count - 1) by lia.
    rewrite app_comm_cons. f_equal.
    replace (Z.to_nat count) with (S (Z.to_nat (count - 1))) by lia.
    reflexivity.
Qed.

Lemma expandREP_blocks (char : Z) (blocks : nat) (count last : Z) :
  32 <= char <= 126 -> 1 <= count <= 64 ->
  expandREP last (concat (replicate blocks (repeatBlock char 64)
                          ++ [repeatBlock char count]))
  = replicate (64 * blocks + Z.to_nat count) char.
Proof.
  intros Hc Hn. revert last. induction blocks as [|blocks IH]; intros last.
  - cbn [replicate app concat]. rewrite expandREP_block by assumption.
    cbn [expandREP]. rewrite app_nil_r. f_equal.
  - cbn [replicate app concat]. rewrite expandREP_block by (assumption || lia).
    rewrite IH. rewrite <- replicate_add. f_equal. lia.
Qed.

(** X11. For a printable ASCII character and a count of at least one,
    what [writeRepeated] writes, read as the comment of the method
    describes the repeat command, is the character repeated count times:
    the split into chunks of 64 and the directive count - 1 + 64 lose and
    add nothing; and every buffer written has at most three bytes. *)
Theorem writeRepeated_expands_to_repetitions (terminal : nat -> Z -> Session)
    (char count last : Z) (m : Minitel) :
  32 <= char <= 126 -> 1 <= count -> reliable terminal m ->
  exists blocks,
    fst (writeRepeated terminal char count m) = Return tt /\
    sent (snd (writeRepeated terminal char count m)) = sent m ++ blocks /\
    expandREP last (concat blocks) = replicate (Z.to_nat count) char /\
    Forall (fun block => (length block <= 3)%nat) blocks.
Proof.
  intros Hc Hn Hrel.
  assert (Hcp : isCodePoint char) by (unfold isCodePoint; lia).
  destruct (writeRepeated_rec_blocks terminal char (Z.to_nat count) Hcp count m)
    as (m' & Hrun & _ & Hsent); [lia|exact Hrel|].
  exists (repeatBlocks char count).
  unfold writeRepeated. rewrite Hrun. cbn [fst snd].
  split; [reflexivity|]. split; [exact Hsent|].
  assert (Hfull : 0 <= (count - 1) / 64) by (apply Z.div_pos; lia).
  pose proof (Z.mul_div_le (count - 1) 64) as Hlo.
  pose proof (Z.mul_succ_div_gt (count - 1) 64) as Hhi.
  unfold repeatBlocks. cbv zeta. split.
  - rewrite expandREP_blocks by (assumption || lia). f_equal. lia.
  - assert (Hblock : forall k, 1 <= k <= 64 -> (length (repeatBlock char k) <= 3)%nat).
    { intros k Hk. unfold repeatBlock. destruct (Z.leb_spec k 3); [|cbn; lia].
      assert (Hplain : charToMinitel char = [char]).
      { assert (Hnone : accentMap !! char = None).
        { apply accentMap_lookup_None. intros Hin.
          pose proof accentEntries_keys_above_ascii as Hall.
          rewrite Forall_forall in Hall. apply Hall in Hin. lia. }
        unfold charToMinitel. rewrite Hnone. unfold charCodeAt0.
        destruct (Z.ltb_spec char 0x10000); [|lia].
        destruct (Z.leb_spec char 127); [reflexivity|lia]. }
      rewrite Hplain.
      assert (Hlen : forall n, length (concat (replicate n [char])) = n).
      { intros n. induction n as [|n IH]; cbn; [reflexivity|]. rewrite IH. reflexivity. }
      rewrite Hlen. lia. }
    apply Forall_app. split.
    + apply Forall_replicate. apply Hblock. lia.
    + constructor; [apply Hblock; lia|constructor].
Qed.

Lemma writeRepeated_expands_to_repetitions_witness :
  32 <= 0x2D <= 126 /\ 1 <= 70 /\ reliable (fun _ _ => silent) plugged /\
  exists blocks,
    sent (snd (writeRepeated (fun _ _ => silent) 0x2D 70 plugged)) = sent plugged ++ blocks /\
    expandREP 0 (concat blocks) = replicate 70 0x2D.
Proof.
  assert (Hc : 32 <= 0x2D <= 126) by lia.
  assert (Hn : 1 <= 70) by lia.
  assert (Hrel : reliable (fun _ _ => silent) plugged).
  { split; [reflexivity|]. eexists. split; [reflexivity|]. split; [reflexivity|].
    intros k _. reflexivity. }
  split; [exact Hc|]. split; [exact Hn|]. split; [exact Hrel|].
  destruct (writeRepeated_expands_to_repetitions (fun _ _ => silent) 0x2D 70 0
              plugged Hc Hn Hrel) as (blocks & _ & Hsent & Hexp & _).
  exists blocks. split; [exact Hsent|exact Hexp].
Defined.

(** ** The framer on any input *)

Lemma receive_armed_empty_after (t deadline : Z) (data : list Z) (s : Inbox) :
  armed [] deadline s -> now s <= t -> deadline <= t ->
  armed data (t + 50) (receive t data s) /\
  delivered (receive t data s) = delivered s /\
  now (receive t data s) = t.
Proof.
  intros (Hb & (h & Hbt & Ht) & He & Ho) Hnow Hle.
  destruct s as [ib bt er nr od nw tm nh ws pr dl]; cbn in *; subst.
  unfold receive, advance, handleInputData, armed. cbn.
  destruct (Z.leb_spec deadline t); [|lia]. cbn.
  framer_simpl.
  replace (Z.max (Z.max nw deadline) t) with t by lia.
  framer_simpl. eauto 10.
Qed.

Lemma framing_receive (bytes data : list Z) (t : Z) (s : Inbox) :
  framing bytes s -> now s <= t ->
  framing (bytes ++ data) (receive t data s) /\ now (receive t data s) = t.
Proof.
  intros (Hne & [(Hidle & Hd)|(buffer & Harmed & Hd)]) Hnow.
  - destruct (receive_idle t data s Hidle Hnow) as (Ha & Hdel & Hn).
    split; [|exact Hn]. split; [rewrite Hdel; exact Hne|].
    right. exists data. rewrite Hn, Hdel, Hd. split; [exact Ha|reflexivity].
  - destruct (Z.lt_ge_cases t (now s + 50)) as [Hlt|Hge].
    + destruct (receive_armed_within t _ buffer data s Harmed Hnow Hlt)
        as (Ha & Hdel & Hn).
      split; [|exact Hn]. split; [rewrite Hdel; exact Hne|].
      right. exists (buffer ++ data). rewrite Hn, Hdel, <- Hd, app_assoc.
      split; [exact Ha|reflexivity].
    + destruct buffer as [|b buffer].
      * destruct (receive_armed_empty_after t _ data s Harmed Hnow Hge)
          as (Ha & Hdel & Hn).
        split; [|exact Hn]. split; [rewrite Hdel; exact Hne|].
        right. exists data. rewrite Hn, Hdel, <- Hd, app_nil_r.
        split; [exact Ha|reflexivity].
      * destruct (receive_armed_after t _ (b :: buffer) data s Harmed) as (Ha & Hdel & Hn);
          [discriminate|exact Hnow|exact Hge|].
        split; [|exact Hn]. split.
        { rewrite Hdel. apply Forall_app. split; [exact Hne|].
          constructor; [discriminate|constructor]. }
        right. exists data. rewrite Hn, Hdel, <- Hd.
        split; [exact Ha|]. rewrite concat_app. cbn [concat].
        rewrite app_nil_r. reflexivity.
Qed.

Lemma framing_play (events : list (Z * list Z)) :
  forall bytes s,
    framing bytes s -> chronological (now s) events ->
    framing (bytes ++ concat (events.*2)) (play events s) /\
    (forall T, (forall event, event ∈ events -> event.1 <= T) -> now s <= T ->
               now (play events s) <= T).
Proof.
  induction events as [|[t data] events IH]; intros bytes s Hf Hch.
  - cbn. rewrite app_nil_r. split; [exact Hf|]. intros T _ Hn. exact Hn.
  - destruct Hch as [Ht Hch]. cbn [fst snd] in *.
    destruct (framing_receive bytes data t s Hf Ht) as [Hf' Hn'].
    rewrite <- Hn' in Hch.
    destruct (IH _ _ Hf' Hch) as [Hfinal Hnow].
    unfold play in *. cbn [foldl fmap list_fmap concat fst snd].
    split.
    + change (list_fmap _ _ snd events) with (events.*2).
      rewrite app_assoc. exact Hfinal.
    + intros T Hall _. apply Hnow.
      * intros event Hin. apply Hall. apply list_elem_of_further. exact Hin.
      * rewrite Hn'. apply (Hall (t, data)). apply list_elem_of_here.
Qed.

Lemma framing_new : framing [] new_Inbox.
Proof.
  split; [constructor|]. left. split; [|reflexivity]. repeat split.
Qed.

(** X12. Whatever the port delivers, and whenever, the events the
    application receives, put end to end, are the bytes received, in
    order: once 50 ms have passed since the last arrival nothing is left
    in the accumulator, no timer is pending, and no event delivered is
    empty. *)
Theorem framer_conserves_bytes (events : list (Z * list Z)) (T : Z) :
  chronological 0 events ->
  (forall event, event ∈ events -> event.1 + 50 <= T) ->
  let s := advance T (play events new_Inbox) in
  concat (delivered s) = concat (events.*2) /\
  Forall (fun event => event ≠ []) (delivered s) /\
  inputBuffer s = [] /\ timers s = [].
Proof.
  intros Hch Hquiet. cbv zeta.
  destruct (framing_play events [] new_Inbox framing_new Hch) as [Hf Hnow].
  cbn [app] in Hf.
  destruct Hf as (Hne & [(Hidle & Hd)|(buffer & Harmed & Hd)]).
  - assert (Hsame : advance T (play events new_Inbox)
                    = set_now (Z.max (now (play events new_Inbox)) T)
                        (play events new_Inbox)).
    { destruct Hidle as (_ & Ht & _). unfold advance. rewrite Ht. reflexivity. }
    rewrite Hsame. cbn.
    destruct Hidle as (Hb & Ht & _). repeat split; assumption.
  - assert (Hdue : now (play events new_Inbox) + 50 <= T).
    { destruct events as [|event events].
      - destruct Harmed as (_ & (h & _ & Ht) & _). cbn in Ht. discriminate.
      - assert (Hle : now (play (event :: events) new_Inbox) <= T - 50).
        { apply Hnow.
          - intros e Hin. specialize (Hquiet e Hin). lia.
          - cbn. specialize (Hquiet event (list_elem_of_here _ _)).
            destruct Hch as [H0 _]. lia. }
        lia. }
    destruct buffer as [|b buffer].
    + destruct (advance_armed_empty T _ _ Harmed Hdue) as ((Hb & Ht & _) & Hdel).
      rewrite Hdel. rewrite app_nil_r in Hd. repeat split; assumption.
    + destruct (advance_armed_due T _ (b :: buffer) _ Harmed) as ((Hb & Ht & _) & Hdel & _);
        [discriminate|exact Hdue|].
      rewrite Hdel, concat_app. cbn [concat]. rewrite app_nil_r.
      split; [exact Hd|]. split; [|split; assumption].
      apply Forall_app. split; [exact Hne|]. constructor; [discriminate|constructor].
Qed.

Lemma framer_conserves_bytes_witness :
  chronological 0 [(10, [0x13]); (20, [0x41]); (500, [0x42])] /\
  (10 + 50 <= 550 /\ 20 + 50 <= 550 /\ 500 + 50 <= 550) /\
  concat (delivered
            (advance 550 (play [(10, [0x13]); (20, [0x41]); (500, [0x42])] new_Inbox)))
  = [0x13; 0x41; 0x42].
Proof.
  assert (Hch : chronological 0 [(10, [0x13]); (20, [0x41]); (500, [0x42])])
    by (cbn; lia).
  assert (Hquiet : forall event,
             event ∈ [(10, [0x13]); (20, [0x41]); (500, [0x42])] ->
             event.1 + 50 <= 550).
  { intros event Hin.
    repeat (apply elem_of_cons in Hin as [->|Hin]; [cbn; lia|]).
    apply elem_of_nil in Hin. contradiction. }
  split; [exact Hch|]. split; [lia|].
  exact (proj1 (framer_conserves_bytes _ 550 Hch Hquiet)).
Defined.

(** X13. The two bytes of a function key, 0x13 and the key code,
    give one event that [parseFunctionKey] reads as that key when the
    second byte arrives less than 50 ms after the first; 50 ms or more
    apart they give two events of one byte, and neither is a function
    key. *)
Theorem function_key_needs_both_bytes_within_window
    (t1 t2 T code : Z) (s : Inbox) :
  idle s -> now s <= t1 -> t1 <= t2 -> t2 + 50 <= T ->
  let events := delivered (advance T (receive t2 [code] (receive t1 [0x13] s))) in
  (t2 < t1 + 50 ->
   events = delivered s ++ [[0x13; code]] /\
   parseFunctionKey [0x13; code] = Some code) /\
  (t1 + 50 <= t2 ->
   events = delivered s ++ [[0x13]; [code]] /\
   parseFunctionKey [0x13] = None /\ parseFunctionKey [code] = None).
Proof.
  intros Hidle Hnow H12 HT. cbv zeta.
  destruct (receive_idle t1 [0x13] s Hidle Hnow) as (Ha1 & Hd1 & Hn1).
  split.
  - intros Hin.
    destruct (receive_armed_within t2 (t1 + 50) [0x13] [code] _ Ha1) as (Ha2 & Hd2 & Hn2);
      [lia|lia|].
    destruct (advance_armed_due T (t2 + 50) _ _ Ha2) as (_ & Hd3 & _);
      [discriminate|lia|].
    rewrite Hd3, Hd2, Hd1. split; reflexivity.
  - intros Hout.
    destruct (receive_armed_after t2 (t1 + 50) [0x13] [code] _ Ha1) as (Ha2 & Hd2 & Hn2);
      [discriminate|lia|lia|].
    destruct (advance_armed_due T (t2 + 50) _ _ Ha2) as (_ & Hd3 & _);
      [discriminate|lia|].
    rewrite Hd3, Hd2, Hd1, <- app_assoc. repeat split.
Qed.

Lemma function_key_needs_both_bytes_within_window_witness :
  idle new_Inbox /\ now new_Inbox <= 10 /\ 10 <= 30 /\ 30 + 50 <= 100 /\
  delivered (advance 100 (receive 30 [0x41] (receive 10 [0x13] new_Inbox)))
  = [[0x13; 0x41]].
Proof.
  assert (Hidle : idle new_Inbox) by (repeat split).
  assert (Hnow : now new_Inbox <= 10) by (cbn; lia).
  assert (H12 : 10 <= 30) by lia.
  assert (HT : 30 + 50 <= 100) by lia.
  split; [exact Hidle|]. split; [exact Hnow|]. split; [exact H12|]. split; [exact HT|].
  assert (Hin : 30 < 10 + 50) by lia.
  exact (proj1 (proj1 (function_key_needs_both_bytes_within_window
                         10 30 100 0x41 new_Inbox Hidle Hnow H12 HT) Hin)).
Defined.


(** ** Pending replies and waits *)

(** X14. The flush of [handleInputData] does nothing on an empty
    accumulator.  On a non-empty one, when entries of [expectedReplies]
    accept the bytes, the first of them in the order of the list is
    removed, its timer cleared and its promise resolved with the flushed
    bytes, the other entries and [onData] are left alone and the
    application is not called; when no entry accepts them, the bytes go to
    [onData]. *)
Theorem flush_resolves_oldest_matching_reply (s : Inbox) :
  (inputBuffer s = [] -> on_flush s = s) /\
  (inputBuffer s ≠ [] ->
   (forall i e,
      expectedReplies s !! i = Some e ->
      reply_predicate e (inputBuffer s) = true ->
      (forall j e', (j < i)%nat -> expectedReplies s !! j = Some e' ->
                    reply_predicate e' (inputBuffer s) = false) ->
      expectedReplies (on_flush s) = delete i (expectedReplies s) /\
      timers (on_flush s)
      = List.filter (fun x => negb (Nat.eqb (handle x) (reply_timeout e))) (timers s) /\
      inputBuffer (on_flush s) = [] /\
      delivered (on_flush s) = delivered s /\
      onData (on_flush s) = onData s /\
      waits (on_flush s) = waits s /\
      (promises s !! reply_resolve e = Some None ->
       settled (reply_resolve e) (on_flush s) = Some (resolved (inputBuffer s)))) /\
   (Forall (fun e => reply_predicate e (inputBuffer s) = false) (expectedReplies s) ->
    on_flush s = call_onData (inputBuffer s) (set_inputBuffer [] s))).
Proof.
  split.
  - intros Hb. unfold on_flush. rewrite Hb. reflexivity.
  - intros Hne. split.
    + intros i e Hi He Hmin.
      assert (Hf : firstExpected (inputBuffer s) (expectedReplies s) = Some (i, e)).
      { apply firstExpected_Some. split; [exact Hi|]. split; [exact He|exact Hmin]. }
      unfold on_flush.
      destruct (inputBuffer s) as [|b buffer] eqn:Hb; [congruence|].
      cbn [expectedReplies set_inputBuffer]. rewrite Hf.
      unfold settle. cbn.
      destruct (promises s !! reply_resolve e) as [[o|]|] eqn:Hp; cbn;
        repeat split; try discriminate.
      intros _. unfold settled. cbn.
      rewrite list_lookup_insert_eq by (eapply lookup_lt_Some; exact Hp). reflexivity.
    + intros Hall. apply on_flush_unmatched; [exact Hne|].
      apply firstExpected_None. exact Hall.
Qed.

Lemma deliver_uncollected (events : list (list Z)) :
  forall (s : Inbox) (w : nat) (c : Wait),
    onData s = collector w -> waits s !! w = Some c ->
    originalOnData c = application ->
    promises s !! wait_promise c = Some None ->
    delivered (deliver events s)
    = delivered s ++ uncollected (wait_predicate c) (responseData c) events /\
    match collect (wait_predicate c) (responseData c) events with
    | Some response =>
        settled (wait_promise c) (deliver events s) = Some (resolved response) /\
        onData (deliver events s) = application /\
        Forall (fun x => handle x ≠ timer c) (timers (deliver events s))
    | None =>
        settled (wait_promise c) (deliver events s) = None /\
        onData (deliver events s) = collector w /\
        timers (deliver events s) = timers s
    end.
Proof.
  induction events as [|data events IH]; intros s w c Ho Hw Horig Hp.
  - cbn [collect uncollected deliver foldl]. unfold settled. rewrite Hp, app_nil_r.
    repeat split; assumption.
  - cbn [collect uncollected]. rewrite deliver_cons.
    unfold call_onData. rewrite Ho. unfold on_collector. rewrite Hw.
    destruct (wait_predicate c (responseData c ++ data)) eqn:Hpred.
    + unfold settle, cleanup. cbn. rewrite Hp.
      rewrite deliver_application by exact Horig.
      unfold settled. cbn.
      rewrite list_lookup_insert_eq by (eapply lookup_lt_Some; exact Hp).
      split; [reflexivity|]. split; [reflexivity|]. split; [exact Horig|].
      apply Forall_forall. intros x Hin%list_elem_of_In%filter_In.
      destruct Hin as [_ Hx]. apply negb_true_iff, Nat.eqb_neq in Hx. exact Hx.
    + set (c' := {| wait_predicate := wait_predicate c;
                    responseData := responseData c ++ data;
                    timer := timer c; originalOnData := originalOnData c;
                    wait_promise := wait_promise c |}).
      specialize (IH (set_waits (<[w := c']> (waits s)) s) w c').
      cbn [wait_predicate responseData wait_promise originalOnData c' onData
           set_waits waits promises delivered timers] in IH.
      apply IH; try assumption.
      apply list_lookup_insert_eq. eapply lookup_lt_Some. exact Hw.
Qed.

(** X15. A wait registered by [_waitForResponse] while the
    application's callback is installed is resolved with the
    concatenation of the events handed to [onData] since, as soon as its
    predicate accepts that concatenation; its timer is then cleared, the
    application's callback is back, and the events that follow reach the
    application.  Until then the wait stays pending and the application
    receives nothing. *)
Theorem waitForResponse_collects_until_accepted
    (predicate : list Z -> bool) (timeout : Z) (events : list (list Z)) (s : Inbox) :
  onData s = application ->
  let waiting := _waitForResponse predicate timeout s in
  let after := deliver events (snd waiting) in
  delivered after = delivered s ++ uncollected predicate [] events /\
  match collect predicate [] events with
  | Some response =>
      settled (fst waiting) after = Some (resolved response) /\
      predicate response = true /\
      onData after = application /\
      Forall (fun x => handle x ≠ nextHandle s) (timers after)
  | None =>
      settled (fst waiting) after = None /\
      uncollected predicate [] events = [] /\
      onData after = collector (length (waits s))
  end.
Proof.
  intros Ho. cbv zeta.
  set (c := {| wait_predicate := predicate; responseData := [];
               timer := nextHandle s; originalOnData := application;
               wait_promise := length (promises s) |}).
  assert (Hw : waits (snd (_waitForResponse predicate timeout s)) !! length (waits s)
               = Some c).
  { unfold _waitForResponse. cbn. rewrite Ho.
    rewrite lookup_app_r by lia. rewrite Nat.sub_diag. reflexivity. }
  assert (Hp : promises (snd (_waitForResponse predicate timeout s))
               !! wait_promise c = Some None).
  { unfold _waitForResponse. cbn.
    rewrite lookup_app_r by lia. rewrite Nat.sub_diag. reflexivity. }
  pose proof (deliver_uncollected events
                (snd (_waitForResponse predicate timeout s)) (length (waits s)) c
                eq_refl Hw eq_refl Hp) as [Hd H].
  cbn [wait_predicate responseData wait_promise c] in Hd, H.
  split; [exact Hd|].
  destruct (collect predicate [] events) as [response|] eqn:Hc.
  - destruct H as (Hs & Hon & Ht).
    split; [exact Hs|]. split; [exact (collect_Some _ _ _ _ Hc)|].
    split; [exact Hon|exact Ht].
  - destruct H as (Hs & Hon & Ht). split; [exact Hs|]. split; [|exact Hon].
    clear -Hc. revert Hc. generalize (@nil Z).
    induction events as [|data events IH]; intros acc; cbn; [reflexivity|].
    destruct (predicate (acc ++ data)); [discriminate|]. apply IH.
Qed.

Lemma waitForResponse_collects_until_accepted_witness :
  onData new_Inbox = application /\
  delivered
    (deliver [[0x41]; [0x01; 0x43; 0x75; 0x32; 0x04]; [0x42]]
       (snd (_waitForResponse (fun data => 6 <=? Z.of_nat (length data)) 1000 new_Inbox)))
  = [[0x42]].
Proof.
  assert (Ho : onData new_Inbox = application) by reflexivity.
  split; [exact Ho|].
  exact (proj1 (waitForResponse_collects_until_accepted
                  (fun data => 6 <=? Z.of_nat (length data)) 1000
                  [[0x41]; [0x01; 0x43; 0x75; 0x32; 0x04]; [0x42]] new_Inbox Ho)).
Defined.

Lemma findIndex_fresh (id : nat) (l : list Expected) :
  Forall (fun e => (reply_id e < id)%nat) l -> findIndex id l = None.
Proof.
  induction 1 as [|e l He _ IH]; cbn [findIndex]; [reflexivity|].
  destruct (Nat.eqb_spec (reply_id e) id); [lia|]. rewrite IH. reflexivity.
Qed.

Lemma findIndex_last (id : nat) (l : list Expected) (e : Expected) :
  Forall (fun e' => (reply_id e' < id)%nat) l -> reply_id e = id ->
  findIndex id (l ++ [e]) = Some (length l).
Proof.
  intros Hl He. induction Hl as [|x l Hx _ IH]; cbn [findIndex app length].
  - rewrite He, Nat.eqb_refl. reflexivity.
  - destruct (Nat.eqb_spec (reply_id x) id); [lia|]. rewrite IH. reflexivity.
Qed.

(** X16. The first [_waitForResponse] of the class body: when
    the entries of [expectedReplies] have ids below [nextReplyId], a call
    appends one entry with a fresh id and the ids stay below
    [nextReplyId]; its timeout callback removes that entry and no other,
    rejects the promise with the timeout error and does not call the
    application. *)
Theorem waitForResponse_first_timeout_unregisters
    (predicate : list Z -> bool) (timeoutMs : Z) (s : Inbox) :
  Forall (fun e => (reply_id e < nextReplyId s)%nat) (expectedReplies s) ->
  let waiting := _waitForResponse_first predicate timeoutMs s in
  let timedOut := on_expectedTimeout (nextReplyId s) (fst waiting) (snd waiting) in
  expectedReplies (snd waiting)
  = expectedReplies s
    ++ [{| reply_id := nextReplyId s; reply_predicate := predicate;
           reply_resolve := fst waiting; reply_timeout := nextHandle s |}] /\
  Forall (fun e => (reply_id e < nextReplyId (snd waiting))%nat)
    (expectedReplies (snd waiting)) /\
  settled (fst waiting) (snd waiting) = None /\
  expectedReplies timedOut = expectedReplies s /\
  settled (fst waiting) timedOut
  = Some (rejected "Timeout waiting for Minitel response") /\
  onData timedOut = onData s /\ delivered timedOut = delivered s.
Proof.
  intros Hids. cbv zeta. unfold _waitForResponse_first. cbn.
  split; [reflexivity|]. split.
  { apply Forall_app. split.
    - eapply Forall_impl; [exact Hids|]. cbn. intros e He. lia.
    - constructor; [cbn; lia|constructor]. }
  split.
  { unfold settled. cbn. rewrite lookup_app_r by lia.
    rewrite Nat.sub_diag. reflexivity. }
  unfold on_expectedTimeout. cbn.
  erewrite findIndex_last; [|exact Hids|reflexivity].
  unfold settle. cbn.
  rewrite lookup_app_r by lia. rewrite Nat.sub_diag. cbn.
  split.
  { rewrite delete_middle. apply app_nil_r. }
  split; [|split; reflexivity].
  unfold settled. cbn.
  rewrite list_lookup_insert_eq by (rewrite length_app; cbn; lia). reflexivity.
Qed.

Lemma waitForResponse_first_timeout_unregisters_witness :
  Forall (fun e => (reply_id e < nextReplyId new_Inbox)%nat) (expectedReplies new_Inbox) /\
  expectedReplies
    (on_expectedTimeout 0 0 (snd (_waitForResponse_first identificationReply 200 new_Inbox)))
  = [].
Proof.
  assert (Hids : Forall (fun e => (reply_id e < nextReplyId new_Inbox)%nat)
                   (expectedReplies new_Inbox)) by constructor.
  split; [exact Hids|].
  exact (proj1 (proj2 (proj2 (proj2
    (waitForResponse_first_timeout_unregisters identificationReply 200 new_Inbox Hids))))).
Defined.

(** ** Calls of the applications *)

Lemma accepted_write (data : list Z) : accepted (call_write data).
Proof.
  intros terminal m Hm. cbn [perform].
  rewrite (proj1 (write_reliable terminal data m Hm)). cbn [fst snd].
  split; [reflexivity|]. apply write_reliable. exact Hm.
Qed.

Lemma accepted_writeText (text : list Z) : accepted (call_writeText text).
Proof. apply (accepted_write _). Qed.

Lemma accepted_moveCursor (row col : Z) :
  0 <= row <= 24 -> 1 <= col <= 40 -> accepted (call_moveCursor row col).
Proof.
  intros Hr Hc terminal m Hm. cbn [perform]. unfold moveCursor.
  destruct (Z.ltb_spec row 0); [lia|]. destruct (Z.gtb_spec row 24); [lia|].
  destruct (Z.ltb_spec col 1); [lia|]. destruct (Z.gtb_spec col 40); [lia|].
  cbn [orb]. apply (accepted_write _ terminal m Hm).
Qed.

Lemma accepted_setFormat_named (name : string) :
  is_Some (formatCodes_get (toLowerCase name)) ->
  accepted (call_setFormat (named name)).
Proof.
  intros [v Hv] terminal m Hm. cbn [perform]. unfold setFormat. rewrite Hv.
  apply (accepted_write _ terminal m Hm).
Qed.

Lemma formatEntries_own :
  Forall (fun e => is_Some (formatCodes_get (toLowerCase e.1))) formatEntries.
Proof. repeat (constructor; [vm_compute; eauto|]). constructor. Qed.

(** A literal name of the table, as the applications pass them. *)
Lemma accepted_setFormat_table (name : string) :
  bool_decide (name ∈ formatEntries.*1) = true ->
  accepted (call_setFormat (named name)).
Proof.
  intros Hin%bool_decide_eq_true. apply accepted_setFormat_named.
  apply list_elem_of_fmap in Hin as (e & -> & Hin).
  pose proof formatEntries_own as Hall. rewrite Forall_forall in Hall.
  exact (Hall e Hin).
Qed.

Lemma accepted_setFormat_numeric (code : Z) :
  accepted (call_setFormat (numeric code)).
Proof. apply (accepted_write _). Qed.

Lemma accepted_writeRepeated (char count : Z) :
  isCodePoint char -> accepted (call_writeRepeated char count).
Proof.
  intros Hcp terminal m Hm. cbn [perform]. unfold writeRepeated.
  destruct (Z.leb_spec count 0) as [Hle|Hpos].
  - replace (writeRepeated_rec terminal (Z.to_nat count) char count m)
      with (@ret unit tt m).
    + split; [reflexivity|exact Hm].
    + destruct (Z.to_nat count); cbn [writeRepeated_rec];
        (destruct (Z.leb_spec count 0); [reflexivity|lia]).
  - destruct (writeRepeated_rec_blocks terminal char (Z.to_nat count) Hcp count m)
      as (m' & Hrun & Hrel & _); [lia|exact Hm|].
    rewrite Hrun. split; [reflexivity|exact Hrel].
Qed.


(** ** typing.js *)

Lemma typing_indexOf_Some (char : Z) (line : list Z) (i : nat) :
  typing.indexOf char line = Some i -> line !! i = Some char.
Proof.
  revert i. induction line as [|c line IH]; intros i; cbn [typing.indexOf].
  - discriminate.
  - destruct (Z.eqb_spec c char) as [->|Hne].
    + intros [= <-]. reflexivity.
    + destruct (typing.indexOf char line) as [k|]; cbn; [|discriminate].
      intros [= <-]. cbn. apply IH. reflexivity.
Qed.

Ltac norm_calls :=
  match goal with
  | |- Forall accepted ?l =>
      let l' := eval vm_compute in l in change (Forall accepted l')
  end.

Ltac accept_call :=
  lazymatch goal with
  | |- accepted (call_moveCursor _ _) => apply accepted_moveCursor; lia
  | |- accepted (call_setFormat (named _)) =>
      apply accepted_setFormat_table; vm_compute; reflexivity
  | |- accepted (call_setFormat (numeric _)) => apply accepted_setFormat_numeric
  | |- accepted (call_writeText _) => apply accepted_writeText
  | |- accepted (call_write _) => apply accepted_write
  | |- accepted call_clear => exact (accepted_write _)
  | |- accepted call_home => exact (accepted_write _)
  | |- accepted call_beep => exact (accepted_write _)
  | |- accepted call_hideCursor => exact (accepted_write _)
  end.

Ltac accept_calls :=
  repeat (apply List.Forall_cons; [accept_call|]); try apply List.Forall_nil.

Lemma typing_updateChar_accepted (char : Z) (shouldBlink : bool) :
  char ≠ 32 ->
  Forall accepted (typing.updateChar char shouldBlink 0 typing.KEYBOARD_LAYOUT).
Proof.
  intros Hc. unfold typing.KEYBOARD_LAYOUT. cbn [typing.updateChar].
  destruct (typing.indexOf char (codes "AZERTYUIOP")) as [i|] eqn:H0.
  { apply typing_indexOf_Some in H0.
    do 10 (destruct i as [|i]; [vm_compute in H0; injection H0 as <-;
                                 solve [destruct shouldBlink; norm_calls; accept_calls]|]).
    vm_compute in H0. discriminate. }
  destruct (typing.indexOf char (codes " QSDFGHJKLM")) as [i|] eqn:H1.
  { apply typing_indexOf_Some in H1.
    destruct i as [|i]; [vm_compute in H1; congruence|].
    do 10 (destruct i as [|i]; [vm_compute in H1; injection H1 as <-;
                                 solve [destruct shouldBlink; norm_calls; accept_calls]|]).
    vm_compute in H1. discriminate. }
  destruct (typing.indexOf char (codes "  WXCVBN")) as [i|] eqn:H2.
  { apply typing_indexOf_Some in H2.
    destruct i as [|i]; [vm_compute in H2; congruence|].
    destruct i as [|i]; [vm_compute in H2; congruence|].
    do 6 (destruct i as [|i]; [vm_compute in H2; injection H2 as <-;
                                solve [destruct shouldBlink; norm_calls; accept_calls]|]).
    vm_compute in H2. discriminate. }
  constructor.
Qed.

Lemma typing_updateKeyboardBlink_accepted (oldChar newChar : option Z) :
  Forall accepted (typing.updateKeyboardBlink oldChar newChar).
Proof.
  unfold typing.updateKeyboardBlink. apply Forall_app. split.
  - destruct oldChar as [char|]; [|constructor].
    destruct (Z.eqb_spec char 32); [constructor|].
    apply typing_updateChar_accepted. assumption.
  - destruct newChar as [char|]; [|constructor].
    destruct (Z.eqb_spec char 32); [constructor|].
    apply typing_updateChar_accepted. assumption.
Qed.

Lemma typing_startCol (g : typing.State) :
  typing.startCol g = Z.max 1 (20 - Z.of_nat (length (typing.targetWord g))).
Proof.
  unfold typing.startCol. f_equal.
  replace (40 - Z.of_nat (length (typing.targetWord g)) * 2)
    with ((20 - Z.of_nat (length (typing.targetWord g))) * 2) by lia.
  apply Z.div_mul. lia.
Qed.

(** X18. typing.js, [handleInput] up to its first [await]: for a word
    of at most 20 letters every call it makes is one a connected driver
    with a working port carries out; from the 21st letter of a longer word
    on, the correct key makes it call [moveCursor] with a column above 40,
    which [moveCursor] rejects with the invalid-position error. *)
Theorem typing_calls_accepted_up_to_20_letters (data : list Z) (g : typing.State) :
  ((length (typing.targetWord g) <= 20)%nat ->
   Forall accepted (snd (typing.handleInput data g))) /\
  (forall code,
     data = [code] -> 32 <= code <= 126 ->
     typing.targetWord g !! typing.currentPosition g = Some (typing.toUpperCase code) ->
     (20 <= typing.currentPosition g)%nat ->
     exists col,
       40 < col /\
       call_moveCursor 5 col ∈ snd (typing.handleInput data g) /\
       forall terminal m,
         perform terminal (call_moveCursor 5 col) m = (Throw invalidCursor, m)).
Proof.
  split.
  - intros Hlen. unfold typing.handleInput.
    destruct data as [|code [|c data]]; try constructor.
    destruct ((32 <=? code) && (code <=? 126)); [|constructor].
    cbv zeta.
    destruct (Nat.ltb_spec (typing.currentPosition g) (length (typing.targetWord g)))
      as [Hpos|Hpos]; cbn [andb]; [|accept_calls].
    case_bool_decide as Hletter; [|accept_calls].
    assert (Hecho : Forall accepted
              [call_moveCursor 9 18; call_setFormat (named "double");
               call_setFormat (named "white");
               call_writeText [typing.toUpperCase code]]) by accept_calls.
    assert (Hone : Forall accepted
              (typing.updateSingleLetter (typing.currentPosition g) g)).
    { unfold typing.updateSingleLetter. rewrite typing_startCol.
      apply List.Forall_cons; [apply accepted_moveCursor; lia|]. accept_calls. }
    assert (Hdone : Forall accepted typing.wordComplete)
      by (unfold typing.wordComplete; accept_calls).
    match goal with
    | |- context [typing.updateKeyboardBlink ?o ?n] =>
        pose proof (typing_updateKeyboardBlink_accepted o n) as Hblink;
        generalize dependent (typing.updateKeyboardBlink o n)
    end.
    intros blink Hblink.
    destruct (Nat.eqb _ _); cbn [snd]; rewrite !Forall_app; auto.
  - intros code -> Hcode Hletter Hpos.
    exists (typing.startCol g + Z.of_nat (typing.currentPosition g) * 2).
    assert (Hlt : (typing.currentPosition g < length (typing.targetWord g))%nat)
      by (eapply lookup_lt_Some; exact Hletter).
    assert (Hcol : 40 < typing.startCol g + Z.of_nat (typing.currentPosition g) * 2)
      by (rewrite typing_startCol; lia).
    split; [exact Hcol|]. split.
    + unfold typing.handleInput.
      destruct (Z.leb_spec 32 code); [|lia]. destruct (Z.leb_spec code 126); [|lia].
      cbn [andb]. cbv zeta.
      destruct (Nat.ltb_spec (typing.currentPosition g) (length (typing.targetWord g)));
        [|lia].
      rewrite (bool_decide_eq_true_2 _ Hletter). cbn [andb].
      destruct (Nat.eqb _ _); cbn [snd];
        (apply elem_of_app; right; apply elem_of_app; left;
         unfold typing.updateSingleLetter; apply list_elem_of_here).
    + intros terminal m. cbn [perform]. unfold moveCursor.
      destruct (Z.gtb_spec (typing.startCol g + Z.of_nat (typing.currentPosition g) * 2) 40);
        [|lia].
      rewrite !orb_true_r. reflexivity.
Qed.

Lemma typing_toUpperCase_range (code : Z) :
  32 <= code <= 126 ->
  32 <= typing.toUpperCase code <= 96 \/ 123 <= typing.toUpperCase code <= 126.
Proof.
  intros Hc. unfold typing.toUpperCase.
  destruct (Z.leb_spec 97 code); destruct (Z.leb_spec code 122); cbn [andb]; lia.
Qed.

Lemma typing_handleInput_step (data : list Z) (g : typing.State) :
  fst (typing.handleInput data g) = g \/
  exists code,
    data = [code] /\ 32 <= code <= 126 /\
    typing.targetWord g !! typing.currentPosition g = Some (typing.toUpperCase code) /\
    fst (typing.handleInput data g)
    = typing.set_currentPosition (S (typing.currentPosition g)) g.
Proof.
  unfold typing.handleInput.
  destruct data as [|code [|c data]]; [left; reflexivity| |left; reflexivity].
  destruct (Z.leb_spec 32 code); [|left; reflexivity].
  destruct (Z.leb_spec code 126); [|left; reflexivity].
  cbn [andb]. cbv zeta.
  destruct (Nat.ltb _ _); cbn [andb]; [|left; reflexivity].
  case_bool_decide as Hletter; [|left; reflexivity].
  right. exists code. split; [reflexivity|]. split; [lia|]. split; [exact Hletter|].
  destruct (Nat.eqb _ _); reflexivity.
Qed.

Lemma typing_typed_correct (keys : list Z) :
  forall (g : typing.State),
    Forall (fun code => 32 <= code <= 126) keys ->
    (forall (i : nat) code, keys !! i = Some code ->
       typing.targetWord g !! (typing.currentPosition g + i)%nat
       = Some (typing.toUpperCase code)) ->
    typing.typed ((fun code => [code]) <$> keys) g
    = typing.set_currentPosition (typing.currentPosition g + length keys) g.
Proof.
  induction keys as [|code keys IH]; intros g Hkeys Hword.
  - cbn. rewrite Nat.add_0_r. destruct g. reflexivity.
  - inversion Hkeys as [|? ? Hcode Hkeys']; subst.
    assert (Hletter : typing.targetWord g !! typing.currentPosition g
                      = Some (typing.toUpperCase code)).
    { rewrite <- (Nat.add_0_r (typing.currentPosition g)). apply Hword. reflexivity. }
    assert (Hlt : (typing.currentPosition g < length (typing.targetWord g))%nat)
      by (eapply lookup_lt_Some; exact Hletter).
    assert (Hstep : fst (typing.handleInput [code] g)
                    = typing.set_currentPosition (S (typing.currentPosition g)) g).
    { unfold typing.handleInput.
      destruct (Z.leb_spec 32 code); [|lia]. destruct (Z.leb_spec code 126); [|lia].
      cbn [andb]. cbv zeta.
      destruct (Nat.ltb_spec (typing.currentPosition g) (length (typing.targetWord g)));
        [|lia].
      rewrite (bool_decide_eq_true_2 _ Hletter). cbn [andb].
      destruct (Nat.eqb _ _); reflexivity. }
    unfold typing.typed in *. cbn [fmap list_fmap foldl]. rewrite Hstep.
    rewrite IH; [|exact Hkeys'|].
    + unfold typing.set_currentPosition. cbn. f_equal. lia.
    + intros i c Hi. cbn.
      replace (S (typing.currentPosition g + i)) with (typing.currentPosition g + S i)%nat
        by lia.
      apply Hword. exact Hi.
Qed.

(** X17. typing.js, [handleInput] up to its first [await]: an event
    does not change the word, and it advances the position, by one, only
    when it is a single byte from 32 to 126 whose upper case is the letter
    expected.  Typing the letters of the word in order, in either case,
    takes the position from 0 to the length of the word.  When the letter
    expected is not the upper case of a byte from 32 to 126 (an accented
    capital, a small letter), no input ever advances the position. *)
Theorem typing_handleInput_progress (g : typing.State) :
  (forall data,
     typing.targetWord (fst (typing.handleInput data g)) = typing.targetWord g /\
     (fst (typing.handleInput data g) = g \/
      exists code,
        data = [code] /\ 32 <= code <= 126 /\
        typing.targetWord g !! typing.currentPosition g
        = Some (typing.toUpperCase code) /\
        typing.currentPosition (fst (typing.handleInput data g))
        = S (typing.currentPosition g))) /\
  (forall keys,
     typing.currentPosition g = O ->
     Forall (fun code => 32 <= code <= 126) keys ->
     typing.toUpperCase <$> keys = typing.targetWord g ->
     typing.currentPosition (typing.typed ((fun code => [code]) <$> keys) g)
     = length (typing.targetWord g)) /\
  (forall letter,
     typing.targetWord g !! typing.currentPosition g = Some letter ->
     ¬ (32 <= letter <= 96 \/ 123 <= letter <= 126) ->
     forall keys, typing.typed keys g = g).
Proof.
  split; [|split].
  - intros data.
    destruct (typing_handleInput_step data g) as [Hsame|(code & -> & Hc & Hl & Hg)].
    + rewrite Hsame. split; [reflexivity|]. left. reflexivity.
    + rewrite Hg. split; [reflexivity|]. right. exists code.
      repeat split; try assumption; lia.
  - intros keys Hpos Hkeys Hword.
    rewrite (typing_typed_correct keys g Hkeys).
    + cbn. rewrite Hpos, <- Hword, length_fmap. reflexivity.
    + intros i code Hi. rewrite Hpos, <- Hword. cbn [Nat.add].
      rewrite list_lookup_fmap, Hi. reflexivity.
  - intros letter Hletter Hout keys.
    induction keys as [|data keys IH]; [reflexivity|].
    unfold typing.typed in *. cbn [foldl].
    destruct (typing_handleInput_step data g) as [Hsame|(code & _ & Hc & Hl & _)].
    + rewrite Hsame. exact IH.
    + rewrite Hletter in Hl. injection Hl as ->.
      destruct Hout. apply typing_toUpperCase_range. exact Hc.
Qed.

(** ** snake.js *)

Ltac accept_call' :=
  lazymatch goal with
  | |- accepted (call_moveCursor _ _) =>
      apply accepted_moveCursor;
      first [lia | vm_compute; split; discriminate]
  | |- accepted (call_writeRepeated _ _) =>
      apply accepted_writeRepeated; unfold isCodePoint; lia
  | |- _ => accept_call
  end.

Ltac accept_calls' :=
  repeat (apply List.Forall_cons; [accept_call'|]); try apply List.Forall_nil.

Lemma snake_same_eq (p q : snake.Pos) : snake.same p q = true <-> p = q.
Proof.
  unfold snake.same. rewrite andb_true_iff, !Z.eqb_eq.
  destruct p, q; cbn. split; [intros [-> ->]; reflexivity|intros [= -> ->]; auto].
Qed.

Lemma snake_existsb_same (p : snake.Pos) (body : list snake.Pos) :
  existsb (snake.same p) body = false -> p ∉ body.
Proof.
  intros Hnone Hin.
  assert (Hsome : existsb (snake.same p) body = true).
  { apply existsb_exists. exists p. split; [apply list_elem_of_In; exact Hin|].
    apply snake_same_eq. reflexivity. }
  congruence.
Qed.

Lemma snake_inArea_accepted (p : snake.Pos) :
  snake.inArea p -> accepted (call_moveCursor (snake.row p) (snake.col p)).
Proof.
  unfold snake.inArea, snake.GAME_AREA.top, snake.GAME_AREA.bottom,
    snake.GAME_AREA.left, snake.GAME_AREA.right.
  intros [Hr Hc]. apply accepted_moveCursor; lia.
Qed.

Lemma snake_drawScoreInBorder_accepted (g : snake.Game) :
  Forall accepted (snake.drawScoreInBorder g).
Proof. unfold snake.drawScoreInBorder. cbv zeta. accept_calls'. Qed.

Lemma snake_walls_accepted : Forall accepted snake.walls.
Proof. vm_compute snake.walls. accept_calls'. Qed.

Lemma snake_drawBorder_accepted (g : snake.Game) :
  Forall accepted (snake.drawBorder g).
Proof.
  unfold snake.drawBorder. cbv zeta.
  repeat (apply Forall_app; split);
    try apply snake_walls_accepted; try apply snake_drawScoreInBorder_accepted;
    accept_calls'.
Qed.

Lemma snake_showInstructions_accepted : Forall accepted snake.showInstructions.
Proof. unfold snake.showInstructions. accept_calls'. Qed.

Lemma snake_endGame_draw_accepted (g : snake.Game) :
  Forall accepted (snd (fst (snake.endGame_draw g))).
Proof. unfold snake.endGame_draw. cbv zeta. cbn [fst snd]. accept_calls'. Qed.

Lemma snake_drawSnake_accepted (g : snake.Game) :
  Forall snake.inArea (snake.snake g) -> Forall accepted (snake.drawSnake g).
Proof.
  unfold snake.drawSnake. induction 1 as [|p body Hp _ IH]; cbn [flat_map].
  - constructor.
  - apply List.Forall_cons; [apply snake_inArea_accepted; exact Hp|].
    apply List.Forall_cons; [apply accepted_writeText|exact IH].
Qed.

Lemma snake_spawnFood_loop_inArea (draws : list (Z * Z)) (body : list snake.Pos)
    (f : snake.Pos) :
  snake.inRange draws -> snake.spawnFood_loop draws body = Some f ->
  snake.inArea f /\ (f ∉ body).
Proof.
  induction 1 as [|[i j] draws [Hi Hj] _ IH]; cbn [snake.spawnFood_loop].
  - discriminate.
  - destruct (existsb _ body) eqn:Hfree; [exact IH|].
    intros [= <-]. split.
    + unfold snake.inArea, snake.GAME_AREA.top, snake.GAME_AREA.bottom,
        snake.GAME_AREA.left, snake.GAME_AREA.right in *. cbn in *. lia.
    + apply snake_existsb_same. exact Hfree.
Qed.

Lemma snake_spawnFood_sound (draws : list (Z * Z)) (g g' : snake.Game)
    (calls : list call) :
  snake.inRange draws -> snake.spawnFood draws g = Some (g', calls) ->
  Forall accepted calls /\
  exists f, snake.inArea f /\ (f ∉ snake.snake g) /\ g' = snake.set_food (Some f) g.
Proof.
  intros Hdraws. unfold snake.spawnFood.
  destruct (snake.spawnFood_loop draws (snake.snake g)) as [f|] eqn:Hloop;
    [|discriminate].
  destruct (snake_spawnFood_loop_inArea _ _ _ Hdraws Hloop) as [Hf Hfree].
  intros [= <- <-]. split.
  - apply List.Forall_cons; [accept_call'|].
    apply List.Forall_cons; [apply snake_inArea_accepted; exact Hf|].
    accept_calls'.
  - exists f. split; [exact Hf|]. split; [exact Hfree|reflexivity].
Qed.

Lemma snake_removelast_facts (p : snake.Pos) (body : list snake.Pos) :
  body ≠ [] ->
  length (removelast (p :: body)) = length body /\
  (forall q, q ∈ removelast (p :: body) -> q ∈ p :: body) /\
  (NoDup (p :: body) -> NoDup (removelast (p :: body))) /\
  exists tail, last (p :: body) = Some tail /\ tail ∈ body.
Proof.
  intros Hne.
  destruct (exists_last Hne) as (front & tail & ->).
  rewrite app_comm_cons, removelast_last, last_snoc, !length_app. cbn [length].
  split; [lia|]. split; [|split].
  - intros q Hq. rewrite <- app_comm_cons. apply elem_of_cons in Hq as [->|Hq].
    + apply list_elem_of_here.
    + apply list_elem_of_further, elem_of_app. left. exact Hq.
  - intros Hnd%NoDup_app. apply Hnd.
  - exists tail. split; [reflexivity|]. apply elem_of_app. right. apply list_elem_of_here.
Qed.

Lemma snake_update_sound (now : Z) (p : snake.Program) :
  snake.sound p ->
  let '(g, calls, more) := snake.update now (snake.game p) in
  snake.sound {| snake.game := g; snake.awaiting := snake.awaiting p ++ more |} /\
  Forall accepted calls.
Proof.
  destruct p as [g waiting]. intros Hs.
  pose proof Hs as (Hlen & Harea & Hnd & Hscore & Hspeed & Hfood & Hwait).
  cbn [snake.game snake.awaiting] in *.
  unfold snake.update.
  destruct (negb (snake.gameStarted g) || snake.gameOver g).
  { rewrite app_nil_r. split; [exact Hs|constructor]. }
  destruct (now - snake.lastMove g <? snake.speed g).
  { rewrite app_nil_r. split; [exact Hs|constructor]. }
  assert (Hover : forall g',
            snake.snake g' = snake.snake g -> snake.score g' = snake.score g ->
            snake.speed g' = snake.speed g -> snake.food g' = snake.food g ->
            snake.sound {| snake.game := fst (fst (snake.endGame g'));
                           snake.awaiting := waiting ++ snd (snake.endGame g') |} /\
            Forall accepted (snd (fst (snake.endGame g')))).
  { intros g' H1 H2 H3 H4. split; [|cbn; accept_calls'].
    unfold snake.sound. cbn. rewrite H1, H2, H3, H4.
    split; [exact Hlen|]. split; [exact Harea|]. split; [exact Hnd|].
    split; [exact Hscore|]. split; [exact Hspeed|]. split; [exact Hfood|].
    apply Forall_app. split; [exact Hwait|repeat constructor]. }
  cbv zeta. cbn [snake.snake snake.direction snake.food snake.score snake.speed].
  destruct (snake.snake g) as [|head body] eqn:Hbody; [cbn in Hlen; lia|].
  set (d := match snake.pendingDirection g with
            | Some pending =>
                if snake.opposite pending (snake.direction g)
                then snake.direction g else pending
            | None => snake.direction g
            end).
  cbn [snake.row snake.col].
  set (newHead := {| snake.row := snake.row head + snake.d_row d;
                     snake.col := snake.col head + snake.d_col d |}).
  destruct (Z.ltb_spec (snake.row head + snake.d_row d) snake.GAME_AREA.top);
    [rewrite ?orb_true_r; cbn [orb];
     match goal with
     | |- context [snake.endGame ?g'] => exact (Hover g' eq_refl eq_refl eq_refl eq_refl)
     end|].
  destruct (Z.gtb_spec (snake.row head + snake.d_row d) snake.GAME_AREA.bottom);
    [rewrite ?orb_true_r; cbn [orb];
     match goal with
     | |- context [snake.endGame ?g'] => exact (Hover g' eq_refl eq_refl eq_refl eq_refl)
     end|].
  destruct (Z.ltb_spec (snake.col head + snake.d_col d) snake.GAME_AREA.left);
    [rewrite ?orb_true_r; cbn [orb];
     match goal with
     | |- context [snake.endGame ?g'] => exact (Hover g' eq_refl eq_refl eq_refl eq_refl)
     end|].
  destruct (Z.gtb_spec (snake.col head + snake.d_col d) snake.GAME_AREA.right);
    [rewrite ?orb_true_r; cbn [orb];
     match goal with
     | |- context [snake.endGame ?g'] => exact (Hover g' eq_refl eq_refl eq_refl eq_refl)
     end|].
  cbn [orb].
  assert (Hhead : snake.inArea newHead) by (unfold snake.inArea; cbn; lia).
  destruct (existsb (snake.same newHead) (head :: body)) eqn:Hself.
  { match goal with
    | |- context [snake.endGame ?g'] => exact (Hover g' eq_refl eq_refl eq_refl eq_refl)
    end. }
  apply snake_existsb_same in Hself.
  destruct (match snake.food g with
            | Some f => snake.same newHead f
            | None => false
            end).
  - split.
    + unfold snake.sound. cbn [snake.game snake.awaiting snake.snake snake.score
                                snake.speed snake.food].
      split; [cbn [length] in *; lia|].
      split; [constructor; assumption|].
      split; [apply NoDup_cons; split; assumption|].
      split; [cbn [length] in *; lia|].
      split; [exact Hspeed|]. split; [exact Hfood|].
      apply Forall_app. split; [exact Hwait|]. constructor; [exact Hhead|constructor].
    + apply Forall_app. split; [apply snake_drawScoreInBorder_accepted|].
      accept_calls'.
  - destruct (snake_removelast_facts newHead (head :: body)) as (Hl & Hsub & Hnd' & tail & Htail & Hin);
      [discriminate|].
    split.
    + unfold snake.sound. cbn [snake.game snake.awaiting snake.snake snake.score
                                snake.speed snake.food].
      rewrite app_nil_r.
      split; [rewrite Hl; exact Hlen|].
      split.
      { apply Forall_forall. intros q Hq. apply Hsub in Hq.
        apply elem_of_cons in Hq as [->|Hq]; [exact Hhead|].
        rewrite Forall_forall in Harea. apply Harea. exact Hq. }
      split; [apply Hnd', NoDup_cons; split; assumption|].
      split; [rewrite Hl; exact Hscore|].
      split; [exact Hspeed|]. split; [exact Hfood|exact Hwait].
    + rewrite Htail.
      apply List.Forall_cons; [exact (snake_inArea_accepted newHead Hhead)|].
      apply List.Forall_cons; [apply accepted_writeText|].
      rewrite Forall_forall in Harea.
      apply List.Forall_cons; [exact (snake_inArea_accepted tail (Harea tail Hin))|].
      accept_calls'.
Qed.

Lemma snake_sound_unchanged (g g' : snake.Game)
    (waiting waiting' : list snake.continuation) :
  snake.sound {| snake.game := g; snake.awaiting := waiting |} ->
  snake.snake g' = snake.snake g -> snake.score g' = snake.score g ->
  100 <= snake.speed g' <= 200 ->
  (forall f, snake.food g' = Some f -> snake.inArea f) ->
  Forall (fun c => match c with
                   | snake.update_afterBeep newHead => snake.inArea newHead
                   | _ => True
                   end) waiting' ->
  snake.sound {| snake.game := g'; snake.awaiting := waiting' |}.
Proof.
  intros (Hlen & Harea & Hnd & Hscore & _ & _ & _) H1 H2 Hspeed Hfood Hwait.
  unfold snake.sound. cbn [snake.game snake.awaiting] in *. rewrite H1, H2.
  split; [exact Hlen|]. split; [exact Harea|]. split; [exact Hnd|].
  split; [exact Hscore|]. split; [exact Hspeed|]. split; [exact Hfood|exact Hwait].
Qed.

Lemma snake_handleInput_sound (data : list Z) (now : Z) (draws : list (Z * Z))
    (p : snake.Program) (g : snake.Game) (calls : list call)
    (more : list snake.continuation) :
  snake.sound p -> snake.inRange draws ->
  snake.handleInput data now draws (snake.game p) = Some (g, calls, more) ->
  snake.sound {| snake.game := g; snake.awaiting := snake.awaiting p ++ more |} /\
  Forall accepted calls.
Proof.
  destruct p as [g0 waiting]. intros Hs Hdraws.
  pose proof Hs as (Hlen & Harea & Hnd & Hscore & Hspeed & Hfood & Hwait).
  cbn [snake.game snake.awaiting] in *.
  unfold snake.handleInput. cbv zeta.
  destruct (parseFunctionKey data) as [functionKey|].
  - destruct (functionKey =? CODES.KEY_ENVOI); [destruct (snake.gameOver g0)|].
    + intros [= <- <- <-]. split; [|accept_calls'].
      apply (snake_sound_unchanged _ _ _ _ Hs); try assumption; try reflexivity.
      * cbn. lia.
      * apply Forall_app. split; [exact Hwait|repeat constructor].
    + intros [= <- <- <-]. rewrite app_nil_r. split; [exact Hs|constructor].
    + intros [= <- <- <-]. rewrite app_nil_r. split; [exact Hs|constructor].
  - destruct (snake.keyDirection _) as [d|].
    + unfold snake.startGameIfNeeded.
      cbn [snake.set_pendingDirection snake.snake snake.direction snake.food
           snake.score snake.gameOver snake.gameStarted snake.speed snake.lastMove
           snake.pendingDirection snake.scoreJustUpdated snake.lastTailPos].
      destruct (negb (snake.gameStarted g0) && negb (snake.gameOver g0)).
      * match goal with
        | |- context [snake.spawnFood draws ?g1] =>
            destruct (snake.spawnFood draws g1) as [[g' calls']|] eqn:Hspawn;
            [|discriminate]
        end.
        destruct (snake_spawnFood_sound _ _ _ _ Hdraws Hspawn)
          as (Hcalls & f & Hf & _ & ->).
        match goal with
        | |- context [flat_map ?f (seqZ 8 10)] =>
            assert (Hclearing : Forall accepted (flat_map f (seqZ 8 10)))
              by (norm_calls; accept_calls');
            generalize dependent (flat_map f (seqZ 8 10))
        end.
        intros clearing Hclearing.
        match goal with
        | |- context [snake.drawSnake ?g1] =>
            assert (Hdrawn : Forall accepted (snake.drawSnake g1))
              by (apply snake_drawSnake_accepted; exact Harea);
            generalize dependent (snake.drawSnake g1)
        end.
        intros drawn Hdrawn.
        intros [= <- <- <-]. rewrite app_nil_r. split.
        -- apply (snake_sound_unchanged _ _ _ _ Hs); try assumption; try reflexivity.
           cbn. intros f' [= <-]. exact Hf.
        -- apply List.Forall_cons; [accept_call'|].
           rewrite !Forall_app. auto.
      * intros [= <- <- <-]. rewrite app_nil_r. split; [|constructor].
        apply (snake_sound_unchanged _ _ _ _ Hs); try assumption; reflexivity.
    + intros [= <- <- <-]. rewrite app_nil_r. split; [exact Hs|constructor].
Qed.

Lemma snake_delete_awaiting (k : nat) (waiting : list snake.continuation) :
  Forall (fun c => match c with
                   | snake.update_afterBeep newHead => snake.inArea newHead
                   | _ => True
                   end) waiting ->
  Forall (fun c => match c with
                   | snake.update_afterBeep newHead => snake.inArea newHead
                   | _ => True
                   end) (delete k waiting).
Proof.
  intros Hall. rewrite Forall_forall in *. intros c Hin.
  apply Hall. eapply list_elem_of_delete_inv. exact Hin.
Qed.

Lemma snake_resume_sound (k : nat) (draws : list (Z * Z)) (p : snake.Program)
    (c : snake.continuation) (g : snake.Game) (calls : list call)
    (more : list snake.continuation) :
  snake.sound p -> snake.inRange draws ->
  snake.awaiting p !! k = Some c ->
  snake.resume c draws (snake.game p) = Some (g, calls, more) ->
  snake.sound {| snake.game := g;
                 snake.awaiting := delete k (snake.awaiting p) ++ more |} /\
  Forall accepted calls.
Proof.
  destruct p as [g0 waiting]. intros Hs Hdraws Hk.
  pose proof Hs as (Hlen & Harea & Hnd & Hscore & Hspeed & Hfood & Hwait).
  cbn [snake.game snake.awaiting] in *.
  pose proof (snake_delete_awaiting k waiting Hwait) as Hrest.
  destruct c as [| |newHead|]; cbn [snake.resume].
  - enough (Hgoal :
        snake.sound {| snake.game := fst (fst (snake.init_reset g0));
                       snake.awaiting := delete k waiting ++ snd (snake.init_reset g0) |} /\
        Forall accepted (snd (fst (snake.init_reset g0))))
      by (intros [= <- <- <-]; exact Hgoal).
    unfold snake.init_reset. cbv zeta. cbn [fst snd].
    split; [|accept_calls'].
    unfold snake.sound. cbn [snake.game snake.awaiting snake.snake snake.score
                              snake.speed snake.food length].
    split; [lia|]. split.
    { repeat (apply List.Forall_cons;
                [unfold snake.inArea; vm_compute; repeat split; discriminate|]).
      apply List.Forall_nil. }
    split.
    { repeat (apply NoDup_cons; split;
                [intros Habs%list_elem_of_In; vm_compute in Habs;
                 intuition discriminate|]).
      apply NoDup_nil_2. }
    split; [reflexivity|]. split; [exact Hspeed|]. split; [discriminate|].
    apply Forall_app. split; [exact Hrest|repeat constructor].
  - enough (Hgoal :
        snake.sound {| snake.game := fst (fst (snake.init_draw g0));
                       snake.awaiting := delete k waiting ++ snd (snake.init_draw g0) |} /\
        Forall accepted (snd (fst (snake.init_draw g0))))
      by (intros [= <- <- <-]; exact Hgoal).
    unfold snake.init_draw. cbn [fst snd]. rewrite app_nil_r. split.
    + apply (snake_sound_unchanged _ _ _ _ Hs); try assumption; reflexivity.
    + apply List.Forall_cons; [accept_call'|].
      apply Forall_app. split; [apply snake_drawBorder_accepted|].
      apply snake_showInstructions_accepted.
  - unfold snake.update_resume. cbv zeta.
    match goal with
    | |- context [snake.spawnFood draws ?g1] =>
        destruct (snake.spawnFood draws g1) as [[g' calls']|] eqn:Hspawn;
        [|discriminate]
    end.
    destruct (snake_spawnFood_sound _ _ _ _ Hdraws Hspawn)
      as (Hcalls & f & Hf & _ & ->).
    intros [= <- <- <-]. rewrite app_nil_r.
    assert (Hhead : snake.inArea newHead).
    { rewrite Forall_forall in Hwait.
      exact (Hwait _ (list_elem_of_lookup_2 _ _ _ Hk)). }
    split.
    + apply (snake_sound_unchanged _ _ _ _ Hs); try assumption; try reflexivity.
      * cbn. lia.
      * cbn. intros f' [= <-]. exact Hf.
    + apply List.Forall_cons; [exact (snake_inArea_accepted newHead Hhead)|].
      apply List.Forall_cons; [apply accepted_writeText|exact Hcalls].
  - intros [= <- <- <-]. rewrite app_nil_r. split.
    + apply (snake_sound_unchanged _ _ _ _ Hs); try assumption; reflexivity.
    + apply snake_endGame_draw_accepted.
Qed.

Lemma snake_happen_sound (e : snake.event) (p p' : snake.Program) (calls : list call) :
  snake.sound p -> snake.possible e -> snake.happen e p = Some (p', calls) ->
  snake.sound p' /\ Forall accepted calls.
Proof.
  intros Hs He. destruct e as [now|data now draws|k draws|k]; cbn [snake.happen].
  - pose proof (snake_update_sound now p Hs) as Hu.
    destruct (snake.update now (snake.game p)) as [[g calls'] more].
    intros [= <- <-]. exact Hu.
  - destruct (snake.handleInput data now draws (snake.game p))
      as [[[g calls'] more]|] eqn:Hin; [|discriminate].
    intros [= <- <-]. exact (snake_handleInput_sound _ _ _ _ _ _ _ Hs He Hin).
  - destruct (snake.awaiting p !! k) as [c|] eqn:Hk; [|discriminate].
    destruct (snake.resume c draws (snake.game p)) as [[[g calls'] more]|] eqn:Hr;
      [|discriminate].
    intros [= <- <-]. exact (snake_resume_sound _ _ _ _ _ _ _ Hs He Hk Hr).
  - destruct (snake.awaiting p !! k) as [c|] eqn:Hk; [|discriminate].
    intros [= <- <-]. split; [|constructor].
    destruct p as [g waiting]. cbn [snake.game snake.awaiting] in *.
    apply (snake_sound_unchanged _ _ _ _ Hs); try reflexivity; try apply Hs.
    apply snake_delete_awaiting, Hs.
Qed.

Lemma snake_booted_sound : snake.sound snake.booted /\ Forall accepted snake.booting.
Proof.
  split.
  - unfold snake.sound. cbn.
    split; [lia|]. split.
    { repeat (apply List.Forall_cons;
                [unfold snake.inArea; vm_compute; repeat split; discriminate|]).
      apply List.Forall_nil. }
    split.
    { repeat (apply NoDup_cons; split;
                [intros Habs%list_elem_of_In; vm_compute in Habs;
                 intuition discriminate|]).
      apply NoDup_nil_2. }
    split; [reflexivity|]. split; [lia|]. split; [discriminate|constructor].
  - unfold snake.booting, snake.init, snake.init_reset, snake.init_draw.
    cbv zeta. cbn [fst snd].
    apply List.Forall_cons; [accept_call'|].
    apply List.Forall_cons; [accept_call'|].
    apply List.Forall_cons; [accept_call'|].
    apply Forall_app. split; [apply snake_drawBorder_accepted|].
    apply snake_showInstructions_accepted.
Qed.

(** X19. snake.js: in every state the game reaches after [init()],
    whatever the keys, the ticks of the interval timer, the draws of
    [Math.random()] and the order in which the awaited promises settle,
    the snake has at least three segments, all of them in the playing
    area and no two on the same cell, the score is ten times the number of
    segments gained, the interval between moves stays from 100 to 200 ms
    and the food is in the playing area; and every call the game has made
    to the driver is one a connected driver with a working port carries
    out: no cursor position or format name of the game is ever
    rejected. *)
Theorem snake_game_sound (events : list snake.event) (p : snake.Program)
    (calls : list call) :
  Forall snake.possible events ->
  snake.play events snake.booted = Some (p, calls) ->
  snake.sound p /\ Forall accepted (snake.booting ++ calls).
Proof.
  intros Hev Hplay.
  destruct snake_booted_sound as [Hs Hb].
  enough (Hgoal : snake.sound p /\ Forall accepted calls).
  { split; [apply Hgoal|]. apply Forall_app. split; [exact Hb|apply Hgoal]. }
  revert Hev Hplay Hs. generalize snake.booted. revert calls.
  induction events as [|e events IH]; intros calls p0 Hev Hplay Hs; cbn [snake.play] in Hplay.
  - injection Hplay as <- <-. split; [exact Hs|constructor].
  - inversion Hev as [|? ? He Hev']; subst.
    destruct (snake.happen e p0) as [[p1 calls1]|] eqn:Hh; [|discriminate].
    destruct (snake.play events p1) as [[p2 calls2]|] eqn:Hp; [|discriminate].
    injection Hplay as <- <-.
    destruct (snake_happen_sound e p0 p1 calls1 Hs He Hh) as [Hs1 Hc1].
    destruct (IH calls2 p1 Hev' Hp Hs1) as [Hs2 Hc2].
    split; [exact Hs2|]. apply Forall_app. split; assumption.
Qed.

(** A session: a key starts the game, the snake moves right onto the
    food and eats it, then turns up. *)
Lemma snake_game_sound_witness :
  let events := [snake.input [0x36] 1000 [(11, 19)]; snake.interval 1200;
                 snake.resolves 0 [(0, 0)]; snake.input [0x5A] 1300 [];
                 snake.interval 1400] in
  Forall snake.possible events /\
  exists p calls,
    snake.play events snake.booted = Some (p, calls) /\
    snake.score (snake.game p) = 10 /\
    length (snake.snake (snake.game p)) = 4%nat /\
    snake.sound p.
Proof.
  cbv zeta.
  assert (Hev : Forall snake.possible
                  [snake.input [0x36] 1000 [(11, 19)]; snake.interval 1200;
                   snake.resolves 0 [(0, 0)]; snake.input [0x5A] 1300 [];
                   snake.interval 1400]).
  { repeat (apply List.Forall_cons;
              [first [exact I
                     | unfold snake.possible, snake.inRange;
                       apply (bool_decide_unpack _); vm_compute; reflexivity]|]).
    apply List.Forall_nil. }
  split; [exact Hev|].
  destruct (snake.play
              [snake.input [0x36] 1000 [(11, 19)]; snake.interval 1200;
               snake.resolves 0 [(0, 0)]; snake.input [0x5A] 1300 [];
               snake.interval 1400] snake.booted) as [[p calls]|] eqn:Hplay.
  - exists p, calls. split; [reflexivity|].
    pose proof (proj1 (snake_game_sound _ p calls Hev Hplay)) as Hs.
    vm_compute in Hplay. injection Hplay as <- _.
    split; [reflexivity|]. split; [reflexivity|exact Hs].
  - vm_compute in Hplay. discriminate Hplay.
Defined.
